(** * Optimus: job specification adapter and deployment session

    A shallow embedding of
      - [store/local] job specification adapter ([Job], [prepareWindow],
        [JobSpecAdapter.ToSpec], [JobSpecAdapter.FromSpec],
        [tryParsingInMonths]), and
      - [cmd/opctl/commands/deploy.go] ([postDeploymentRequest]),
      - the parts of the [create] command that stand on their own
        ([getWindowParameters], the proposed names, the job of
        [createJobSurvey], [ifHookAlreadyExistsForJob], the questions of
        a plugin),
    together with the properties the specification states about them
    and further properties read off the code.

    Conventions.
      - A Go [string] is a sequence of bytes: Rocq's [string].
      - [int], [int64], [time.Duration] are 64-bit two's complement
        integers: [Z] with the wrap-around written out ([wrap64]).
      - A Go function returning [(T, error)] returns a pair
        [T * option error]; [None] is the [nil] error.
      - A run-time panic is an outcome of its own ([Panics]). *)

From Stdlib Require Import ZArith String Ascii List Lia Bool.
From Stdlib Require Import SpecFloat.
From stdpp Require Import gmap strings list fin_maps.
From ITree Require ITree ITreeFacts Eq.Shallow.
From Stdlib Require Eqdep.

Local Open Scope string_scope.
Local Open Scope Z_scope.

(** ** Machine integers and durations *)

Module Int64.

Definition min_int : Z := - 2 ^ 63.
Definition max_int : Z := 2 ^ 63 - 1.

(** Two's complement wrap-around of the mathematical result. *)
Definition wrap64 (z : Z) : Z := (z + 2 ^ 63) mod 2 ^ 64 - 2 ^ 63.

Definition mul (a b : Z) : Z := wrap64 (a * b).
Definition add (a b : Z) : Z := wrap64 (a + b).
Definition neg (a : Z) : Z := wrap64 (- a).

Definition in_range (z : Z) : Prop := min_int <= z <= max_int.

End Int64.

(** ** Errors *)

(** The [error] values of the two files.  [ErrForeign] stands for an error
    value handed over by a collaborator outside the modelled code (plugin
    registries, the RPC transport); [deadline] records whether
    [errors.Is(err, context.DeadlineExceeded)] holds of it. *)
Inductive error : Type :=
| ErrNotAMonthDuration                      (* errors.New("invalid month string") *)
| ErrAtoiSyntax (s : string)                (* strconv.Atoi: invalid syntax *)
| ErrAtoiRange (s : string)                 (* strconv.Atoi: value out of range *)
| ErrInvalidDuration (s : string)           (* time: invalid duration *)
| ErrMissingUnit (s : string)               (* time: missing unit in duration *)
| ErrUnknownUnit (u s : string)             (* time: unknown unit *)
| ErrTimeParse (s : string)                 (* *time.ParseError *)
| ErrNew (msg : string)                     (* errors.New / fmt.Errorf / errors.Errorf *)
| ErrWrap (cause : error) (msg : string)    (* errors.Wrap / errors.Wrapf *)
| ErrEOF                                    (* io.EOF *)
| ErrForeign (tag : string) (deadline : bool).

(** The outcome of running a Go function: it returns, or it panics. *)
Inductive outcome (A : Type) : Type :=
| Returns (a : A)
| Panics (why : string).
Arguments Returns {A} a.
Arguments Panics {A} why.

(** ** Bytes and strings *)

Module Bytes.

Definition code (c : ascii) : Z := Z.of_N (N_of_ascii c).

(** ['0' <= c && c <= '9'] *)
Definition isDigit (c : ascii) : bool := (48 <=? code c) && (code c <=? 57).

(** [int(c - '0')] for a digit [c]. *)
Definition digitVal (c : ascii) : Z := code c - 48.

(** The byte of a decimal digit, ['0' + d]. *)
Definition digitChar (d : Z) : ascii := ascii_of_N (Z.to_N (48 + d)).

(** The value of a string of decimal digits, most significant first. *)
Fixpoint decimalFrom (acc : Z) (s : string) : Z :=
  match s with
  | EmptyString => acc
  | String c r => decimalFrom (acc * 10 + digitVal c) r
  end.
Definition decimal (s : string) : Z := decimalFrom 0 s.

Fixpoint allDigits (s : string) : bool :=
  match s with
  | EmptyString => true
  | String c r => isDigit c && allDigits r
  end.

(** [s[n:]] for [n <= len(s)]. *)
Fixpoint drop (n : nat) (s : string) : string :=
  match n, s with
  | O, _ => s
  | S k, String _ r => drop k r
  | S _, EmptyString => EmptyString
  end.

Fixpoint rev_onto (s acc : string) : string :=
  match s with
  | EmptyString => acc
  | String c r => rev_onto r (String c acc)
  end.
Definition rev (s : string) : string := rev_onto s EmptyString.

End Bytes.
Import Bytes.

(** ** [strings.TrimSpace] *)

Module Strings.

(** The ASCII white space of [strings.asciiSpace]:
    ['\t', '\n', '\v', '\f', '\r', ' ']. *)
Definition asciiSpace (c : ascii) : bool :=
  ((9 <=? code c) && (code c <=? 13)) || (code c =? 32).

(** [TrimSpace] removes every leading and trailing rune for which
    [unicode.IsSpace] holds.  On the bytes of the string this removes, on
    the left, the ASCII spaces and the UTF-8 encodings of U+0085, U+00A0,
    U+1680, U+2000..U+200A, U+2028, U+2029, U+202F, U+205F and U+3000. *)
Definition spaceTail2 (b0 b1 : ascii) : bool :=
  (code b0 =? 194) && ((code b1 =? 133) || (code b1 =? 160)).

Definition spaceTail3 (b0 b1 b2 : ascii) : bool :=
  ((code b0 =? 225) && (code b1 =? 154) && (code b2 =? 128))
  || ((code b0 =? 226) && (code b1 =? 128)
      && (((128 <=? code b2) && (code b2 <=? 138))
          || (code b2 =? 168) || (code b2 =? 169) || (code b2 =? 175)))
  || ((code b0 =? 226) && (code b1 =? 129) && (code b2 =? 159))
  || ((code b0 =? 227) && (code b1 =? 128) && (code b2 =? 128)).

Fixpoint trimLeft (s : string) : string :=
  match s with
  | EmptyString => s
  | String b0 r0 =>
      if asciiSpace b0 then trimLeft r0
      else match r0 with
           | String b1 r1 =>
               if spaceTail2 b0 b1 then trimLeft r1
               else match r1 with
                    | String b2 r2 =>
                        if spaceTail3 b0 b1 b2 then trimLeft r2 else s
                    | EmptyString => s
                    end
           | EmptyString => s
           end
  end.

(** The same on the reversed string: the encodings are read backwards. *)
Fixpoint trimLeftRev (s : string) : string :=
  match s with
  | EmptyString => s
  | String b0 r0 =>
      if asciiSpace b0 then trimLeftRev r0
      else match r0 with
           | String b1 r1 =>
               if spaceTail2 b1 b0 then trimLeftRev r1
               else match r1 with
                    | String b2 r2 =>
                        if spaceTail3 b2 b1 b0 then trimLeftRev r2 else s
                    | EmptyString => s
                    end
           | EmptyString => s
           end
  end.

Definition TrimSpace (s : string) : string :=
  rev (trimLeftRev (rev (trimLeft s))).

End Strings.

(** ** Package [time]: durations *)

Module Time.

Definition Nanosecond : Z := 1.
Definition Microsecond : Z := 1000 * Nanosecond.
Definition Millisecond : Z := 1000 * Microsecond.
Definition Second : Z := 1000 * Millisecond.
Definition Minute : Z := 60 * Second.
Definition Hour : Z := 60 * Minute.

(** [unitMap]; the two spellings of the micro sign are the UTF-8 bytes of
    U+00B5 and U+03BC. *)
Definition unitMap (u : string) : option Z :=
  if String.eqb u "ns" then Some Nanosecond
  else if String.eqb u "us" then Some Microsecond
  else if String.eqb u (String (ascii_of_N 194) (String (ascii_of_N 181) "s"))
       then Some Microsecond
  else if String.eqb u (String (ascii_of_N 206) (String (ascii_of_N 188) "s"))
       then Some Microsecond
  else if String.eqb u "ms" then Some Millisecond
  else if String.eqb u "s" then Some Second
  else if String.eqb u "m" then Some Minute
  else if String.eqb u "h" then Some Hour
  else None.

(** [leadingInt]: the digits at the head of [s] as a [uint64], and the
    rest; [None] is [errLeadingInt] (the value passes [1<<63]). *)
Fixpoint leadingInt (x : Z) (s : string) : option (Z * string) :=
  match s with
  | String c r =>
      if isDigit c then
        if 2 ^ 63 / 10 <? x then None
        else let x' := x * 10 + digitVal c in
             if 2 ^ 63 <? x' then None else leadingInt x' r
      else Some (x, s)
  | EmptyString => Some (x, s)
  end.

(** [leadingFraction]: the digits after the point as [x / scale]; once
    the value would pass [1<<63] the remaining digits are skipped.
    [scale] is a power of ten of at most nineteen digits, which a
    [float64] holds exactly. *)
Fixpoint leadingFraction (x scale : Z) (overflow : bool) (s : string)
  : Z * Z * string :=
  match s with
  | String c r =>
      if isDigit c then
        if overflow then leadingFraction x scale true r
        else if (2 ^ 63 - 1) / 10 <? x then leadingFraction x scale true r
        else let y := x * 10 + digitVal c in
             if 2 ^ 63 <? y then leadingFraction x scale true r
             else leadingFraction y (scale * 10) false r
      else (x, scale, s)
  | EmptyString => (x, scale, s)
  end.

(** IEEE 754 binary64, as [float64] computes. *)
Definition float64 (z : Z) : spec_float := binary_normalize 53 1024 z 0 false.

(** [uint64(x)] of a finite float: truncation. *)
Definition truncFloat (x : spec_float) : Z :=
  match x with
  | S754_finite sg m e =>
      let a := if 0 <=? e then Z.pos m * 2 ^ e else Z.pos m / 2 ^ (- e) in
      if sg then - a else a
  | _ => 0
  end.

(** [uint64(float64(f) * (float64(unit) / scale))] *)
Definition fractionNanos (f scale unit : Z) : Z :=
  truncFloat (SFmul 53 1024 (float64 f)
                (SFdiv 53 1024 (float64 unit) (float64 scale))).

(** The unit of a term: the bytes up to the next ['.'] or digit. *)
Fixpoint spanUnit (s : string) : string * string :=
  match s with
  | String c r =>
      if (code c =? 46) || isDigit c then (EmptyString, s)
      else let (u, rest) := spanUnit r in (String c u, rest)
  | EmptyString => (EmptyString, s)
  end.

(** One turn of the loop of [ParseDuration] on a non-empty [s]: the value
    in nanoseconds of the term at its head (digits, an optional point and
    digits, a unit) and what is left of [s], or the error returned. *)
Definition durationTerm (orig s : string) : error + (Z * string) :=
  match s with
  | EmptyString => inl (ErrInvalidDuration orig)
  | String c0 _ =>
      if negb ((code c0 =? 46) || isDigit c0) then inl (ErrInvalidDuration orig)
      else
        match leadingInt 0 s with
        | None => inl (ErrInvalidDuration orig)
        | Some (v, s1) =>
            let pre := negb (String.length s =? String.length s1)%nat in
            let '(f, scale, s2, post) :=
              match s1 with
              | String c1 r1 =>
                  if code c1 =? 46 then
                    let '(f, scale, s2) := leadingFraction 0 1 false r1 in
                    (f, scale, s2,
                     negb (String.length r1 =? String.length s2)%nat)
                  else (0, 1, s1, false)
              | EmptyString => (0, 1, s1, false)
              end in
            if negb pre && negb post then inl (ErrInvalidDuration orig)
            else
              let (u, s3) := spanUnit s2 in
              match u with
              | EmptyString => inl (ErrMissingUnit orig)
              | String _ _ =>
                  match unitMap u with
                  | None => inl (ErrUnknownUnit u orig)
                  | Some unit =>
                      if 2 ^ 63 / unit <? v then inl (ErrInvalidDuration orig)
                      else
                        let v1 := v * unit in
                        if 0 <? f then
                          let v2 := v1 + fractionNanos f scale unit in
                          if 2 ^ 63 <? v2 then inl (ErrInvalidDuration orig)
                          else inr (v2, s3)
                        else inr (v1, s3)
                  end
              end
        end
  end.

(** [for s != "" { ... }]: [skip] counts the bytes of [s] that the term
    just read still covers; a term is read where it is [0]
    (see [durationLoop_term]). *)
Fixpoint durationLoop (orig : string) (skip : nat) (s : string) (d : Z)
  : error + Z :=
  match s with
  | EmptyString => inr d
  | String _ r =>
      match skip with
      | S k => durationLoop orig k r d
      | O =>
          match durationTerm orig s with
          | inl e => inl e
          | inr (v, rest) =>
              let d' := (d + v) mod 2 ^ 64 in
              if 2 ^ 63 <? d' then inl (ErrInvalidDuration orig)
              else durationLoop orig
                     (String.length s - String.length rest - 1)%nat r d'
          end
      end
  end.

(** [time.ParseDuration] *)
Definition ParseDuration (orig : string) : Z * option error :=
  let '(neg, s) :=
    match orig with
    | String c r =>
        if (code c =? 45) || (code c =? 43) then (code c =? 45, r)
        else (false, orig)
    | EmptyString => (false, orig)
    end in
  if String.eqb s "0" then (0, None)
  else if String.eqb s "" then (0, Some (ErrInvalidDuration orig))
  else
    match durationLoop orig 0 s 0 with
    | inl e => (0, Some e)
    | inr d =>
        if neg then (Int64.neg (Int64.wrap64 d), None)
        else if 2 ^ 63 - 1 <? d then (0, Some (ErrInvalidDuration orig))
        else (d, None)
    end.

(** *** Dates

    [time.Parse] and [Time.Format] are modelled at the one layout the
    adapter uses, [models.JobDatetimeLayout].  A [time.Time] is held as
    the civil date it shows in UTC: [Parse] at this layout sets nothing
    else (midnight, UTC) and [Format] at this layout reads nothing
    else. *)

(** Modelled from the spec: [models.JobDatetimeLayout] is declared in
    package [models], which is not among the sources; the specification
    gives the pattern of the dates as [YYYY-MM-DD], in the notation of
    package [time] the layout below. *)
Definition JobDatetimeLayout : string := "2006-01-02".

Record t : Type := Date { year : Z; month : Z; day : Z }.

(** [time.Time{}]: January 1, year 1, 00:00:00 UTC. *)
Definition zero : t := Date 1 1 1.

Definition isLeap (y : Z) : bool :=
  (y mod 4 =? 0) && (negb (y mod 100 =? 0) || (y mod 400 =? 0)).

Definition daysIn (m y : Z) : Z :=
  if (m =? 2) && isLeap y then 29
  else if m =? 2 then 28
  else if (m =? 4) || (m =? 6) || (m =? 9) || (m =? 11) then 30
  else 31.

(** [getnum(s, true)]: exactly two digits. *)
Definition getnum2 (s : string) : option (Z * string) :=
  match s with
  | String a (String b r) =>
      if isDigit a && isDigit b then Some (digitVal a * 10 + digitVal b, r)
      else None
  | _ => None
  end.

(** [skip(value, "-")] *)
Definition skipDash (s : string) : option string :=
  match s with
  | String c r => if code c =? 45 then Some r else None
  | EmptyString => None
  end.

(** [time.Parse(JobDatetimeLayout, value)]: a year of four digits, a
    month and a day of two, nothing after them; the month and the day
    have to exist. *)
Definition Parse (value : string) : t * option error :=
  let bad := (zero, Some (ErrTimeParse value)) in
  match value with
  | String y0 (String y1 (String y2 (String y3 v1))) =>
      let p := String y0 (String y1 (String y2 (String y3 ""))) in
      if negb (allDigits p) then bad
      else
        let y := decimal p in
        match skipDash v1 with
        | None => bad
        | Some v2 =>
            match getnum2 v2 with
            | None => bad
            | Some (m, v3) =>
                if (m <=? 0) || (12 <? m) then bad
                else
                  match skipDash v3 with
                  | None => bad
                  | Some v4 =>
                      match getnum2 v4 with
                      | None => bad
                      | Some (d, v5) =>
                          if negb (String.eqb v5 "") then bad
                          else if (d <? 1) || (daysIn m y <? d) then bad
                          else (Date y m d, None)
                      end
                  end
            end
        end
  | _ => bad
  end.

(** The decimal digits of [u >= 0], written in front of [acc]; the
    buffer of [appendInt] has twenty bytes. *)
Fixpoint utoa (fuel : nat) (u : Z) (acc : string) : string :=
  match fuel with
  | O => acc
  | S k =>
      let acc' := String (digitChar (u mod 10)) acc in
      if u <? 10 then acc' else utoa k (u / 10) acc'
  end.

Fixpoint zeros (n : nat) : string :=
  match n with O => EmptyString | S k => String "0" (zeros k) end.

(** [appendInt(nil, x, width)]: a minus sign for a negative [x], then
    its digits behind the zeros that fill them up to [width]. *)
Definition appendInt (x : Z) (width : nat) : string :=
  let ds := utoa 20 (Z.abs x) EmptyString in
  (if x <? 0 then "-" else "")
  +:+ zeros (width - String.length ds) +:+ ds.

(** [t.Format(JobDatetimeLayout)] *)
Definition Format (d : t) : string :=
  appendInt (year d) 4 +:+ "-" +:+ appendInt (month d) 2
  +:+ "-" +:+ appendInt (day d) 2.

End Time.

(** ** Package [regexp]: the expression [monthExp] *)

Module MonthExp.

(** [monthExp = regexp.MustCompile("(\\+|-)?([0-9]+)(M)")].  A match that
    starts at the head of [s] is an optional sign, the whole run of digits
    that follows (a shorter run would be followed by a digit, not by [M]),
    which is not empty, and the letter [M].  When the head is a sign and
    no match starts with it, none starts without it either, the sign not
    being a digit. *)

Definition isSign (c : ascii) : bool := (code c =? 43) || (code c =? 45).

Fixpoint spanDigits (s : string) : string * string :=
  match s with
  | String c r =>
      if isDigit c then let (d, rest) := spanDigits r in (String c d, rest)
      else (EmptyString, s)
  | EmptyString => (EmptyString, s)
  end.

(** [([0-9]+)(M)] at the head of [s]: the digits and the rest. *)
Definition digitsM (s : string) : option (string * string) :=
  match spanDigits s with
  | (String c d, String m rest) =>
      if code m =? 77 then Some (String c d, rest) else None
  | _ => None
  end.

(** The match at the head of [s], as [FindStringSubmatch] gives it (the
    whole match, then the three groups; a group that took no part is the
    empty string), and the rest of [s]. *)
Definition matchHead (s : string) : option (list string * string) :=
  match s with
  | EmptyString => None
  | String c r =>
      if isSign c then
        match digitsM r with
        | Some (d, rest) =>
            Some ([String c (d +:+ "M"); String c ""; d; "M"], rest)
        | None => None
        end
      else
        match digitsM s with
        | Some (d, rest) => Some ([d +:+ "M"; ""; d; "M"], rest)
        | None => None
        end
  end.

(** [monthExp.FindAllStringSubmatch(s, -1)]: the matches from left to
    right, none overlapping another.  [skip] counts the bytes of [s] that
    the last match still covers. *)
Fixpoint findAllFrom (skip : nat) (s : string) : list (list string) :=
  match s with
  | EmptyString => []
  | String _ r =>
      match skip with
      | S k => findAllFrom k r
      | O =>
          match matchHead s with
          | Some (m, rest) =>
              m :: findAllFrom (String.length s - String.length rest - 1)%nat r
          | None => findAllFrom O r
          end
      end
  end.
Definition FindAllStringSubmatch (s : string) : list (list string) :=
  findAllFrom O s.

(** [monthExp.ReplaceAllString(s, "")]: [s] without its matches. *)
Fixpoint removeAllFrom (skip : nat) (s : string) : string :=
  match s with
  | EmptyString => EmptyString
  | String c r =>
      match skip with
      | S k => removeAllFrom k r
      | O =>
          match matchHead s with
          | Some (_, rest) =>
              removeAllFrom (String.length s - String.length rest - 1)%nat r
          | None => String c (removeAllFrom O r)
          end
      end
  end.
Definition ReplaceAllString_empty (s : string) : string := removeAllFrom O s.

End MonthExp.

(** ** Package [strconv] *)

Module Strconv.

(** [strconv.Atoi], [int] having 64 bits: an optional sign and decimal
    digits; a value out of range comes back as the nearest [int] with a
    range error. *)
Definition Atoi (s : string) : Z * option error :=
  let '(neg, ds) :=
    match s with
    | String c r =>
        if (code c =? 43) || (code c =? 45) then (code c =? 45, r)
        else (false, s)
    | EmptyString => (false, s)
    end in
  match ds with
  | EmptyString => (0, Some (ErrAtoiSyntax s))
  | String _ _ =>
      if negb (allDigits ds) then (0, Some (ErrAtoiSyntax s))
      else if neg then
        if 2 ^ 63 <? decimal ds then (Int64.min_int, Some (ErrAtoiRange s))
        else (- decimal ds, None)
      else
        if Int64.max_int <? decimal ds
        then (Int64.max_int, Some (ErrAtoiRange s))
        else (decimal ds, None)
  end.

End Strconv.

(** ** Package [store/local]: the duration grammar *)

(** [HoursInMonth = time.Duration(30) * 24 * time.Hour] *)
Definition HoursInMonth : Z := 30 * 24 * Time.Hour.

(** [monthMatches[i][j]]; the indices the code uses are guarded by the
    lengths it checks first. *)
Definition submatch (ms : list (list string)) (i j : nat) : string :=
  nth j (nth i ms []) "".

(** [tryParsingInMonths]: checks whether the string carries the month
    notation, [1M] standing for thirty days. *)
Definition tryParsingInMonths (str : string) : Z * option error :=
  let sz := 0 in
  let monthMatches := MonthExp.FindAllStringSubmatch str in
  if (0 <? length monthMatches)%nat && (length (nth 0 monthMatches []) =? 4)%nat
  then
    match Strconv.Atoi (submatch monthMatches 0 2) with
    | (_, Some err) =>
        (sz, Some (ErrWrap err ("failed to parse task configuration of " +:+ str)))
    | (monthsCount, None) =>
        let sz := Int64.mul HoursInMonth monthsCount in
        let sz := if String.eqb (submatch monthMatches 0 1) "-"
                  then Int64.mul sz (-1) else sz in
        let str := Strings.TrimSpace (MonthExp.ReplaceAllString_empty str) in
        if (0 <? String.length str)%nat then
          match Time.ParseDuration str with
          | (_, Some err) =>
              (sz, Some (ErrWrap err
                           ("failed to parse task configuration of " +:+ str)))
          | (remainingTime, None) => (Int64.add sz remainingTime, None)
          end
        else (sz, None)
    end
  else (sz, Some ErrNotAMonthDuration).

(** ** Panics and early returns *)

#[global] Instance outcome_ret : MRet outcome := fun _ a => Returns a.
#[global] Instance outcome_bind : MBind outcome :=
  fun _ _ f m => match m with Returns a => f a | Panics why => Panics why end.

(** ** Package [yaml]: ordered maps of dynamically typed values *)

Module Yaml.

(** An [interface{}] read from a document: a string, or a value of
    another dynamic type (a number, a boolean, null, a nested
    collection), of which only its not being a string matters here. *)
Inductive value : Type :=
| VString (s : string)
| VOther (shown : string).

Record MapItem : Type := { Key : value; Value : value }.
Definition MapSlice : Type := list MapItem.

(** The type assertion [v.(string)], which panics on another type. *)
Definition assertString (v : value) : outcome string :=
  match v with
  | VString s => Returns s
  | VOther _ =>
      Panics "interface conversion: interface {} is not string"
  end.

End Yaml.

(** ** Package [models]: the domain model

    The declarations of package [models] are not among the sources; the
    records below have the fields that [store/local] reads and writes, with
    the types it uses them at. *)

Module Models.

Module JobSpecTaskWindow.
Record t : Type := { Size : Z; Offset : Z; TruncateTo : string }.
End JobSpecTaskWindow.

Module JobSpecConfigItem.
Record t : Type := { Name : string; Value : string }.
End JobSpecConfigItem.
Definition JobSpecConfigs : Type := list JobSpecConfigItem.t.

(** The plugin handles are interface values; the adapter calls one method
    of them, [Name()]. *)
Module Transformation.
Record t : Type := { Name : string }.
End Transformation.

Module HookUnit.
Record t : Type := { Name : string }.
End HookUnit.

(** The registries, known by their method [GetByName]; a [nil] handle is
    [None]. *)
Module TransformationRepo.
Record t : Type :=
  { GetByName : string -> option Transformation.t * option error }.
End TransformationRepo.

Module HookRepo.
Record t : Type :=
  { GetByName : string -> option HookUnit.t * option error }.
End HookRepo.

Module JobSpecHook.
Record t : Type := { Config : JobSpecConfigs; Unit : option HookUnit.t }.
Definition zero : t := {| Config := []; Unit := None |}.
End JobSpecHook.

Module JobSpecSchedule.
Record t : Type :=
  { StartDate : Time.t; EndDate : option Time.t; Interval : string }.
End JobSpecSchedule.

Module JobSpecBehavior.
Record t : Type := { CatchUp : bool; DependsOnPast : bool }.
End JobSpecBehavior.

Module JobSpecTask.
Record t : Type :=
  { Unit : option Transformation.t;
    Config : JobSpecConfigs;
    Window : JobSpecTaskWindow.t }.
End JobSpecTask.

(** [type JobSpecDependencyType string]: the adapter converts its
    constants with [string(...)]. *)
Definition JobSpecDependencyType : Type := string.

Module JobSpecDependency.
Record t : Type := { Type_ : JobSpecDependencyType }.
End JobSpecDependency.

(** Modelled from the spec: [JobAssets], [FromMap] and [ToMap] are
    declared in package [models], which is not among the sources; the
    specification describes the assets as a map of string to string on
    both sides of the adapter. *)
Module JobAssets.
Record t : Type := { data : gmap string string }.
Definition zero : t := {| data := ∅ |}.
Definition FromMap (m : gmap string string) : t := {| data := m |}.
Definition ToMap (a : t) : gmap string string := data a.
End JobAssets.

Module JobSpec.
Record t : Type :=
  { Version : Z;
    Name : string;
    Owner : string;
    Description : string;
    Labels : gmap string string;
    Schedule : JobSpecSchedule.t;
    Behavior : JobSpecBehavior.t;
    Task : JobSpecTask.t;
    Assets : JobAssets.t;
    Dependencies : gmap string JobSpecDependency.t;
    Hooks : list JobSpecHook.t }.

(** [models.JobSpec{}] *)
Definition zero : t :=
  {| Version := 0; Name := ""; Owner := ""; Description := "";
     Labels := ∅;
     Schedule := {| JobSpecSchedule.StartDate := Time.zero;
                    JobSpecSchedule.EndDate := None;
                    JobSpecSchedule.Interval := "" |};
     Behavior := {| JobSpecBehavior.CatchUp := false;
                    JobSpecBehavior.DependsOnPast := false |};
     Task := {| JobSpecTask.Unit := None;
                JobSpecTask.Config := [];
                JobSpecTask.Window :=
                  {| JobSpecTaskWindow.Size := 0;
                     JobSpecTaskWindow.Offset := 0;
                     JobSpecTaskWindow.TruncateTo := "" |} |};
     Assets := JobAssets.zero;
     Dependencies := ∅;
     Hooks := [] |}.
End JobSpec.

(** What else the adapter takes from package [models]: the three
    constants of [JobSpecDependencyType], which a [switch] lists as its
    cases and which therefore differ from one another, and the methods
    that render a dependency type and the two spans of a window. *)
Class Package : Type :=
  { JobSpecDependencyTypeIntra : JobSpecDependencyType;
    JobSpecDependencyTypeInter : JobSpecDependencyType;
    JobSpecDependencyTypeExtra : JobSpecDependencyType;
    dependencyTypes_differ :
      NoDup [JobSpecDependencyTypeIntra; JobSpecDependencyTypeInter;
             JobSpecDependencyTypeExtra];
    JobSpecDependencyType_String : JobSpecDependencyType -> string;
    SizeString : JobSpecTaskWindow.t -> string;
    OffsetString : JobSpecTaskWindow.t -> string }.

End Models.

(** The order in which [for k, v := range m] visits a map is not
    specified: it is some enumeration of the entries. *)
Class MapRange : Type :=
  { mapRange : forall {V : Type}, gmap string V -> list (string * V);
    mapRange_perm : forall (V : Type) (m : gmap string V),
        mapRange m ≡ₚ map_to_list m }.

(** ** Package [store/local]: the specification on disk *)

Module JobSchedule.
Record t : Type :=
  { StartDate : string; EndDate : string; Interval : string }.
End JobSchedule.

Module JobBehavior.
Record t : Type := { DependsOnPast : bool; Catchup : bool }.
End JobBehavior.

Module JobTaskWindow.
Record t : Type := { Size : string; Offset : string; TruncateTo : string }.
End JobTaskWindow.

Module JobTask.
Record t : Type :=
  { Name : string; Config : Yaml.MapSlice; Window : JobTaskWindow.t }.
End JobTask.

Module JobDependency.
Record t : Type := { JobName : string; Type_ : string }.
End JobDependency.

(** [JobSpecConfigFromYamlSlice] *)
Fixpoint JobSpecConfigFromYamlSlice (conf : Yaml.MapSlice)
  : outcome Models.JobSpecConfigs :=
  match conf with
  | [] => Returns []
  | c :: rest =>
      name ← Yaml.assertString (Yaml.Key c);
      value ← Yaml.assertString (Yaml.Value c);
      conv ← JobSpecConfigFromYamlSlice rest;
      Returns ({| Models.JobSpecConfigItem.Name := name;
                  Models.JobSpecConfigItem.Value := value |} :: conv)
  end.

(** [JobSpecConfigToYamlSlice] *)
Definition JobSpecConfigToYamlSlice (conf : Models.JobSpecConfigs)
  : Yaml.MapSlice :=
  map (fun c => {| Yaml.Key := Yaml.VString (Models.JobSpecConfigItem.Name c);
                   Yaml.Value := Yaml.VString (Models.JobSpecConfigItem.Value c) |})
      conf.

Module JobHook.
Record t : Type := { Name : string; Config : Yaml.MapSlice }.

(** [JobHook.ToSpec] *)
Definition ToSpec (a : t) (supportedHookRepo : Models.HookRepo.t)
  : outcome (Models.JobSpecHook.t * option error) :=
  match Models.HookRepo.GetByName supportedHookRepo (Name a) with
  | (_, Some err) =>
      Returns (Models.JobSpecHook.zero, Some (ErrWrap err "spec reading error"))
  | (hookUnit, None) =>
      config ← JobSpecConfigFromYamlSlice (Config a);
      Returns ({| Models.JobSpecHook.Config := config;
                  Models.JobSpecHook.Unit := hookUnit |}, None)
  end.

(** [JobHook.FromSpec]; calling [Name()] on a [nil] handle panics. *)
Definition FromSpec (spec : Models.JobSpecHook.t) : outcome t :=
  match Models.JobSpecHook.Unit spec with
  | None => Panics "invalid memory address or nil pointer dereference"
  | Some unit =>
      Returns {| Name := Models.HookUnit.Name unit;
                 Config := JobSpecConfigToYamlSlice
                             (Models.JobSpecHook.Config spec) |}
  end.
End JobHook.

Module Job.
(** [Job]: the inputs from the user to create a job, as the YAML file
    holds them. *)
Record t : Type :=
  { Version : Z;
    Name : string;
    Owner : string;
    Description : string;
    Schedule : JobSchedule.t;
    Behavior : JobBehavior.t;
    Task : JobTask.t;
    Asset : gmap string string;
    Labels : gmap string string;
    Dependencies : list JobDependency.t;
    Hooks : list JobHook.t }.

(** [Job{}] *)
Definition zero : t :=
  {| Version := 0; Name := ""; Owner := ""; Description := "";
     Schedule := {| JobSchedule.StartDate := ""; JobSchedule.EndDate := "";
                    JobSchedule.Interval := "" |};
     Behavior := {| JobBehavior.DependsOnPast := false;
                    JobBehavior.Catchup := false |};
     Task := {| JobTask.Name := ""; JobTask.Config := [];
                JobTask.Window := {| JobTaskWindow.Size := "";
                                     JobTaskWindow.Offset := "";
                                     JobTaskWindow.TruncateTo := "" |} |};
     Asset := ∅; Labels := ∅; Dependencies := []; Hooks := [] |}.

(** The constraints of the [validate] tags: [min=1,max=100] on the
    version, [min=3,max=1024] on the lengths of name and owner, the
    regular expression [^\d{4}-\d{2}-\d{2}$] on the start date, [isCron]
    on the interval (the validator registered under that name, from
    package [utils]) and [^(h|d|w|M)$] on the truncation unit. *)
Definition dateShaped (s : string) : bool :=
  match s with
  | String y0 (String y1 (String y2 (String y3 (String d0
      (String m0 (String m1 (String d1 (String a0 (String a1 "")))))))))
    => isDigit y0 && isDigit y1 && isDigit y2 && isDigit y3
       && (code d0 =? 45) && isDigit m0 && isDigit m1
       && (code d1 =? 45) && isDigit a0 && isDigit a1
  | _ => false
  end.

Definition truncationUnit (s : string) : bool :=
  String.eqb s "h" || String.eqb s "d" || String.eqb s "w" || String.eqb s "M".

Definition lengthWithin (lo hi : nat) (s : string) : bool :=
  (lo <=? String.length s)%nat && (String.length s <=? hi)%nat.

Definition validate (isCron : string -> bool) (j : t) : bool :=
  (1 <=? Version j) && (Version j <=? 100)
  && lengthWithin 3 1024 (Name j)
  && lengthWithin 3 1024 (Owner j)
  && dateShaped (JobSchedule.StartDate (Schedule j))
  && isCron (JobSchedule.Interval (Schedule j))
  && truncationUnit (JobTaskWindow.TruncateTo (JobTask.Window (Task j))).

(** [Job.prepareWindow] *)
Definition prepareWindow (conf : t) : Models.JobSpecTaskWindow.t * option error :=
  let w := JobTask.Window (Task conf) in
  let window (size offset : Z) (truncateTo : string) :=
    {| Models.JobSpecTaskWindow.Size := size;
       Models.JobSpecTaskWindow.Offset := offset;
       Models.JobSpecTaskWindow.TruncateTo := truncateTo |} in
  let size := Time.Hour * 24 in
  let offset := 0 in
  let truncateTo := "d" in
  let truncateTo :=
    if negb (String.eqb (JobTaskWindow.TruncateTo w) "")
    then JobTaskWindow.TruncateTo w else truncateTo in
  (* the string may hold the monthly notation *)
  let '(size, err) :=
    if negb (String.eqb (JobTaskWindow.Size w) "") then
      match tryParsingInMonths (JobTaskWindow.Size w) with
      | (size, None) => (size, None)
      | (_, Some _) =>
          (* treat as normal duration *)
          match Time.ParseDuration (JobTaskWindow.Size w) with
          | (size, None) => (size, None)
          | (size, Some err) =>
              (size,
               Some (ErrWrap err
                       ("failed to parse task window " +:+ Name conf
                        +:+ " with size " +:+ JobTaskWindow.Size w)))
          end
      end
    else (size, None) in
  match err with
  | Some err => (window size offset truncateTo, Some err)
  | None =>
      let '(offset, err) :=
        if negb (String.eqb (JobTaskWindow.Offset w) "") then
          match tryParsingInMonths (JobTaskWindow.Offset w) with
          | (offset, None) => (offset, None)
          | (_, Some _) =>
              (* treat as normal duration *)
              match Time.ParseDuration (JobTaskWindow.Offset w) with
              | (offset, None) => (offset, None)
              | (offset, Some err) =>
                  (offset,
                   Some (ErrWrap err
                           ("failed to parse task window " +:+ Name conf
                            +:+ " with offset " +:+ JobTaskWindow.Offset w)))
              end
          end
        else (offset, None) in
      (window size offset truncateTo, err)
  end.
End Job.

Module JobSpecAdapter.
Import Models.

Record t : Type :=
  { supportedTaskRepo : TransformationRepo.t;
    supportedHookRepo : HookRepo.t }.

Section WithPackage.
Context `{Package} `{MapRange}.

(** The [switch] on the type of a dependency; what it does not list
    keeps the initial [JobSpecDependencyTypeIntra]. *)
Definition dependencyType (ty : string) : JobSpecDependencyType :=
  if String.eqb ty JobSpecDependencyTypeIntra then JobSpecDependencyTypeIntra
  else if String.eqb ty JobSpecDependencyTypeInter then JobSpecDependencyTypeInter
  else if String.eqb ty JobSpecDependencyTypeExtra then JobSpecDependencyTypeExtra
  else JobSpecDependencyTypeIntra.

(** The loop over [conf.Dependencies]: [dependencies[dep.JobName] = ...] *)
Definition prepDependencies (deps : list JobDependency.t)
  : gmap string JobSpecDependency.t :=
  fold_left
    (fun dependencies dep =>
       <[JobDependency.JobName dep :=
           {| JobSpecDependency.Type_ :=
                dependencyType (JobDependency.Type_ dep) |}]> dependencies)
    deps ∅.

(** The loop over [conf.Hooks], which returns at the first error. *)
Fixpoint prepHooks (repo : HookRepo.t) (rest : list JobHook.t)
    (hooks : list JobSpecHook.t)
  : outcome (list JobSpecHook.t * option error) :=
  match rest with
  | [] => Returns (hooks, None)
  | hook :: rest =>
      r ← JobHook.ToSpec hook repo;
      match r with
      | (_, Some err) => Returns (hooks, Some err)
      | (adaptHook, None) => prepHooks repo rest (hooks ++ [adaptHook])%list
      end
  end.

(** [for k, v := range m { labels[k] = v }] *)
Definition copyLabels (m : gmap string string) : gmap string string :=
  fold_left (fun labels kv => <[kv.1 := kv.2]> labels) (mapRange m) ∅.

(** [JobSpecAdapter.ToSpec] *)
Definition ToSpec (adapt : t) (conf : Job.t)
  : outcome (JobSpec.t * option error) :=
  (* parse dates *)
  match Time.Parse (JobSchedule.StartDate (Job.Schedule conf)) with
  | (_, Some err) => Returns (JobSpec.zero, Some err)
  | (startDate, None) =>
      let endParse :=
        if negb (String.eqb (JobSchedule.EndDate (Job.Schedule conf)) "")
        then match Time.Parse (JobSchedule.EndDate (Job.Schedule conf)) with
             | (_, Some err) => (None, Some err)
             | (end_, None) => (Some end_, None)
             end
        else (None, None) in
      match endParse with
      | (_, Some err) => Returns (JobSpec.zero, Some err)
      | (endDate, None) =>
          (* prep dirty dependencies *)
          let dependencies := prepDependencies (Job.Dependencies conf) in
          (* prep hooks *)
          r ← prepHooks (supportedHookRepo adapt) (Job.Hooks conf) [];
          match r with
          | (_, Some err) => Returns (JobSpec.zero, Some err)
          | (hooks, None) =>
              (* prep window *)
              match Job.prepareWindow conf with
              | (_, Some err) => Returns (JobSpec.zero, Some err)
              | (window, None) =>
                  match TransformationRepo.GetByName (supportedTaskRepo adapt)
                          (JobTask.Name (Job.Task conf)) with
                  | (_, Some err) =>
                      Returns (JobSpec.zero,
                               Some (ErrWrap err
                                 ("spec reading error, failed to find exec unit "
                                  +:+ JobTask.Name (Job.Task conf))))
                  | (execUnit, None) =>
                      let labels := copyLabels (Job.Labels conf) in
                      taskConf ← JobSpecConfigFromYamlSlice
                                   (JobTask.Config (Job.Task conf));
                      Returns
                        ({| JobSpec.Version := Job.Version conf;
                            JobSpec.Name := Strings.TrimSpace (Job.Name conf);
                            JobSpec.Owner := Job.Owner conf;
                            JobSpec.Description := Job.Description conf;
                            JobSpec.Labels := labels;
                            JobSpec.Schedule :=
                              {| JobSpecSchedule.StartDate := startDate;
                                 JobSpecSchedule.EndDate := endDate;
                                 JobSpecSchedule.Interval :=
                                   JobSchedule.Interval (Job.Schedule conf) |};
                            JobSpec.Behavior :=
                              {| JobSpecBehavior.CatchUp :=
                                   JobBehavior.Catchup (Job.Behavior conf);
                                 JobSpecBehavior.DependsOnPast :=
                                   JobBehavior.DependsOnPast (Job.Behavior conf) |};
                            JobSpec.Task :=
                              {| JobSpecTask.Unit := execUnit;
                                 JobSpecTask.Config := taskConf;
                                 JobSpecTask.Window := window |};
                            JobSpec.Assets := JobAssets.FromMap (Job.Asset conf);
                            JobSpec.Dependencies := dependencies;
                            JobSpec.Hooks := hooks |}, None)
                  end
              end
          end
      end
  end.

(** The loop over [spec.Hooks] of [FromSpec]. *)
Fixpoint hooksFromSpec (rest : list JobSpecHook.t) (hooks : list JobHook.t)
  : outcome (list JobHook.t) :=
  match rest with
  | [] => Returns hooks
  | hook :: rest =>
      h ← JobHook.FromSpec hook;
      hooksFromSpec rest (hooks ++ [h])%list
  end.

(** [JobSpecAdapter.FromSpec] *)
Definition FromSpec (adapt : t) (spec : JobSpec.t)
  : outcome (Job.t * option error) :=
  match JobSpecTask.Unit (JobSpec.Task spec) with
  | None => Returns (Job.zero, Some (ErrNew "exec unit is nil"))
  | Some unit =>
      let labels := copyLabels (JobSpec.Labels spec) in
      let taskConf := JobSpecConfigToYamlSlice
                        (JobSpecTask.Config (JobSpec.Task spec)) in
      let window := JobSpecTask.Window (JobSpec.Task spec) in
      let endDate :=
        match JobSpecSchedule.EndDate (JobSpec.Schedule spec) with
        | Some e => Time.Format e
        | None => ""
        end in
      let dependencies :=
        fold_left
          (fun (deps : list JobDependency.t) kv =>
             (deps ++ [{| JobDependency.JobName := kv.1;
                          JobDependency.Type_ :=
                            JobSpecDependencyType_String
                              (JobSpecDependency.Type_ kv.2) |}])%list)
          (mapRange (JobSpec.Dependencies spec)) [] in
      (* prep hooks *)
      hooks ← hooksFromSpec (JobSpec.Hooks spec) [];
      Returns
        ({| Job.Version := JobSpec.Version spec;
            Job.Name := JobSpec.Name spec;
            Job.Owner := JobSpec.Owner spec;
            Job.Description := JobSpec.Description spec;
            Job.Schedule :=
              {| JobSchedule.StartDate :=
                   Time.Format (JobSpecSchedule.StartDate (JobSpec.Schedule spec));
                 JobSchedule.EndDate := endDate;
                 JobSchedule.Interval :=
                   JobSpecSchedule.Interval (JobSpec.Schedule spec) |};
            Job.Behavior :=
              {| JobBehavior.DependsOnPast :=
                   JobSpecBehavior.DependsOnPast (JobSpec.Behavior spec);
                 JobBehavior.Catchup :=
                   JobSpecBehavior.CatchUp (JobSpec.Behavior spec) |};
            Job.Task :=
              {| JobTask.Name := Transformation.Name unit;
                 JobTask.Config := taskConf;
                 JobTask.Window :=
                   {| JobTaskWindow.Size := SizeString window;
                      JobTaskWindow.Offset := OffsetString window;
                      JobTaskWindow.TruncateTo :=
                        JobSpecTaskWindow.TruncateTo window |} |};
            Job.Asset := JobAssets.ToMap (JobSpec.Assets spec);
            Job.Labels := labels;
            Job.Dependencies := dependencies;
            Job.Hooks := hooks |}, None)
  end.

End WithPackage.
End JobSpecAdapter.

(** ** Notions used by the statements *)

(** The grammar that [prepareWindow] applies to a span that is not empty:
    the month notation, and [time.ParseDuration] when that is rejected. *)
Definition parseWindowSpan (s : string) : Z * option error :=
  match tryParsingInMonths s with
  | (d, None) => (d, None)
  | (_, Some _) => Time.ParseDuration s
  end.

Definition sizeOf (conf : Job.t) : string :=
  JobTaskWindow.Size (JobTask.Window (Job.Task conf)).
Definition offsetOf (conf : Job.t) : string :=
  JobTaskWindow.Offset (JobTask.Window (Job.Task conf)).
Definition truncateToOf (conf : Job.t) : string :=
  JobTaskWindow.TruncateTo (JobTask.Window (Job.Task conf)).

(** A span of the window: its default where the string is empty, the
    grammar on the string otherwise. *)
Definition spanOr (default : Z) (s : string) : Z * option error :=
  if String.eqb s "" then (default, None) else parseWindowSpan s.

Definition sizeError (conf : Job.t) (err : error) : error :=
  ErrWrap err ("failed to parse task window " +:+ Job.Name conf
               +:+ " with size " +:+ sizeOf conf).
Definition offsetError (conf : Job.t) (err : error) : error :=
  ErrWrap err ("failed to parse task window " +:+ Job.Name conf
               +:+ " with offset " +:+ offsetOf conf).

(** Both parsers reject the string. *)
Definition bothReject (s : string) : Prop :=
  snd (tryParsingInMonths s) <> None /\ snd (Time.ParseDuration s) <> None.

(** A job with the given window and nothing else. *)
Definition jobWithWindow (size offset truncateTo : string) : Job.t :=
  {| Job.Version := 1; Job.Name := "job"; Job.Owner := "owner";
     Job.Description := "";
     Job.Schedule := {| JobSchedule.StartDate := "2021-01-01";
                        JobSchedule.EndDate := "";
                        JobSchedule.Interval := "@daily" |};
     Job.Behavior := {| JobBehavior.DependsOnPast := false;
                        JobBehavior.Catchup := false |};
     Job.Task := {| JobTask.Name := "task"; JobTask.Config := [];
                    JobTask.Window := {| JobTaskWindow.Size := size;
                                         JobTaskWindow.Offset := offset;
                                         JobTaskWindow.TruncateTo := truncateTo |} |};
     Job.Asset := ∅; Job.Labels := ∅; Job.Dependencies := []; Job.Hooks := [] |}.

(** ** Instances for the examples *)

(** [Duration.String]: the rendering such as ["720h0m0s"]. *)
Module DurationString.

(** [fmtFrac]: the last [prec] digits of [v] as a decimal fraction without
    its trailing zeros, in front of [acc], and [v] without them. *)
Fixpoint fmtFrac (prec : nat) (v : Z) (print : bool) (acc : string)
  : string * Z * bool :=
  match prec with
  | O => (acc, v, print)
  | S k =>
      let digit := v mod 10 in
      let print := print || negb (digit =? 0) in
      fmtFrac k (v / 10) print
        (if print then String (digitChar digit) acc else acc)
  end.

Definition withFrac (prec : nat) (v : Z) (acc : string) : string * Z :=
  let '(acc, v, print) := fmtFrac prec v false acc in
  (if print then String "." acc else acc, v).

(** [fmtInt]: the decimal digits of [v] in front of [acc]. *)
Definition fmtInt (v : Z) (acc : string) : string := Time.utoa 20 v acc.

Definition String_ (d : Z) : string :=
  let u := Z.abs d in
  let body :=
    if u <? Time.Second then
      if u =? 0 then "0s"
      else if u <? Time.Microsecond then
        let (acc, v) := withFrac 0 u "ns" in fmtInt v acc
      else if u <? Time.Millisecond then
        let (acc, v) :=
          withFrac 3 u (String (ascii_of_N 194) (String (ascii_of_N 181) "s")) in
        fmtInt v acc
      else
        let (acc, v) := withFrac 6 u "ms" in fmtInt v acc
    else
      let (acc, v) := withFrac 9 u "s" in
      let acc := fmtInt (v mod 60) acc in
      let v := v / 60 in
      if 0 <? v then
        let acc := fmtInt (v mod 60) (String "m" acc) in
        let v := v / 60 in
        if 0 <? v then fmtInt v (String "h" acc) else acc
      else acc in
  if d <? 0 then String "-" body else body.

End DurationString.

(** Modelled from the spec: the constants of [JobSpecDependencyType] and
    the methods [String], [SizeString] and [OffsetString] are declared in
    package [models], which is not among the sources.  The specification
    names the three types intra-project, inter-project and extra-project
    and has a span of one month come back as ["720h0m0s"], which is how
    [Duration.String] renders it. *)
#[local] Program Instance examplePackage : Models.Package :=
  {| Models.JobSpecDependencyTypeIntra := "intra";
     Models.JobSpecDependencyTypeInter := "inter";
     Models.JobSpecDependencyTypeExtra := "extra";
     Models.JobSpecDependencyType_String := fun ty => ty;
     Models.SizeString :=
       fun w => DurationString.String_ (Models.JobSpecTaskWindow.Size w);
     Models.OffsetString :=
       fun w => DurationString.String_ (Models.JobSpecTaskWindow.Offset w) |}.
Next Obligation.
  repeat constructor; rewrite ?list_elem_of_In; cbn; intuition discriminate.
Qed.

(** An order of iteration: the one of [map_to_list]. *)
#[local] Instance exampleRange : MapRange :=
  {| mapRange := fun V m => map_to_list m;
     mapRange_perm := fun V m => reflexivity _ |}.

(** The job [conf] with other dependencies, and the domain object [spec]
    with another dependency map. *)
Definition withDependencies (conf : Job.t) (deps : list JobDependency.t) : Job.t :=
  {| Job.Version := Job.Version conf; Job.Name := Job.Name conf;
     Job.Owner := Job.Owner conf; Job.Description := Job.Description conf;
     Job.Schedule := Job.Schedule conf; Job.Behavior := Job.Behavior conf;
     Job.Task := Job.Task conf; Job.Asset := Job.Asset conf;
     Job.Labels := Job.Labels conf; Job.Dependencies := deps;
     Job.Hooks := Job.Hooks conf |}.

Definition specWithDependencies (spec : Models.JobSpec.t)
    (deps : gmap string Models.JobSpecDependency.t) : Models.JobSpec.t :=
  {| Models.JobSpec.Version := Models.JobSpec.Version spec;
     Models.JobSpec.Name := Models.JobSpec.Name spec;
     Models.JobSpec.Owner := Models.JobSpec.Owner spec;
     Models.JobSpec.Description := Models.JobSpec.Description spec;
     Models.JobSpec.Labels := Models.JobSpec.Labels spec;
     Models.JobSpec.Schedule := Models.JobSpec.Schedule spec;
     Models.JobSpec.Behavior := Models.JobSpec.Behavior spec;
     Models.JobSpec.Task := Models.JobSpec.Task spec;
     Models.JobSpec.Assets := Models.JobSpec.Assets spec;
     Models.JobSpec.Dependencies := deps;
     Models.JobSpec.Hooks := Models.JobSpec.Hooks spec |}.

(** The entry of [deps] that decides the dependency on job [j]: the last
    one that names it. *)
Definition entryFor (j : string) (deps : list JobDependency.t)
  : option JobDependency.t :=
  last (filter (fun d => JobDependency.JobName d = j) deps).

(** The end date of a schedule: absent where the string is empty. *)
Definition parseEndDate (s : string) : option Time.t * option error :=
  if String.eqb s "" then (None, None)
  else match Time.Parse s with
       | (_, Some err) => (None, Some err)
       | (e, None) => (Some e, None)
       end.

(** What the adapter expects of a registry: when [GetByName] gives no
    error, it gives a handle, and the handle bears the name asked for. *)
Definition hookRepoFaithful (repo : Models.HookRepo.t) : Prop :=
  forall (n : string) (u : option Models.HookUnit.t),
    Models.HookRepo.GetByName repo n = (u, None) ->
    exists unit, u = Some unit /\ Models.HookUnit.Name unit = n.

Definition taskRepoFaithful (repo : Models.TransformationRepo.t) : Prop :=
  forall (n : string) (u : option Models.Transformation.t),
    Models.TransformationRepo.GetByName repo n = (u, None) ->
    exists unit, u = Some unit /\ Models.Transformation.Name unit = n.

(** A plugin name is unregistered when the registry answers with an
    error. *)
Definition hookUnregistered (repo : Models.HookRepo.t) (n : string) : Prop :=
  snd (Models.HookRepo.GetByName repo n) <> None.
Definition taskUnregistered (repo : Models.TransformationRepo.t) (n : string) : Prop :=
  snd (Models.TransformationRepo.GetByName repo n) <> None.

(** The keys and values of a configuration are all strings. *)
Definition stringItem (c : Yaml.MapItem) : Prop :=
  exists k v, c = {| Yaml.Key := Yaml.VString k; Yaml.Value := Yaml.VString v |}.
Definition stringConfig (conf : Yaml.MapSlice) : Prop := Forall stringItem conf.

(** Registries for the examples: one task and one hook are registered. *)
Definition exampleAdapter : JobSpecAdapter.t :=
  {| JobSpecAdapter.supportedTaskRepo :=
       {| Models.TransformationRepo.GetByName := fun n =>
            if String.eqb n "bq2bq"
            then (Some {| Models.Transformation.Name := "bq2bq" |}, None)
            else (None, Some (ErrForeign "task not found" false)) |};
     JobSpecAdapter.supportedHookRepo :=
       {| Models.HookRepo.GetByName := fun n =>
            if String.eqb n "transporter"
            then (Some {| Models.HookUnit.Name := "transporter" |}, None)
            else (None, Some (ErrForeign "hook not found" false)) |} |}.

(** A validator of intervals for the examples; it accepts the descriptor
    ["@daily"], which every job of the examples has. *)
Definition exampleIsCron (s : string) : bool := String.eqb s "@daily".

(** An example job: its name begins with a space, and its one dependency
    leaves the type out. *)
Definition examplePaddedJob : Job.t :=
  {| Job.Version := 1; Job.Name := " etl"; Job.Owner := "data";
     Job.Description := "";
     Job.Schedule := {| JobSchedule.StartDate := "2021-01-01";
                        JobSchedule.EndDate := "";
                        JobSchedule.Interval := "@daily" |};
     Job.Behavior := {| JobBehavior.DependsOnPast := false;
                        JobBehavior.Catchup := true |};
     Job.Task := {| JobTask.Name := "bq2bq"; JobTask.Config := [];
                    JobTask.Window := {| JobTaskWindow.Size := "24h";
                                         JobTaskWindow.Offset := "0";
                                         JobTaskWindow.TruncateTo := "d" |} |};
     Job.Asset := ∅; Job.Labels := ∅;
     Job.Dependencies := [{| JobDependency.JobName := "upstream";
                             JobDependency.Type_ := "" |}];
     Job.Hooks := [] |}.

(** An example job: its first hook is registered and carries a number in
    its configuration, its second hook is not registered. *)
Definition exampleNumberInHookConfig : Job.t :=
  {| Job.Version := 1; Job.Name := "etl"; Job.Owner := "data";
     Job.Description := "";
     Job.Schedule := {| JobSchedule.StartDate := "2021-01-01";
                        JobSchedule.EndDate := "";
                        JobSchedule.Interval := "@daily" |};
     Job.Behavior := {| JobBehavior.DependsOnPast := false;
                        JobBehavior.Catchup := true |};
     Job.Task := {| JobTask.Name := "bq2bq"; JobTask.Config := [];
                    JobTask.Window := {| JobTaskWindow.Size := "24h";
                                         JobTaskWindow.Offset := "0";
                                         JobTaskWindow.TruncateTo := "d" |} |};
     Job.Asset := ∅; Job.Labels := ∅; Job.Dependencies := [];
     Job.Hooks :=
       [{| JobHook.Name := "transporter";
           JobHook.Config := [{| Yaml.Key := Yaml.VString "BATCH_SIZE";
                                 Yaml.Value := Yaml.VOther "100" |}] |};
        {| JobHook.Name := "missing"; JobHook.Config := [] |}] |}.

(** The same job with a task that is not registered and the one hook that
    is. *)
Definition exampleNumberInHookConfigNoTask : Job.t :=
  {| Job.Version := 1; Job.Name := "etl"; Job.Owner := "data";
     Job.Description := "";
     Job.Schedule := {| JobSchedule.StartDate := "2021-01-01";
                        JobSchedule.EndDate := "";
                        JobSchedule.Interval := "@daily" |};
     Job.Behavior := {| JobBehavior.DependsOnPast := false;
                        JobBehavior.Catchup := true |};
     Job.Task := {| JobTask.Name := "unknown"; JobTask.Config := [];
                    JobTask.Window := {| JobTaskWindow.Size := "24h";
                                         JobTaskWindow.Offset := "0";
                                         JobTaskWindow.TruncateTo := "d" |} |};
     Job.Asset := ∅; Job.Labels := ∅; Job.Dependencies := [];
     Job.Hooks :=
       [{| JobHook.Name := "transporter";
           JobHook.Config := [{| Yaml.Key := Yaml.VString "BATCH_SIZE";
                                 Yaml.Value := Yaml.VOther "100" |}] |}] |}.

(** An example job with an unregistered hook and nothing else amiss. *)
Definition exampleMissingHook : Job.t :=
  {| Job.Version := 1; Job.Name := "etl"; Job.Owner := "data";
     Job.Description := "";
     Job.Schedule := {| JobSchedule.StartDate := "2021-01-01";
                        JobSchedule.EndDate := "";
                        JobSchedule.Interval := "@daily" |};
     Job.Behavior := {| JobBehavior.DependsOnPast := false;
                        JobBehavior.Catchup := true |};
     Job.Task := {| JobTask.Name := "bq2bq"; JobTask.Config := [];
                    JobTask.Window := {| JobTaskWindow.Size := "24h";
                                         JobTaskWindow.Offset := "0";
                                         JobTaskWindow.TruncateTo := "d" |} |};
     Job.Asset := ∅; Job.Labels := ∅; Job.Dependencies := [];
     Job.Hooks :=
       [{| JobHook.Name := "transporter";
           JobHook.Config := [{| Yaml.Key := Yaml.VString "TOPIC";
                                 Yaml.Value := Yaml.VString "events" |}] |};
        {| JobHook.Name := "missing"; JobHook.Config := [] |}] |}.

(** ** Package [cmd/opctl/commands]: the deployment session *)

(** The messages of the service (package [pb]), with the fields the
    command reads. *)
Module Pb.

Module RegisterProjectResponse.
Record t : Type := { Success : bool; Message : string }.
End RegisterProjectResponse.

Module DeployResourceSpecificationResponse.
Record t : Type :=
  { Success : bool; Ack : bool; Message : string; ResourceName : string }.
End DeployResourceSpecificationResponse.

Module DeployJobSpecificationResponse.
Record t : Type :=
  { Success : bool; Ack : bool; Message : string; JobName : string }.
End DeployJobSpecificationResponse.

End Pb.

(** [models.ResourceSpec], of which the command reads the name. *)
Module ResourceSpec.
Record t : Type := { Name : string }.
End ResourceSpec.

(** [config.Opctl] *)
Module Opctl.
Record t : Type := { Host : string; Global : gmap string string }.
End Opctl.

(** What the command prints through its logger. *)
Inductive logLine : Type :=
| LogCantReach                  (* can't reach optimus service *)
| LogUpdatedProject             (* updated project configuration *)
| LogTimeout                    (* deployment process took too long, timing out *)
| LogDeployed (counter total : Z) (name : string)
                                (* %d/%d. %s successfully deployed *)
| LogInfo (name message : string)
                                (* info '%s': %s *)
| LogDeployedResources          (* deployed resources *)
| LogSkippingResources          (* skipping resource deployment *)
| LogDeployingJobs              (* deploying jobs *)
| LogDeployedJobs               (* deployed jobs *)
| LogSkippingJobs               (* skipping job deployment *)
| LogCompleted.                 (* deployment completed successfully *)

(** [errors.Is(err, context.DeadlineExceeded)] *)
Fixpoint isDeadlineExceeded (err : error) : bool :=
  match err with
  | ErrForeign _ deadline => deadline
  | ErrWrap cause _ => isDeadlineExceeded cause
  | _ => false
  end.

(** [err == io.EOF] *)
Definition isEOF (err : error) : bool :=
  match err with ErrEOF => true | _ => false end.

Module Deploy.
Import ITree.Core.ITreeDefinition.
Import ITree.Eq.Eqit ITree.Eq.UpToTaus.

Notation "'let*' x ':=' t 'in' k" := (ITree.bind t (fun x => k))
  (at level 10, x name, t at level 100, k at level 200).
Notation "'run' t 'then' k" := (ITree.bind t (fun _ => k))
  (at level 10, t at level 100, k at level 200).

Section Session.

(** The file systems of the specifications, the datastores, the wire
    forms of the specifications and the response streams are values of
    other packages. *)
Context {FS Datastore ResourceProto JobProto Stream : Type}.
Context `{MapRange}.

(** [adapt.ToResourceProto] and [adapt.ToJobProto], of package
    [v1handler]: the wire form of a specification, or an error. *)
Variable ToResourceProto : ResourceSpec.t -> ResourceProto + error.
Variable ToJobProto : Models.JobSpec.t -> JobProto + error.

(** What [postDeploymentRequest] asks of the world around it, with the
    type of the answer.  A call that returns [(value, error)] is answered
    by the value or by the error, as the generated client and the
    repositories return them; [createConnection] is answered by the error
    alone, [None] when the connection stands.  [ErrExit] is [errExit],
    which prints the error and ends the process: it is never answered.
    [DialCancel], [DeployCancel] and [ConnClose] are the three deferred
    calls. *)
Variant deployE : Type -> Type :=
| CreateConnection (host : string) : deployE (option error)
| DialCancel : deployE unit
| DeployCancel : deployE unit
| ConnClose : deployE unit
| Println (line : logLine) : deployE unit
| RegisterProject (projectName : string) (config : gmap string string)
  : deployE (Pb.RegisterProjectResponse.t + error)
| DatastoreGetByName (storeName : string) : deployE (Datastore + error)
| ErrExit (err : error) : deployE Empty_set
| ResourceGetAll (repoFS : FS) (ds : Datastore)
  : deployE (list ResourceSpec.t + error)
| DeployResourceSpecification (resources : list ResourceProto)
    (projectName datastoreName : string) : deployE (Stream + error)
| ResourceRecv (respStream : Stream)
  : deployE (Pb.DeployResourceSpecificationResponse.t + error)
| JobGetAll : deployE (list Models.JobSpec.t + error)
| DeployJobSpecification (jobs : list JobProto) (projectName : string)
  : deployE (Stream + error)
| JobRecv (respStream : Stream)
  : deployE (Pb.DeployJobSpecificationResponse.t + error).

Definition call {X : Type} (e : deployE X) : itree deployE X := ITree.trigger e.

(** [if errors.Is(err, context.DeadlineExceeded) { l.Println(...) }] *)
Definition printIfDeadline (err : error) (line : logLine) : itree deployE unit :=
  if isDeadlineExceeded err then call (Println line) else Ret tt.

(** The loop that prepares the resource specifications. *)
Fixpoint adaptResources (resourceSpecs : list ResourceSpec.t)
    (adaptedSpecs : list ResourceProto) : list ResourceProto + error :=
  match resourceSpecs with
  | [] => inl adaptedSpecs
  | spec :: rest =>
      match ToResourceProto spec with
      | inr err =>
          inr (ErrWrap err ("failed to serialize: " +:+ ResourceSpec.Name spec))
      | inl adapted => adaptResources rest (adaptedSpecs ++ [adapted])%list
      end
  end.

(** The loop that prepares the job specifications. *)
Fixpoint adaptJobs (jobSpecs : list Models.JobSpec.t)
    (adaptedJobSpecs : list JobProto) : list JobProto + error :=
  match jobSpecs with
  | [] => inl adaptedJobSpecs
  | spec :: rest =>
      match ToJobProto spec with
      | inr err =>
          inr (ErrWrap err ("failed to serialize: " +:+ Models.JobSpec.Name spec))
      | inl adaptJob => adaptJobs rest (adaptedJobSpecs ++ [adaptJob])%list
      end
  end.

Definition unableToDeploy (name message : string) : error :=
  ErrNew ("unable to deploy: " +:+ name +:+ " " +:+ message).

Definition receiveFailed (err : error) : error :=
  ErrWrap err "failed to receive deployment ack".

(** One turn of the loop that tracks the progress of the resources: the
    counter to go on with, or the result the loop ends with ([None]: the
    stream has ended). *)
Definition resourceAck (respStream : Stream) (totalSpecs deployCounter : Z)
  : itree deployE (Z + option error) :=
  let* r := call (ResourceRecv respStream) in
  match r with
  | inr err =>
      if isEOF err then Ret (inr None) else Ret (inr (Some (receiveFailed err)))
  | inl resp =>
      if Pb.DeployResourceSpecificationResponse.Ack resp then
        (* ack for the resource spec *)
        if negb (Pb.DeployResourceSpecificationResponse.Success resp) then
          Ret (inr (Some (unableToDeploy
                            (Pb.DeployResourceSpecificationResponse.ResourceName resp)
                            (Pb.DeployResourceSpecificationResponse.Message resp))))
        else
          let deployCounter := Int64.add deployCounter 1 in
          run call (Println (LogDeployed deployCounter totalSpecs
                               (Pb.DeployResourceSpecificationResponse.ResourceName resp)))
          then Ret (inl deployCounter)
      else
        (* ordinary progress event *)
        run call (Println (LogInfo
                             (Pb.DeployResourceSpecificationResponse.ResourceName resp)
                             (Pb.DeployResourceSpecificationResponse.Message resp)))
        then Ret (inl deployCounter)
  end.

(** [for { resp, err := respStream.Recv() ... }], from a given count. *)
Definition trackResources (respStream : Stream) (totalSpecs deployCounter : Z)
  : itree deployE (option error) :=
  ITree.iter (resourceAck respStream totalSpecs) deployCounter.

(** The same for the jobs. *)
Definition jobAck (respStream : Stream) (totalJobs jobCounter : Z)
  : itree deployE (Z + option error) :=
  let* r := call (JobRecv respStream) in
  match r with
  | inr err =>
      if isEOF err then Ret (inr None) else Ret (inr (Some (receiveFailed err)))
  | inl resp =>
      if Pb.DeployJobSpecificationResponse.Ack resp then
        (* ack for the job spec *)
        if negb (Pb.DeployJobSpecificationResponse.Success resp) then
          Ret (inr (Some (unableToDeploy
                            (Pb.DeployJobSpecificationResponse.JobName resp)
                            (Pb.DeployJobSpecificationResponse.Message resp))))
        else
          let jobCounter := Int64.add jobCounter 1 in
          run call (Println (LogDeployed jobCounter totalJobs
                               (Pb.DeployJobSpecificationResponse.JobName resp)))
          then Ret (inl jobCounter)
      else
        (* ordinary progress event *)
        run call (Println (LogInfo
                             (Pb.DeployJobSpecificationResponse.JobName resp)
                             (Pb.DeployJobSpecificationResponse.Message resp)))
        then Ret (inl jobCounter)
  end.

Definition trackJobs (respStream : Stream) (totalJobs jobCounter : Z)
  : itree deployE (option error) :=
  ITree.iter (jobAck respStream totalJobs) jobCounter.

(** [errExit(l, err)] *)
Definition errExit {R : Type} (err : error) : itree deployE R :=
  let* never := call (ErrExit err) in
  match never : Empty_set with end.

Definition deploymentFailed (err : error) : error := ErrWrap err "deployement failed".

(** The loop over the datastores, in the order in which the map is
    visited; the error with which it returns, if any. *)
Fixpoint deployStores (projectName : string) (stores : list (string * FS))
  : itree deployE (option error) :=
  match stores with
  | [] => Ret None
  | (storeName, repoFS) :: rest =>
      let* ds := call (DatastoreGetByName storeName) in
      match ds with
      | inr _ =>
          errExit (ErrNew ("unsupported datastore: " +:+ storeName
                           +:+ String (ascii_of_N 10) ""))
      | inl ds =>
          let* resourceSpecs := call (ResourceGetAll repoFS ds) in
          match resourceSpecs with
          | inr err => errExit err
          | inl resourceSpecs =>
              (* prepare specs *)
              match adaptResources resourceSpecs [] with
              | inr err => Ret (Some err)
              | inl adaptedSpecs =>
                  (* send call *)
                  let* respStream :=
                    call (DeployResourceSpecification adaptedSpecs projectName
                            storeName) in
                  match respStream with
                  | inr err =>
                      run printIfDeadline err LogTimeout
                      then Ret (Some (deploymentFailed err))
                  | inl respStream =>
                      (* track progress *)
                      let* failed :=
                        trackResources respStream
                          (Z.of_nat (length adaptedSpecs)) 0 in
                      match failed with
                      | Some err => Ret (Some err)
                      | None => deployStores projectName rest
                      end
                  end
              end
          end
      end
  end.

(** [if !ignoreResources { ... } else { ... }] *)
Definition deployResources (projectName : string)
    (datastoreSpecFs : gmap string FS) (ignoreResources : bool)
  : itree deployE (option error) :=
  if negb ignoreResources then
    (* deploy datastore resources *)
    let* failed := deployStores projectName (mapRange datastoreSpecFs) in
    match failed with
    | Some err => Ret (Some err)
    | None => run call (Println LogDeployedResources) then Ret None
    end
  else run call (Println LogSkippingResources) then Ret None.

(** [if !ignoreJobDeployment { ... } else { ... }] *)
Definition deployJobs (projectName : string) (ignoreJobDeployment : bool)
  : itree deployE (option error) :=
  if negb ignoreJobDeployment then
    (* deploy job specifications *)
    run call (Println LogDeployingJobs) then
    let* jobSpecs := call JobGetAll in
    match jobSpecs with
    | inr err => Ret (Some err)
    | inl jobSpecs =>
        match adaptJobs jobSpecs [] with
        | inr err => Ret (Some err)
        | inl adaptedJobSpecs =>
            let* respStream :=
              call (DeployJobSpecification adaptedJobSpecs projectName) in
            match respStream with
            | inr err =>
                run printIfDeadline err LogTimeout
                then Ret (Some (deploymentFailed err))
            | inl respStream =>
                let* failed :=
                  trackJobs respStream (Z.of_nat (length jobSpecs)) 0 in
                match failed with
                | Some err => Ret (Some err)
                | None => run call (Println LogDeployedJobs) then Ret None
                end
            end
        end
    end
  else run call (Println LogSkippingJobs) then Ret None.

(** What follows the registration of the project. *)
Definition deployAll (projectName : string) (datastoreSpecFs : gmap string FS)
    (ignoreJobDeployment ignoreResources : bool) : itree deployE (option error) :=
  let* failed := deployResources projectName datastoreSpecFs ignoreResources in
  match failed with
  | Some err => Ret (Some err)
  | None =>
      let* failed := deployJobs projectName ignoreJobDeployment in
      match failed with
      | Some err => Ret (Some err)
      | None => run call (Println LogCompleted) then Ret None
      end
  end.

(** The error for a registration that failed, [None] for one that went
    through. *)
Definition registrationError (answer : Pb.RegisterProjectResponse.t + error)
  : option error :=
  match answer with
  | inr err => Some (ErrWrap err "failed to update project configurations")
  | inl registerResponse =>
      if negb (Pb.RegisterProjectResponse.Success registerResponse)
      then Some (ErrNew ("failed to update project configurations, "
                         +:+ Pb.RegisterProjectResponse.Message registerResponse))
      else None
  end.

(** The body of [postDeploymentRequest] once the connection stands. *)
Definition session (projectName : string) (conf : Opctl.t)
    (datastoreSpecFs : gmap string FS)
    (ignoreJobDeployment ignoreResources : bool) : itree deployE (option error) :=
  (* update project config if needed *)
  let* registerResponse :=
    call (RegisterProject projectName (Opctl.Global conf)) in
  match registrationError registerResponse with
  | Some err => Ret (Some err)
  | None =>
      run call (Println LogUpdatedProject) then
      deployAll projectName datastoreSpecFs ignoreJobDeployment ignoreResources
  end.

(** The deferred calls, in the order in which they run, before the
    function returns [err]. *)
Definition deferred (err : option error) : itree deployE (option error) :=
  run call DeployCancel then
  run call ConnClose then
  run call DialCancel then
  Ret err.

(** [postDeploymentRequest]: sends a deployment request to the service. *)
Definition postDeploymentRequest (projectName : string) (conf : Opctl.t)
    (datastoreSpecFs : gmap string FS)
    (ignoreJobDeployment ignoreResources : bool) : itree deployE (option error) :=
  let* failed := call (CreateConnection (Opctl.Host conf)) in
  match failed with
  | Some err =>
      run printIfDeadline err LogCantReach then
      run call DialCancel then
      Ret (Some err)
  | None =>
      let* err := session projectName conf datastoreSpecFs
                    ignoreJobDeployment ignoreResources in
      deferred err
  end.

(** *** Runs *)

(** An event with its answer. *)
Inductive event : Type :=
| Ans : forall X : Type, deployE X -> X -> event.
Arguments Ans {X} e x.

(** [after t tr u]: the program [t] makes the calls of [tr], which get the
    answers of [tr], and [u] is what remains of it; silent steps do not
    count. *)
Fixpoint after {R : Type} (t : itree deployE R) (tr : list event)
    (u : itree deployE R) : Prop :=
  match tr with
  | [] => t ≈ u
  | @Ans X e x :: rest => exists k, t ≈ Vis e k /\ after (k x) rest u
  end.

(** The events of the two kinds of deployment. *)
Definition resourceEvent (ev : event) : Prop :=
  match ev with
  | Ans (DatastoreGetByName _) _ | Ans (ResourceGetAll _ _) _
  | Ans (DeployResourceSpecification _ _ _) _ | Ans (ResourceRecv _) _ => True
  | _ => False
  end.

Definition jobEvent (ev : event) : Prop :=
  match ev with
  | Ans JobGetAll _ | Ans (DeployJobSpecification _ _) _ | Ans (JobRecv _) _
  | Ans (Println LogDeployingJobs) _ => True
  | _ => False
  end.

(** The answers on which the deployment of the resources gives up, with
    the error it returns and whether it prints the line about the time
    it took: a specification that cannot be prepared, a request that
    cannot be sent, a stream that breaks, an acknowledgement of a
    failure. *)
Definition resourceFailure (ev : event) : option (bool * error) :=
  match ev with
  | Ans (ResourceGetAll _ _) (inl resourceSpecs) =>
      match adaptResources resourceSpecs [] with
      | inr err => Some (false, err)
      | inl _ => None
      end
  | Ans (DeployResourceSpecification _ _ _) (inr err) =>
      Some (isDeadlineExceeded err, deploymentFailed err)
  | Ans (ResourceRecv _) (inr err) =>
      if isEOF err then None else Some (false, receiveFailed err)
  | Ans (ResourceRecv _) (inl resp) =>
      if Pb.DeployResourceSpecificationResponse.Ack resp
         && negb (Pb.DeployResourceSpecificationResponse.Success resp)
      then Some (false,
                 unableToDeploy
                   (Pb.DeployResourceSpecificationResponse.ResourceName resp)
                   (Pb.DeployResourceSpecificationResponse.Message resp))
      else None
  | _ => None
  end.

(** The same for the jobs. *)
Definition jobFailure (ev : event) : option (bool * error) :=
  match ev with
  | Ans JobGetAll (inr err) => Some (false, err)
  | Ans JobGetAll (inl jobSpecs) =>
      match adaptJobs jobSpecs [] with
      | inr err => Some (false, err)
      | inl _ => None
      end
  | Ans (DeployJobSpecification _ _) (inr err) =>
      Some (isDeadlineExceeded err, deploymentFailed err)
  | Ans (JobRecv _) (inr err) =>
      if isEOF err then None else Some (false, receiveFailed err)
  | Ans (JobRecv _) (inl resp) =>
      if Pb.DeployJobSpecificationResponse.Ack resp
         && negb (Pb.DeployJobSpecificationResponse.Success resp)
      then Some (false,
                 unableToDeploy (Pb.DeployJobSpecificationResponse.JobName resp)
                   (Pb.DeployJobSpecificationResponse.Message resp))
      else None
  | _ => None
  end.

(** The registration that fails. *)
Definition registrationFailure (ev : event) : option (bool * error) :=
  match ev with
  | Ans (RegisterProject _ _) answer =>
      match registrationError answer with
      | Some err => Some (false, err)
      | None => None
      end
  | _ => None
  end.

(** Every answer on which the session gives up. *)
Definition failure (ev : event) : option (bool * error) :=
  match registrationFailure ev with
  | Some v => Some v
  | None =>
      match resourceFailure ev with
      | Some v => Some v
      | None => jobFailure ev
      end
  end.

(** How a part of the session ends after such an answer: it prints the
    line about the time, if it has to, and returns the error. *)
Definition givesUp (v : bool * error) : itree deployE (option error) :=
  run (if fst v then call (Println LogTimeout) else Ret tt) then
  Ret (Some (snd v)).

(** How [postDeploymentRequest] ends after such an answer: the same, with
    the deferred calls before it returns. *)
Definition aborts (v : bool * error) : itree deployE (option error) :=
  run (if fst v then call (Println LogTimeout) else Ret tt) then
  deferred (Some (snd v)).

End Session.

Arguments Ans {FS Datastore ResourceProto JobProto Stream X} e x.

End Deploy.

Module DeployNotions.
Import ITree.Core.ITreeDefinition.
Import ITree.Eq.Eqit ITree.Eq.UpToTaus.
Import Deploy.

Section Notions.
Context {FS Datastore ResourceProto JobProto Stream : Type}.

Abbreviation E := (@deployE FS Datastore ResourceProto JobProto Stream).
Abbreviation event := (@event FS Datastore ResourceProto JobProto Stream).

(** Right after an answer that [F] counts as a failure, [t] is left with
    the ending that [tail] gives for it. *)
Definition Stops {R V : Type} (F : event -> option V) (tail : V -> itree E R)
    (t : itree E R) : Prop :=
  forall pre ev v u,
    after t (pre ++ [ev]) u -> F ev = Some v -> u ≈ tail v.

(** Every call of [t] is of the kind [C]. *)
Definition Emits {R : Type} (C : event -> Prop) (t : itree E R) : Prop :=
  forall tr u, after t tr u -> Forall C tr.

(** [t] makes no call whose answer [F] counts as a failure. *)
Definition Quiet {R V : Type} (F : event -> option V) (t : itree E R) : Prop :=
  Emits (fun ev => F ev = None) t.

(** [t] makes the calls of [tr] and returns [r]. *)
Definition completes {R : Type} (t : itree E R) (tr : list event) (r : R) : Prop :=
  after t tr (Ret r).

End Notions.
End DeployNotions.

Module DeployEndings.
Import ITree.Core.ITreeDefinition.
Import Deploy.

(** How a turn of a tracking loop ends after an answer that is a
    failure. *)
Definition givesUpTurn {FS Datastore ResourceProto JobProto Stream : Type}
    (v : bool * error)
  : itree (@deployE FS Datastore ResourceProto JobProto Stream) (Z + option error) :=
  run (if fst v then call (Println LogTimeout) else Ret tt) then
  Ret (inr (Some (snd v))).

End DeployEndings.

Module DeployKinds.
Import ITree.Core.ITreeDefinition.
Import Deploy DeployNotions.

Section Kinds.
Context {FS Datastore ResourceProto JobProto Stream : Type}.
Variable ToResourceProto : ResourceSpec.t -> ResourceProto + error.

Abbreviation event := (@event FS Datastore ResourceProto JobProto Stream).

(** The calls of the deployment of the resources, with its lines. *)
Definition inResources (ev : event) : Prop :=
  match ev with
  | Ans (DatastoreGetByName _) _ | Ans (ErrExit _) _ | Ans (ResourceGetAll _ _) _
  | Ans (DeployResourceSpecification _ _ _) _ | Ans (ResourceRecv _) _ => True
  | Ans (Println line) _ =>
      match line with
      | LogTimeout | LogDeployed _ _ _ | LogInfo _ _
      | LogDeployedResources | LogSkippingResources => True
      | _ => False
      end
  | _ => False
  end.

(** The calls of the deployment of the jobs and of what follows it. *)
Definition inJobs (ev : event) : Prop :=
  match ev with
  | Ans JobGetAll _ | Ans (DeployJobSpecification _ _) _ | Ans (JobRecv _) _ => True
  | Ans (Println line) _ =>
      match line with
      | LogDeployingJobs | LogTimeout | LogDeployed _ _ _ | LogInfo _ _
      | LogDeployedJobs | LogSkippingJobs | LogCompleted => True
      | _ => False
      end
  | _ => False
  end.

(** The deferred calls. *)
Definition inDeferred (ev : event) : Prop :=
  match ev with
  | Ans DeployCancel _ | Ans ConnClose _ | Ans DialCancel _ => True
  | _ => False
  end.

(** The registration of the project. *)
Definition isRegistration (ev : event) : Prop :=
  match ev with
  | Ans (RegisterProject _ _) _ => True
  | _ => False
  end.

(** The requests that deploy. *)
Definition isDeployRequest (ev : event) : Prop :=
  match ev with
  | Ans (DeployResourceSpecification _ _ _) _
  | Ans (DeployJobSpecification _ _) _ => True
  | _ => False
  end.

(** A run of the loop over the datastores that returns without error:
    for each datastore in turn the lookup, the specifications, the
    request, and a run of the tracking loop on the stream of the request
    that returns without error. *)
Inductive storesRun (projectName : string)
  : list (string * FS) -> list event -> Prop :=
| storesRun_nil : storesRun projectName [] []
| storesRun_cons storeName repoFS rest ds resourceSpecs adaptedSpecs
    respStream tracked others :
    adaptResources ToResourceProto resourceSpecs [] = inl adaptedSpecs ->
    completes (trackResources respStream (Z.of_nat (length adaptedSpecs)) 0)
      tracked None ->
    storesRun projectName rest others ->
    storesRun projectName ((storeName, repoFS) :: rest)
      (Ans (DatastoreGetByName storeName) (inl ds)
       :: Ans (ResourceGetAll repoFS ds) (inl resourceSpecs)
       :: Ans (DeployResourceSpecification adaptedSpecs projectName storeName)
            (inl respStream)
       :: tracked ++ others).

End Kinds.
End DeployKinds.

(** An example session: one datastore, served from the stream [tt], whose
    specifications and the jobs need no preparation. *)
Module DeployExample.
Import ITree.Core.ITreeDefinition.
Import Deploy.

Abbreviation E := (@deployE unit unit unit unit unit).
Abbreviation event := (@event unit unit unit unit unit).

Definition exampleToResourceProto (spec : ResourceSpec.t) : unit + error := inl tt.
Definition exampleToJobProto (spec : Models.JobSpec.t) : unit + error := inl tt.

Definition exampleConf : Opctl.t :=
  {| Opctl.Host := "localhost:9100"; Opctl.Global := ∅ |}.

Definition exampleStores : gmap string unit := {[ "bigquery" := tt ]}.

Definition exampleSession : itree E (option error) :=
  postDeploymentRequest (H := exampleRange) exampleToResourceProto
    exampleToJobProto "project" exampleConf exampleStores false false.

Definition exampleRegistered : Pb.RegisterProjectResponse.t :=
  {| Pb.RegisterProjectResponse.Success := true;
     Pb.RegisterProjectResponse.Message := "" |}.

(** A registration that the service answers, and turns down. *)
Definition exampleRejected : Pb.RegisterProjectResponse.t :=
  {| Pb.RegisterProjectResponse.Success := false;
     Pb.RegisterProjectResponse.Message := "unknown project" |}.

(** A resource that the service acknowledges as failed. *)
Definition exampleRefused : Pb.DeployResourceSpecificationResponse.t :=
  {| Pb.DeployResourceSpecificationResponse.Success := false;
     Pb.DeployResourceSpecificationResponse.Ack := true;
     Pb.DeployResourceSpecificationResponse.Message := "quota exceeded";
     Pb.DeployResourceSpecificationResponse.ResourceName := "events" |}.

(** A progress message. *)
Definition exampleProgress : Pb.DeployResourceSpecificationResponse.t :=
  {| Pb.DeployResourceSpecificationResponse.Success := false;
     Pb.DeployResourceSpecificationResponse.Ack := false;
     Pb.DeployResourceSpecificationResponse.Message := "creating";
     Pb.DeployResourceSpecificationResponse.ResourceName := "events" |}.

(** The calls up to the point where the session holds the stream of the
    resources. *)
Definition exampleUpToStream : list event :=
  [ Ans (CreateConnection "localhost:9100") None;
    Ans (RegisterProject "project" ∅) (inl exampleRegistered);
    Ans (Println LogUpdatedProject) tt;
    Ans (DatastoreGetByName "bigquery") (inl tt);
    Ans (ResourceGetAll tt tt) (inl []);
    Ans (DeployResourceSpecification [] "project" "bigquery") (inl tt) ].

(** The deployment of the resources when the stream ends at once. *)
Definition exampleResourcesRun : list event :=
  [ Ans (DatastoreGetByName "bigquery") (inl tt);
    Ans (ResourceGetAll tt tt) (inl []);
    Ans (DeployResourceSpecification [] "project" "bigquery") (inl tt);
    Ans (ResourceRecv tt) (inr ErrEOF);
    Ans (Println LogDeployedResources) tt ].

(** The deployment of the jobs and the end of the session when there is
    no job and the stream ends at once. *)
Definition exampleJobsRun : list event :=
  [ Ans (Println LogDeployingJobs) tt;
    Ans JobGetAll (inl []);
    Ans (DeployJobSpecification [] "project") (inl tt);
    Ans (JobRecv tt) (inr ErrEOF);
    Ans (Println LogDeployedJobs) tt;
    Ans (Println LogCompleted) tt;
    Ans DeployCancel tt;
    Ans ConnClose tt;
    Ans DialCancel tt ].

(** A whole session without error. *)
Definition exampleWholeRun : list event :=
  Ans (CreateConnection "localhost:9100") None
  :: Ans (RegisterProject "project" ∅) (inl exampleRegistered)
  :: Ans (Println LogUpdatedProject) tt
  :: (exampleResourcesRun ++ exampleJobsRun)%list.

(** An error of the transport. *)
Definition exampleUnavailable : error := ErrForeign "unavailable" false.

End DeployExample.

(** ** Further notions *)

(** A digit directly followed by the letter [M], somewhere in [s]. *)
Fixpoint hasMonthToken (s : string) : bool :=
  match s with
  | String c (String m _ as r) =>
      (isDigit c && (code m =? 77)) || hasMonthToken r
  | _ => false
  end.

(** What [tryParsingInMonths] makes of what is left of the string once
    the month tokens are taken out, [sz] being the span of the months. *)
Definition withRemainder (sz : Z) (rest : string) : Z * option error :=
  let rest := Strings.TrimSpace rest in
  if String.eqb rest "" then (sz, None)
  else
    match Time.ParseDuration rest with
    | (_, Some err) =>
        (sz, Some (ErrWrap err ("failed to parse task configuration of " +:+ rest)))
    | (remainingTime, None) => (Int64.add sz remainingTime, None)
    end.

(** ** Package [cmd]: the command that creates a specification *)

Module Create.

(** [getWindowParameters]: the window of a job for the answer to the
    question about the transformation window. *)
Definition getWindowParameters (winName : string) : JobTaskWindow.t :=
  if String.eqb winName "hourly" then
    {| JobTaskWindow.Size := "1h"; JobTaskWindow.Offset := "0";
       JobTaskWindow.TruncateTo := "h" |}
  else if String.eqb winName "daily" then
    {| JobTaskWindow.Size := "24h"; JobTaskWindow.Offset := "0";
       JobTaskWindow.TruncateTo := "h" |}
  else if String.eqb winName "weekly" then
    {| JobTaskWindow.Size := "168h"; JobTaskWindow.Offset := "0";
       JobTaskWindow.TruncateTo := "w" |}
  else if String.eqb winName "monthly" then
    {| JobTaskWindow.Size := "720h"; JobTaskWindow.Offset := "0";
       JobTaskWindow.TruncateTo := "M" |}
  else
    (* default *)
    {| JobTaskWindow.Size := "24h"; JobTaskWindow.Offset := "0";
       JobTaskWindow.TruncateTo := "h" |}.

(** [strings.ReplaceAll(s, old, new)] for an [old] that is not empty:
    from left to right, every occurrence of [old] that does not overlap
    the one before it.  [skip] counts the bytes of [s] that the last
    occurrence still covers. *)
Fixpoint replaceAllFrom (old new : string) (skip : nat) (s : string) : string :=
  match s with
  | EmptyString => EmptyString
  | String c r =>
      match skip with
      | S k => replaceAllFrom old new k r
      | O =>
          if String.prefix old s
          then new +:+ replaceAllFrom old new (String.length old - 1) r
          else String c (replaceAllFrom old new O r)
      end
  end.
Definition ReplaceAll (s old new : string) : string := replaceAllFrom old new O s.

(** The name that [createJobSubCommand] and [createResourceSubCommand]
    propose for the specification in the directory [directory]:
    [strings.ReplaceAll(strings.ReplaceAll(directory, "/", "."), "\\", ".")]. *)
Definition nameDefault (directory : string) : string :=
  ReplaceAll (ReplaceAll directory "/" ".") (String (ascii_of_N 92) "") ".".

(** The plugin of a hook ([models.HookPlugin]), known here by the answer
    to [GetHookSchema]: the name in the schema, or an error. *)
Module HookPlugin.
Record t : Type := { GetHookSchema : string + error }.
End HookPlugin.

(** A hook of a [models.JobSpec] as this command reads it; [None] is the
    [nil] plugin. *)
Module JobSpecHook.
Record t : Type :=
  { Config : Models.JobSpecConfigs; Unit : option HookPlugin.t }.
End JobSpecHook.

(** [ifHookAlreadyExistsForJob], on [jobSpec.Hooks]; the call of a method
    of a [nil] plugin panics. *)
Fixpoint ifHookAlreadyExistsForJob (hooks : list JobSpecHook.t)
    (newHookName : string) : outcome bool :=
  match hooks with
  | [] => Returns false
  | hook :: rest =>
      match JobSpecHook.Unit hook with
      | None => Panics "invalid memory address or nil pointer dereference"
      | Some unit =>
          match HookPlugin.GetHookSchema unit with
          | inr _ => Returns false
          | inl name =>
              if String.eqb name newHookName then Returns true
              else ifHookAlreadyExistsForJob rest newHookName
          end
      end
  end.

(** The name in the schema of a hook, where the hook has a plugin that
    gives one. *)
Definition schemaName (hook : JobSpecHook.t) : option string :=
  match JobSpecHook.Unit hook with
  | Some unit =>
      match HookPlugin.GetHookSchema unit with
      | inl name => Some name
      | inr _ => None
      end
  | None => None
  end.

(** A byte of a path that separates directories. *)
Definition isSeparator (c : ascii) : bool := (code c =? 47) || (code c =? 92).

Fixpoint mapBytes (f : ascii -> ascii) (s : string) : string :=
  match s with
  | EmptyString => EmptyString
  | String c r => String (f c) (mapBytes f r)
  end.

End Create.

(** What [createJobSurvey] makes of the answers to its questions. *)
Module CreateJob.

(** [JobConfigVersion] *)
Definition JobConfigVersion : Z := 1.

(** [baseInputs[key]]: the empty string for a key that is not there. *)
Definition input (baseInputs : gmap string string) (key : string) : string :=
  default "" (baseInputs !! key).

(** The job with its defaults ([jobInput := local.Job{...}]). *)
Definition jobInput (baseInputs : gmap string string) : Job.t :=
  {| Job.Version := JobConfigVersion;
     Job.Name := input baseInputs "name";
     Job.Owner := input baseInputs "owner";
     Job.Description := "";
     Job.Schedule :=
       {| JobSchedule.StartDate := input baseInputs "start_date";
          JobSchedule.EndDate := "";
          JobSchedule.Interval := input baseInputs "interval" |};
     Job.Behavior := {| JobBehavior.DependsOnPast := false;
                        JobBehavior.Catchup := true |};
     Job.Task :=
       {| JobTask.Name := input baseInputs "task";
          JobTask.Config := [];
          JobTask.Window := Create.getWindowParameters (input baseInputs "window") |};
     Job.Asset := ∅;
     Job.Labels := {[ "orchestrator" := "optimus" ]};
     Job.Dependencies := [];
     Job.Hooks := [] |}.

(** The job once the configuration and the assets that the plugin of the
    task proposes are in it:
    [jobInput.Task.Config = local.JobSpecConfigToYamlSlice(config)] and
    [jobInput.Asset = assets]. *)
Definition withTaskDefaults (jobInput : Job.t) (config : Models.JobSpecConfigs)
    (assets : gmap string string) : Job.t :=
  {| Job.Version := Job.Version jobInput;
     Job.Name := Job.Name jobInput;
     Job.Owner := Job.Owner jobInput;
     Job.Description := Job.Description jobInput;
     Job.Schedule := Job.Schedule jobInput;
     Job.Behavior := Job.Behavior jobInput;
     Job.Task :=
       {| JobTask.Name := JobTask.Name (Job.Task jobInput);
          JobTask.Config := JobSpecConfigToYamlSlice config;
          JobTask.Window := JobTask.Window (Job.Task jobInput) |};
     Job.Asset := assets;
     Job.Labels := Job.Labels jobInput;
     Job.Dependencies := Job.Dependencies jobInput;
     Job.Hooks := Job.Hooks jobInput |}.

(** The job that [createJobSurvey] returns without error. *)
Definition surveyed (baseInputs : gmap string string)
    (config : Models.JobSpecConfigs) (assets : gmap string string) : Job.t :=
  withTaskDefaults (jobInput baseInputs) config assets.

End CreateJob.

(** More examples: a job with a label, a dependency, a hook and an end
    date, which leaves its truncation unit out; the same job with a start
    date that is no day of the calendar and a number in the configuration
    of its hook; a domain object one of whose hooks has no plugin; the
    answers to the questions of [createJobSurvey]. *)
Definition exampleFullJob : Job.t :=
  {| Job.Version := 2; Job.Name := "sales"; Job.Owner := "data";
     Job.Description := "daily sales";
     Job.Schedule := {| JobSchedule.StartDate := "2021-01-01";
                        JobSchedule.EndDate := "2021-12-31";
                        JobSchedule.Interval := "@daily" |};
     Job.Behavior := {| JobBehavior.DependsOnPast := true;
                        JobBehavior.Catchup := false |};
     Job.Task := {| JobTask.Name := "bq2bq";
                    JobTask.Config := [{| Yaml.Key := Yaml.VString "DATASET";
                                          Yaml.Value := Yaml.VString "sales" |}];
                    JobTask.Window := {| JobTaskWindow.Size := "1M";
                                         JobTaskWindow.Offset := "";
                                         JobTaskWindow.TruncateTo := "" |} |};
     Job.Asset := ∅; Job.Labels := {[ "team" := "growth" ]};
     Job.Dependencies := [{| JobDependency.JobName := "upstream";
                             JobDependency.Type_ := "inter" |}];
     Job.Hooks :=
       [{| JobHook.Name := "transporter";
           JobHook.Config := [{| Yaml.Key := Yaml.VString "TOPIC";
                                 Yaml.Value := Yaml.VString "events" |}] |}] |}.

Definition exampleBadDateJob : Job.t :=
  {| Job.Version := 2; Job.Name := "sales"; Job.Owner := "data";
     Job.Description := "daily sales";
     Job.Schedule := {| JobSchedule.StartDate := "2021-02-30";
                        JobSchedule.EndDate := "";
                        JobSchedule.Interval := "@daily" |};
     Job.Behavior := {| JobBehavior.DependsOnPast := true;
                        JobBehavior.Catchup := false |};
     Job.Task := {| JobTask.Name := "bq2bq"; JobTask.Config := [];
                    JobTask.Window := {| JobTaskWindow.Size := "";
                                         JobTaskWindow.Offset := "";
                                         JobTaskWindow.TruncateTo := "" |} |};
     Job.Asset := ∅; Job.Labels := ∅; Job.Dependencies := [];
     Job.Hooks :=
       [{| JobHook.Name := "transporter";
           JobHook.Config := [{| Yaml.Key := Yaml.VString "BATCH_SIZE";
                                 Yaml.Value := Yaml.VOther "100" |}] |}] |}.

Definition exampleSpecNilHook : Models.JobSpec.t :=
  {| Models.JobSpec.Version := 1; Models.JobSpec.Name := "sales";
     Models.JobSpec.Owner := "data"; Models.JobSpec.Description := "";
     Models.JobSpec.Labels := ∅;
     Models.JobSpec.Schedule := Models.JobSpec.Schedule Models.JobSpec.zero;
     Models.JobSpec.Behavior := Models.JobSpec.Behavior Models.JobSpec.zero;
     Models.JobSpec.Task :=
       {| Models.JobSpecTask.Unit := Some {| Models.Transformation.Name := "bq2bq" |};
          Models.JobSpecTask.Config := [];
          Models.JobSpecTask.Window :=
            Models.JobSpecTask.Window (Models.JobSpec.Task Models.JobSpec.zero) |};
     Models.JobSpec.Assets := Models.JobAssets.zero;
     Models.JobSpec.Dependencies := ∅;
     Models.JobSpec.Hooks := [Models.JobSpecHook.zero] |}.

Definition exampleAnswers : gmap string string :=
  {[ "name" := "sales.weekly"; "owner" := "data"; "task" := "bq2bq";
     "start_date" := "2021-01-01"; "interval" := "0 2 * * 1";
     "window" := "weekly" ]}.

Definition exampleProposedConfig : Models.JobSpecConfigs :=
  [{| Models.JobSpecConfigItem.Name := "DATASET";
      Models.JobSpecConfigItem.Value := "sales" |}].

(** A domain object with a dependency on a job of another project. *)
Definition exampleSpecWithDependency : Models.JobSpec.t :=
  {| Models.JobSpec.Version := 1; Models.JobSpec.Name := "sales";
     Models.JobSpec.Owner := "data"; Models.JobSpec.Description := "";
     Models.JobSpec.Labels := ∅;
     Models.JobSpec.Schedule :=
       {| Models.JobSpecSchedule.StartDate := Time.Date 2021 1 1;
          Models.JobSpecSchedule.EndDate := None;
          Models.JobSpecSchedule.Interval := "@daily" |};
     Models.JobSpec.Behavior := Models.JobSpec.Behavior Models.JobSpec.zero;
     Models.JobSpec.Task :=
       {| Models.JobSpecTask.Unit := Some {| Models.Transformation.Name := "bq2bq" |};
          Models.JobSpecTask.Config := [];
          Models.JobSpecTask.Window :=
            {| Models.JobSpecTaskWindow.Size := 24 * Time.Hour;
               Models.JobSpecTaskWindow.Offset := 0;
               Models.JobSpecTaskWindow.TruncateTo := "d" |} |};
     Models.JobSpec.Assets := Models.JobAssets.zero;
     Models.JobSpec.Dependencies :=
       {[ "upstream" := {| Models.JobSpecDependency.Type_ := "inter" |} ]};
     Models.JobSpec.Hooks := [] |}.

(** The job that [FromSpec] makes of it. *)
Definition exampleJobBack : Job.t :=
  {| Job.Version := 1; Job.Name := "sales"; Job.Owner := "data";
     Job.Description := "";
     Job.Schedule := {| JobSchedule.StartDate := "2021-01-01";
                        JobSchedule.EndDate := "";
                        JobSchedule.Interval := "@daily" |};
     Job.Behavior := {| JobBehavior.DependsOnPast := false;
                        JobBehavior.Catchup := false |};
     Job.Task := {| JobTask.Name := "bq2bq"; JobTask.Config := [];
                    JobTask.Window := {| JobTaskWindow.Size := "24h0m0s";
                                         JobTaskWindow.Offset := "0s";
                                         JobTaskWindow.TruncateTo := "d" |} |};
     Job.Asset := ∅; Job.Labels := ∅;
     Job.Dependencies := [{| JobDependency.JobName := "upstream";
                             JobDependency.Type_ := "inter" |}];
     Job.Hooks := [] |}.

(** ** More notions about the runs of the session *)

Module DeployMore.
Import ITree.Core.ITreeDefinition.
Import Deploy DeployNotions.

Section More.
Context {FS Datastore ResourceProto JobProto Stream : Type}.

Abbreviation E := (@deployE FS Datastore ResourceProto JobProto Stream).
Abbreviation event := (@event FS Datastore ResourceProto JobProto Stream).

(** The answers after which the command ends the process, with the error
    that it hands to [errExit]: a datastore that is not supported (the
    error of the lookup is dropped for one that names the datastore),
    specifications that cannot be read. *)
Definition exitFailure (ev : event) : option error :=
  match ev with
  | Ans (DatastoreGetByName storeName) (inr _) =>
      Some (ErrNew ("unsupported datastore: " +:+ storeName
                    +:+ String (ascii_of_N 10) ""))
  | Ans (ResourceGetAll _ _) (inr err) => Some err
  | _ => None
  end.

(** The line that reports the success of the whole deployment. *)
Definition isCompletedLine (ev : event) : Prop :=
  match ev with
  | Ans (Println LogCompleted) _ => True
  | _ => False
  end.

(** The datastores for which a run has sent a request to deploy
    resources, in the order of the requests. *)
Fixpoint requestedStores (tr : list event) : list string :=
  match tr with
  | [] => []
  | Ans (DeployResourceSpecification _ _ datastoreName) _ :: rest =>
      datastoreName :: requestedStores rest
  | _ :: rest => requestedStores rest
  end.

(** A message of the stream of the resources on which the loop goes on:
    it is no acknowledgement of a failure. *)
Definition resourceGoesOn (resp : Pb.DeployResourceSpecificationResponse.t) : bool :=
  negb (Pb.DeployResourceSpecificationResponse.Ack resp)
  || Pb.DeployResourceSpecificationResponse.Success resp.

(** What the loop that tracks the resources does with such messages, from
    the count [deployCounter] on: it reads each one, prints the line of
    an acknowledgement with the count raised by one, or the line of a
    progress message. *)
Fixpoint resourceTurns (respStream : Stream) (totalSpecs deployCounter : Z)
    (msgs : list Pb.DeployResourceSpecificationResponse.t) : list event :=
  match msgs with
  | [] => []
  | resp :: rest =>
      if Pb.DeployResourceSpecificationResponse.Ack resp then
        Ans (ResourceRecv respStream) (inl resp)
        :: Ans (Println (LogDeployed (Int64.add deployCounter 1) totalSpecs
                           (Pb.DeployResourceSpecificationResponse.ResourceName resp))) tt
        :: resourceTurns respStream totalSpecs (Int64.add deployCounter 1) rest
      else
        Ans (ResourceRecv respStream) (inl resp)
        :: Ans (Println (LogInfo
                           (Pb.DeployResourceSpecificationResponse.ResourceName resp)
                           (Pb.DeployResourceSpecificationResponse.Message resp))) tt
        :: resourceTurns respStream totalSpecs deployCounter rest
  end.

(** The same for the jobs. *)
Definition jobGoesOn (resp : Pb.DeployJobSpecificationResponse.t) : bool :=
  negb (Pb.DeployJobSpecificationResponse.Ack resp)
  || Pb.DeployJobSpecificationResponse.Success resp.

Fixpoint jobTurns (respStream : Stream) (totalJobs jobCounter : Z)
    (msgs : list Pb.DeployJobSpecificationResponse.t) : list event :=
  match msgs with
  | [] => []
  | resp :: rest =>
      if Pb.DeployJobSpecificationResponse.Ack resp then
        Ans (JobRecv respStream) (inl resp)
        :: Ans (Println (LogDeployed (Int64.add jobCounter 1) totalJobs
                           (Pb.DeployJobSpecificationResponse.JobName resp))) tt
        :: jobTurns respStream totalJobs (Int64.add jobCounter 1) rest
      else
        Ans (JobRecv respStream) (inl resp)
        :: Ans (Println (LogInfo
                           (Pb.DeployJobSpecificationResponse.JobName resp)
                           (Pb.DeployJobSpecificationResponse.Message resp))) tt
        :: jobTurns respStream totalJobs jobCounter rest
  end.

(** The calls with which a failed connection ends. *)
Definition afterFailedDial (err : error) : list event :=
  ((if isDeadlineExceeded err then [Ans (Println LogCantReach) tt] else [])
   ++ [Ans DialCancel tt])%list.

(** The deferred calls of a session that had its connection. *)
Definition deferredCalls : list event :=
  [Ans DeployCancel tt; Ans ConnClose tt; Ans DialCancel tt].

End More.
End DeployMore.

(** More about the example session: the session with both parts left
    out, a converter that rejects the resource named [bad], and messages
    of a stream. *)
Module DeployExampleMore.
Import ITree.Core.ITreeDefinition.
Import Deploy DeployExample DeployMore.

Definition exampleIgnoringSession : itree E (option error) :=
  postDeploymentRequest (H := exampleRange) exampleToResourceProto
    exampleToJobProto "project" exampleConf exampleStores true true.

Definition exampleIgnoringRun : list event :=
  [ Ans (CreateConnection "localhost:9100") None;
    Ans (RegisterProject "project" ∅) (inl exampleRegistered);
    Ans (Println LogUpdatedProject) tt;
    Ans (Println LogSkippingResources) tt;
    Ans (Println LogSkippingJobs) tt;
    Ans (Println LogCompleted) tt;
    Ans DeployCancel tt; Ans ConnClose tt; Ans DialCancel tt ].

Definition examplePickyProto (spec : ResourceSpec.t) : unit + error :=
  if String.eqb (ResourceSpec.Name spec) "bad"
  then inr (ErrForeign "unknown resource type" false)
  else inl tt.

Definition exampleAcknowledged : Pb.DeployResourceSpecificationResponse.t :=
  {| Pb.DeployResourceSpecificationResponse.Success := true;
     Pb.DeployResourceSpecificationResponse.Ack := true;
     Pb.DeployResourceSpecificationResponse.Message := "";
     Pb.DeployResourceSpecificationResponse.ResourceName := "events" |}.

(** The calls up to the lookup of the datastore. *)
Definition exampleUpToLookup : list event :=
  [ Ans (CreateConnection "localhost:9100") None;
    Ans (RegisterProject "project" ∅) (inl exampleRegistered);
    Ans (Println LogUpdatedProject) tt ].


End DeployExampleMore.

(** ** Package [cmd]: the questions of a plugin *)

Module Survey.

(** [models.PluginQuestion], with the fields that the command reads; a
    [models.PluginSubQuestion] is the pair of its [IfValue] and its
    [Questions]. *)
#[warnings="-register-all"]
Inductive PluginQuestion : Type :=
| Question (Prompt Help : string) (Multiselect : list string) (Default : string)
    (SubQuestions : list (string * list PluginQuestion)).

(** [models.PluginAnswer] *)
Record PluginAnswer : Type := { Question_ : PluginQuestion; Value : string }.

(** The prompts of package [survey] that the command builds.  The default
    of a [Select] is an [interface{}], [None] where it is not set. *)
Inductive Prompt : Type :=
| Select (Message Help : string) (Options : list string) (Default : option string)
| Input (Message Help : string) (Default : string).

(** The prompt for a question: a [Select] where the question has options,
    an [Input] otherwise, with the default of the question where that is
    not empty. *)
Definition promptOf (ques : PluginQuestion) : Prompt :=
  match ques with
  | Question prompt help multiselect default _ =>
      if (0 <? length multiselect)%nat then
        Select prompt help multiselect
          (if (0 <? String.length default)%nat then Some default else None)
      else
        Input prompt help
          (if (0 <? String.length default)%nat then default else "")
  end.

Section Asking.

(** [survey.AskOne], with the validator that the command hands to it:
    what the [n]-th prompt of the process is answered with, the string
    that [AskOne] stores or the error that it returns. *)
Variable AskOne : nat -> Prompt -> string + error.

(** The message with which the error of a prompt is wrapped:
    ["AskSurveyQuestion"] for a task, ["AskHookSurveyQuestion"] for a
    hook. *)
Variable wrapped : string.

(** What a function that asks returns: the answers or the error, and the
    number of prompts made so far. *)
Definition asked : Type := (list PluginAnswer + error) * nat.

(** [for _, subQ := range subQues.Questions { ... }] *)
Fixpoint askQuestions (ask : PluginQuestion -> nat -> asked)
    (questions : list PluginQuestion) (answers : list PluginAnswer) (n : nat)
  : asked :=
  match questions with
  | [] => (inl answers, n)
  | subQ :: rest =>
      match ask subQ n with
      | (inr err, n') => (inr err, n')
      | (inl subQuesAnswer, n') =>
          askQuestions ask rest (answers ++ subQuesAnswer)%list n'
      end
  end.

(** [for _, subQues := range ques.SubQuestions { ... }] *)
Fixpoint askSubQuestions (ask : PluginQuestion -> nat -> asked)
    (responseStr : string) (subQuestions : list (string * list PluginQuestion))
    (answers : list PluginAnswer) (n : nat) : asked :=
  match subQuestions with
  | [] => (inl answers, n)
  | (ifValue, questions) :: rest =>
      if String.eqb responseStr ifValue then
        match askQuestions ask questions answers n with
        | (inr err, n') => (inr err, n')
        | (inl answers, n') => askSubQuestions ask responseStr rest answers n'
        end
      else askSubQuestions ask responseStr rest answers n
  end.

(** [AskTaskSurveyQuestion] and [AskHookSurveyQuestion], which differ in
    the validator that [survey.AskOne] is given and in the message of the
    error; [n] is the number of prompts made before the call. *)
Fixpoint AskSurveyQuestion (ques : PluginQuestion) (n : nat) : asked :=
  match ques with
  | Question _ _ _ _ subQuestions =>
      match AskOne n (promptOf ques) with
      | inr err => (inr (ErrWrap err wrapped), S n)
      | inl responseStr =>
          let answers := [{| Question_ := ques; Value := responseStr |}] in
          (* check if sub questions are attached on this question *)
          askSubQuestions AskSurveyQuestion responseStr subQuestions answers (S n)
      end
  end.

(** The answer [a] was given to one of the prompts from the [n]-th to
    the one before the [n']-th, made for its question. *)
Definition answeredIn (n n' : nat) (a : PluginAnswer) : Prop :=
  exists k, (n <= k < n')%nat /\ AskOne k (promptOf (Question_ a)) = inl (Value a).

(** The prompt before the [n']-th was answered with an error, and [e] is
    that error, wrapped once. *)
Definition failedAt (n n' : nat) (e : error) : Prop :=
  (n < n')%nat
  /\ exists prompt err,
      AskOne (pred n') prompt = inr err /\ e = ErrWrap err wrapped.

(** What a part of the questioning that began before the [n]-th prompt
    with the answers [acc] has come to: more answers, one for each prompt
    made, or the failure of the last prompt. *)
Definition went (n : nat) (acc : list PluginAnswer) (res : asked) : Prop :=
  match res with
  | (inl answers, n') =>
      exists new, answers = (acc ++ new)%list
                  /\ n' = (n + length new)%nat
                  /\ Forall (answeredIn n n') new
  | (inr e, n') => failedAt n n' e
  end.

End Asking.

Definition AskTaskSurveyQuestion (AskOne : nat -> Prompt -> string + error) :=
  AskSurveyQuestion AskOne "AskSurveyQuestion".
Definition AskHookSurveyQuestion (AskOne : nat -> Prompt -> string + error) :=
  AskSurveyQuestion AskOne "AskHookSurveyQuestion".

End Survey.

(** An example of questions: whether the table is partitioned, and, for
    the answer [yes], by which column; and a user who answers [yes] to
    the first prompt and [created_at] to every other. *)
Definition exampleColumnQuestion : Survey.PluginQuestion :=
  Survey.Question "Partition column?" "" [] "" [].

Definition examplePartitionQuestion : Survey.PluginQuestion :=
  Survey.Question "Partitioned?" "" ["yes"; "no"] "no"
    [("yes", [exampleColumnQuestion])].

Definition exampleUser (n : nat) (prompt : Survey.Prompt) : string + error :=
  match n with
  | O => inl "yes"
  | S _ => inl "created_at"
  end.

(** * Properties *)

(** ** Strings *)

Lemma append_nil_l (b : string) : "" +:+ b = b.
Proof. reflexivity. Qed.

Lemma append_cons (c : ascii) (a b : string) :
  String c a +:+ b = String c (a +:+ b).
Proof. reflexivity. Qed.

Ltac str_simpl := rewrite ?append_nil_l, ?append_cons.

Lemma length_append (a b : string) :
  String.length (a +:+ b) = (String.length a + String.length b)%nat.
Proof.
  induction a as [|c a IH]; str_simpl; simpl; [reflexivity | now rewrite IH].
Qed.

Lemma append_empty_r (a : string) : a +:+ "" = a.
Proof.
  induction a as [|c a IH]; str_simpl; [reflexivity | now rewrite IH].
Qed.

Lemma append_assoc (a b c : string) : (a +:+ b) +:+ c = a +:+ (b +:+ c).
Proof.
  induction a as [|x a IH]; str_simpl; [reflexivity | now rewrite IH].
Qed.

Lemma allDigits_app (a b : string) :
  allDigits (a +:+ b) = allDigits a && allDigits b.
Proof.
  induction a as [|c a IH]; str_simpl; simpl; [reflexivity |].
  rewrite IH. now rewrite andb_assoc.
Qed.

(** ** The expression [monthExp] *)

Module MonthExpFacts.
Import MonthExp.

Lemma spanDigits_spec (s : string) :
  s = (spanDigits s).1 +:+ (spanDigits s).2
  /\ allDigits (spanDigits s).1 = true.
Proof.
  induction s as [|c r [IH1 IH2]]; [split; reflexivity |].
  cbn [spanDigits]. destruct (isDigit c) eqn:Hc.
  - destruct (spanDigits r) as [d rest]. cbn [fst snd] in *.
    rewrite append_cons, <- IH1. split; [reflexivity |].
    cbn [allDigits]. now rewrite Hc, IH2.
  - cbn [fst snd]. split; reflexivity.
Qed.

(** A run of digits before a byte that is no digit is the run that
    [spanDigits] takes. *)
Lemma spanDigits_run (ds : string) (c : ascii) (r : string) :
  allDigits ds = true -> isDigit c = false ->
  spanDigits (ds +:+ String c r) = (ds, String c r).
Proof.
  intros Hds Hc. induction ds as [|x ds IH]; str_simpl.
  - cbn [spanDigits]. now rewrite Hc.
  - cbn [allDigits] in Hds. apply andb_true_iff in Hds as [Hx Hds].
    cbn [spanDigits]. rewrite Hx, (IH Hds). reflexivity.
Qed.

Lemma digitsM_run (ds rest : string) :
  allDigits ds = true -> ds <> "" ->
  digitsM (ds +:+ "M" +:+ rest) = Some (ds, rest).
Proof.
  intros Hds Hne. unfold digitsM.
  change ("M" +:+ rest) with (String "M" rest).
  rewrite spanDigits_run by (auto; reflexivity).
  destruct ds; [congruence | reflexivity].
Qed.

Lemma ascii_of_code (c : ascii) (n : Z) :
  code c = n -> c = ascii_of_N (Z.to_N n).
Proof.
  intros Hn. unfold code in Hn. rewrite <- Hn, N2Z.id.
  now rewrite ascii_N_embedding.
Qed.

Lemma digitsM_split (s d rest : string) :
  digitsM s = Some (d, rest) ->
  s = d +:+ "M" +:+ rest /\ allDigits d = true /\ d <> "".
Proof.
  unfold digitsM. intros H.
  destruct (spanDigits_spec s) as [Hs Hd].
  destruct (spanDigits s) as [d0 r0]; cbn [fst snd] in *.
  destruct d0 as [|c d0]; [discriminate |].
  destruct r0 as [|m r0]; [discriminate |].
  destruct (code m =? 77) eqn:Hm; [| discriminate].
  injection H as <- <-.
  apply Z.eqb_eq, ascii_of_code in Hm. subst m.
  repeat split; [exact Hs | exact Hd | discriminate].
Qed.

(** A match at the head of [s] is a prefix of [s] that is not empty, and
    its groups are the sign, the digits and the letter. *)
Lemma matchHead_split (s : string) (m : list string) (rest : string) :
  matchHead s = Some (m, rest) ->
  exists sg d,
    m = [sg +:+ d +:+ "M"; sg; d; "M"]
    /\ s = (sg +:+ d +:+ "M") +:+ rest
    /\ (sg = "" \/ sg = "+" \/ sg = "-")
    /\ allDigits d = true /\ d <> "".
Proof.
  destruct s as [|c r]; cbn [matchHead]; [discriminate |].
  destruct (isSign c) eqn:Hc.
  - destruct (digitsM r) as [[d rest']|] eqn:Hd; [| discriminate].
    intros H; injection H as <- <-.
    apply digitsM_split in Hd as (-> & Hd & Hne).
    exists (String c ""), d. str_simpl. rewrite !append_assoc.
    repeat split; auto.
    right. unfold isSign in Hc. apply orb_true_iff in Hc.
    destruct Hc as [Hc|Hc]; apply Z.eqb_eq, ascii_of_code in Hc; subst c;
      [left | right]; reflexivity.
  - destruct (digitsM (String c r)) as [[d rest']|] eqn:Hd; [| discriminate].
    intros H; injection H as <- <-.
    apply digitsM_split in Hd as (Hs & Hd & Hne).
    exists "", d. str_simpl. rewrite Hs, !append_assoc. auto.
Qed.

Lemma findAllFrom_skip (pre rest : string) :
  findAllFrom (String.length pre) (pre +:+ rest) = findAllFrom O rest.
Proof. induction pre as [|c pre IH]; [reflexivity | exact IH]. Qed.

Lemma removeAllFrom_skip (pre rest : string) :
  removeAllFrom (String.length pre) (pre +:+ rest) = removeAllFrom O rest.
Proof. induction pre as [|c pre IH]; [reflexivity | exact IH]. Qed.

(** The two scans, as the library runs them: after a match the scan goes
    on behind it, otherwise one byte further. *)
Lemma FindAll_match (s : string) (m : list string) (rest : string) :
  matchHead s = Some (m, rest) ->
  FindAllStringSubmatch s = m :: FindAllStringSubmatch rest.
Proof.
  intros Hm. destruct (matchHead_split _ _ _ Hm) as (sg & d & _ & Hs & _ & _ & Hne).
  unfold FindAllStringSubmatch. destruct s as [|c r]; [discriminate |].
  cbn [findAllFrom]. rewrite Hm. f_equal.
  destruct (sg +:+ d +:+ "M") as [|c' pre] eqn:Hpre.
  { destruct sg; [destruct d |]; discriminate. }
  rewrite append_cons in Hs. injection Hs as -> ->.
  cbn [String.length]. rewrite length_append.
  replace (S (String.length pre + String.length rest) - String.length rest - 1)%nat
    with (String.length pre) by lia.
  apply findAllFrom_skip.
Qed.

Lemma FindAll_nomatch (c : ascii) (r : string) :
  matchHead (String c r) = None ->
  FindAllStringSubmatch (String c r) = FindAllStringSubmatch r.
Proof. intros Hm. unfold FindAllStringSubmatch. cbn [findAllFrom]. now rewrite Hm. Qed.

Lemma ReplaceAll_match (s : string) (m : list string) (rest : string) :
  matchHead s = Some (m, rest) ->
  ReplaceAllString_empty s = ReplaceAllString_empty rest.
Proof.
  intros Hm. destruct (matchHead_split _ _ _ Hm) as (sg & d & _ & Hs & _ & _ & Hne).
  unfold ReplaceAllString_empty. destruct s as [|c r]; [discriminate |].
  cbn [removeAllFrom]. rewrite Hm.
  destruct (sg +:+ d +:+ "M") as [|c' pre] eqn:Hpre.
  { destruct sg; [destruct d |]; discriminate. }
  rewrite append_cons in Hs. injection Hs as -> ->.
  cbn [String.length]. rewrite length_append.
  replace (S (String.length pre + String.length rest) - String.length rest - 1)%nat
    with (String.length pre) by lia.
  apply removeAllFrom_skip.
Qed.

Lemma ReplaceAll_nomatch (c : ascii) (r : string) :
  matchHead (String c r) = None ->
  ReplaceAllString_empty (String c r) = String c (ReplaceAllString_empty r).
Proof. intros Hm. unfold ReplaceAllString_empty. cbn [removeAllFrom]. now rewrite Hm. Qed.

End MonthExpFacts.

(** ** Machine arithmetic *)

Lemma wrap64_in_range (z : Z) : Int64.in_range z -> Int64.wrap64 z = z.
Proof.
  unfold Int64.in_range, Int64.min_int, Int64.max_int, Int64.wrap64.
  intros Hz. rewrite Z.mod_small; lia.
Qed.

Lemma decimalFrom_nonneg (s : string) (acc : Z) :
  allDigits s = true -> 0 <= acc -> acc <= decimalFrom acc s.
Proof.
  revert acc. induction s as [|c r IH]; intros acc Hs Hacc; cbn [decimalFrom]; [lia |].
  cbn [allDigits] in Hs. apply andb_true_iff in Hs as [Hc Hr].
  unfold isDigit in Hc. apply andb_true_iff in Hc as [Hlo Hhi].
  apply Z.leb_le in Hlo, Hhi.
  specialize (IH (acc * 10 + digitVal c) Hr). unfold digitVal in *. lia.
Qed.

Lemma decimal_nonneg (s : string) : allDigits s = true -> 0 <= decimal s.
Proof. intros Hs. apply (decimalFrom_nonneg s 0 Hs). lia. Qed.

Lemma digit_not_sign (c : ascii) : isDigit c = true -> MonthExp.isSign c = false.
Proof.
  unfold isDigit, MonthExp.isSign. intros H.
  apply andb_true_iff in H as [Hlo Hhi]. apply Z.leb_le in Hlo, Hhi.
  apply orb_false_iff; split; apply Z.eqb_neq; lia.
Qed.

(** [strconv.Atoi] on the digits of a match. *)
Lemma Atoi_digits (d : string) :
  allDigits d = true -> d <> "" -> decimal d <= Int64.max_int ->
  Strconv.Atoi d = (decimal d, None).
Proof.
  intros Hd Hne Hmax. unfold Strconv.Atoi.
  destruct d as [|c r]; [congruence |].
  pose proof Hd as Hd'. cbn [allDigits] in Hd'.
  apply andb_true_iff in Hd' as [Hc _].
  apply digit_not_sign in Hc. unfold MonthExp.isSign in Hc. rewrite Hc.
  rewrite Hd. cbn [negb].
  destruct (Int64.max_int <? decimal (String c r)) eqn:Hlt; [| reflexivity].
  apply Z.ltb_lt in Hlt. lia.
Qed.

(** ** The duration grammar *)

(** [tryParsingInMonths] on a string with a match at its head: the first
    match gives the months, the string without any match the rest. *)
Lemma tryParsingInMonths_head (s sg d rest : string) :
  MonthExp.matchHead s = Some ([sg +:+ d +:+ "M"; sg; d; "M"], rest) ->
  tryParsingInMonths s =
    match Strconv.Atoi d with
    | (_, Some err) =>
        (0, Some (ErrWrap err ("failed to parse task configuration of " +:+ s)))
    | (monthsCount, None) =>
        let sz := Int64.mul HoursInMonth monthsCount in
        let sz := if String.eqb sg "-" then Int64.mul sz (-1) else sz in
        let str := Strings.TrimSpace (MonthExp.ReplaceAllString_empty rest) in
        if (0 <? String.length str)%nat then
          match Time.ParseDuration str with
          | (_, Some err) =>
              (sz, Some (ErrWrap err
                           ("failed to parse task configuration of " +:+ str)))
          | (remainingTime, None) => (Int64.add sz remainingTime, None)
          end
        else (sz, None)
    end.
Proof.
  intros Hm. unfold tryParsingInMonths.
  rewrite (MonthExpFacts.FindAll_match _ _ _ Hm).
  rewrite (MonthExpFacts.ReplaceAll_match _ _ _ Hm).
  reflexivity.
Qed.

Lemma matchHead_digits (d rest : string) :
  allDigits d = true -> d <> "" ->
  MonthExp.matchHead (d +:+ "M" +:+ rest) = Some ([d +:+ "M"; ""; d; "M"], rest).
Proof.
  intros Hd Hne. destruct d as [|c r] eqn:E; [congruence |]. rewrite <- E in *.
  assert (Hc : MonthExp.isSign c = false).
  { apply digit_not_sign. subst d. cbn [allDigits] in Hd.
    now apply andb_true_iff in Hd as [-> _]. }
  rewrite E at 1. rewrite append_cons. cbn [MonthExp.matchHead]. rewrite Hc.
  rewrite <- append_cons, <- E.
  now rewrite MonthExpFacts.digitsM_run.
Qed.

Lemma matchHead_signed (c : ascii) (d rest : string) :
  MonthExp.isSign c = true -> allDigits d = true -> d <> "" ->
  MonthExp.matchHead (String c (d +:+ "M" +:+ rest))
  = Some ([String c (d +:+ "M"); String c ""; d; "M"], rest).
Proof.
  intros Hc Hd Hne. cbn [MonthExp.matchHead]. rewrite Hc.
  now rewrite MonthExpFacts.digitsM_run.
Qed.

(** One month is 720 hours: a lone month token, signed or not. *)
Lemma tryParsingInMonths_token (sg d : string) :
  sg = "" \/ sg = "+" \/ sg = "-" ->
  allDigits d = true -> d <> "" ->
  720 * Time.Hour * decimal d <= Int64.max_int ->
  tryParsingInMonths (sg +:+ d +:+ "M")
  = ((if String.eqb sg "-" then -1 else 1) * (720 * Time.Hour * decimal d), None).
Proof.
  intros Hsg Hd Hne Hmax.
  pose proof (decimal_nonneg d Hd) as H0.
  assert (Hm : MonthExp.matchHead (sg +:+ d +:+ "M")
               = Some ([sg +:+ d +:+ "M"; sg; d; "M"], "")).
  { destruct Hsg as [-> | [-> | ->]]; str_simpl.
    - apply (matchHead_digits d ""); assumption.
    - apply (matchHead_signed "+" d ""); auto.
    - apply (matchHead_signed "-" d ""); auto. }
  rewrite (tryParsingInMonths_head _ _ _ _ Hm).
  rewrite Atoi_digits; auto.
  2:{ unfold Time.Hour, Time.Minute, Time.Second, Time.Millisecond,
        Time.Microsecond, Time.Nanosecond, Int64.max_int in *. lia. }
  change (Strings.TrimSpace (MonthExp.ReplaceAllString_empty "")) with "".
  cbv zeta. cbn [String.length Nat.ltb Nat.leb].
  assert (Hr : Int64.in_range (720 * Time.Hour * decimal d)).
  { unfold Int64.in_range, Int64.min_int.
    unfold Time.Hour, Time.Minute, Time.Second, Time.Millisecond,
      Time.Microsecond, Time.Nanosecond in *. lia. }
  unfold Int64.mul. change HoursInMonth with (720 * Time.Hour).
  rewrite (wrap64_in_range _ Hr).
  destruct (String.eqb sg "-"); [| f_equal; lia].
  f_equal. rewrite wrap64_in_range; [lia |].
  unfold Int64.in_range, Int64.min_int, Int64.max_int in *. lia.
Qed.

(** C1.  The hybrid duration grammar (the month notation of
    [tryParsingInMonths], [time.ParseDuration] where that is rejected)
    gives ["2M"] 1440 hours, ["-1M"] -720 hours, ["1M12h"] 732 hours and
    ["24h"] 24 hours, the last through [time.ParseDuration]; the empty
    string and ["2M garbage"] are rejected by both parsers, which is an
    error of the grammar.  A month token alone, signed or not, is worth
    720 hours a month, with the sign of the token. *)
Theorem duration_grammar_vectors :
  parseWindowSpan "2M" = (1440 * Time.Hour, None)
  /\ parseWindowSpan "-1M" = (- (720 * Time.Hour), None)
  /\ parseWindowSpan "1M12h" = (732 * Time.Hour, None)
  /\ (tryParsingInMonths "24h" = (0, Some ErrNotAMonthDuration)
      /\ parseWindowSpan "24h" = (24 * Time.Hour, None))
  /\ ((exists e1, snd (tryParsingInMonths "") = Some e1)
      /\ exists e2, parseWindowSpan "" = (0, Some e2))
  /\ ((exists e1, snd (tryParsingInMonths "2M garbage") = Some e1)
      /\ exists e2, parseWindowSpan "2M garbage" = (0, Some e2))
  /\ HoursInMonth = 720 * Time.Hour
  /\ forall (sg : string) (c : ascii) (r : string),
      sg = "" \/ sg = "+" \/ sg = "-" ->
      allDigits (String c r) = true ->
      HoursInMonth * decimal (String c r) <= Int64.max_int ->
      tryParsingInMonths (sg +:+ String c r +:+ "M")
      = ((if String.eqb sg "-" then -1 else 1)
         * (HoursInMonth * decimal (String c r)), None).
Proof.
  split; [vm_compute; reflexivity |].
  split; [vm_compute; reflexivity |].
  split; [vm_compute; reflexivity |].
  split; [split; vm_compute; reflexivity |].
  split; [split; eexists; vm_compute; reflexivity |].
  split; [split; eexists; vm_compute; reflexivity |].
  split; [reflexivity |].
  intros sg c r Hsg Hd Hmax.
  change HoursInMonth with (720 * Time.Hour) in *.
  apply tryParsingInMonths_token; [assumption | assumption | discriminate | assumption].
Qed.

Lemma duration_grammar_vectors_witness :
  tryParsingInMonths "-3M" = (- (2160 * Time.Hour), None).
Proof.
  pose proof duration_grammar_vectors as H.
  do 7 apply proj2 in H.
  apply (H "-" "3"%char "").
  - right; right; reflexivity.
  - reflexivity.
  - vm_compute. discriminate.
Defined.



(** ** The window of a task *)

(** [prepareWindow], field by field. *)
Lemma prepareWindow_spans (conf : Job.t) :
  Job.prepareWindow conf =
    let truncateTo :=
      if String.eqb (truncateToOf conf) "" then "d" else truncateToOf conf in
    match spanOr (Time.Hour * 24) (sizeOf conf) with
    | (size, Some err) =>
        ({| Models.JobSpecTaskWindow.Size := size;
            Models.JobSpecTaskWindow.Offset := 0;
            Models.JobSpecTaskWindow.TruncateTo := truncateTo |},
         Some (sizeError conf err))
    | (size, None) =>
        match spanOr 0 (offsetOf conf) with
        | (offset, Some err) =>
            ({| Models.JobSpecTaskWindow.Size := size;
                Models.JobSpecTaskWindow.Offset := offset;
                Models.JobSpecTaskWindow.TruncateTo := truncateTo |},
             Some (offsetError conf err))
        | (offset, None) =>
            ({| Models.JobSpecTaskWindow.Size := size;
                Models.JobSpecTaskWindow.Offset := offset;
                Models.JobSpecTaskWindow.TruncateTo := truncateTo |}, None)
        end
    end.
Proof.
  unfold Job.prepareWindow, spanOr, parseWindowSpan, sizeError, offsetError,
    sizeOf, offsetOf, truncateToOf.
  destruct conf as [v n o d sch b [tn tc [sz off tr]] a l deps hooks].
  cbn [Job.Task Job.Name JobTask.Window JobTaskWindow.Size JobTaskWindow.Offset
       JobTaskWindow.TruncateTo].
  destruct (String.eqb tr ""); cbn [negb];
    (destruct (String.eqb sz ""); cbn [negb];
     [| destruct (tryParsingInMonths sz) as [d1 [e1|]];
        [destruct (Time.ParseDuration sz) as [d2 [e2|]] |]];
     try reflexivity;
     (destruct (String.eqb off ""); cbn [negb];
      [| destruct (tryParsingInMonths off) as [d3 [e3|]];
         [destruct (Time.ParseDuration off) as [d4 [e4|]] |]];
      reflexivity)).
Qed.

(** C3.  A job without a window block (empty size, offset and truncation
    unit) gets, without error, the window of 24 hours, offset 0, truncated
    to ["d"].  Each field is decided by its own string alone: the default
    where that string is empty, what the string says otherwise. *)
Theorem window_defaults (conf : Job.t) :
  (sizeOf conf = "" -> offsetOf conf = "" -> truncateToOf conf = "" ->
   Job.prepareWindow conf
   = ({| Models.JobSpecTaskWindow.Size := 24 * Time.Hour;
         Models.JobSpecTaskWindow.Offset := 0;
         Models.JobSpecTaskWindow.TruncateTo := "d" |}, None))
  /\ (forall window,
        Job.prepareWindow conf = (window, None) ->
        Models.JobSpecTaskWindow.TruncateTo window
        = (if String.eqb (truncateToOf conf) "" then "d" else truncateToOf conf)
        /\ (if String.eqb (sizeOf conf) ""
            then Models.JobSpecTaskWindow.Size window = 24 * Time.Hour
            else parseWindowSpan (sizeOf conf)
                 = (Models.JobSpecTaskWindow.Size window, None))
        /\ (if String.eqb (offsetOf conf) ""
            then Models.JobSpecTaskWindow.Offset window = 0
            else parseWindowSpan (offsetOf conf)
                 = (Models.JobSpecTaskWindow.Offset window, None))).
Proof.
  rewrite prepareWindow_spans. unfold spanOr. split.
  - intros -> -> ->. reflexivity.
  - intros window.
    destruct (String.eqb (sizeOf conf) "").
    + destruct (String.eqb (offsetOf conf) "").
      * intros [= <-]. cbn. repeat split; lia.
      * destruct (parseWindowSpan (offsetOf conf)) as [off [e|]]; [discriminate |].
        intros [= <-]. cbn. repeat split; lia.
    + destruct (parseWindowSpan (sizeOf conf)) as [sz [e|]]; [discriminate |].
      destruct (String.eqb (offsetOf conf) "").
      * intros [= <-]. cbn. repeat split; lia.
      * destruct (parseWindowSpan (offsetOf conf)) as [off [e|]]; [discriminate |].
        intros [= <-]. cbn. repeat split; lia.
Qed.

Lemma window_defaults_witness :
  Job.prepareWindow Job.zero
  = ({| Models.JobSpecTaskWindow.Size := 24 * Time.Hour;
        Models.JobSpecTaskWindow.Offset := 0;
        Models.JobSpecTaskWindow.TruncateTo := "d" |}, None).
Proof.
  apply (proj1 (window_defaults Job.zero)); reflexivity.
Defined.

Lemma eqb_empty_false (s : string) : s <> "" -> String.eqb s "" = false.
Proof. intros Hs. now apply String.eqb_neq. Qed.

Lemma spanOr_month (default d : Z) (s : string) :
  s <> "" -> tryParsingInMonths s = (d, None) -> spanOr default s = (d, None).
Proof.
  intros Hs Hm. unfold spanOr, parseWindowSpan.
  now rewrite (eqb_empty_false s Hs), Hm.
Qed.

Lemma spanOr_fallback (default : Z) (s : string) :
  s <> "" -> snd (tryParsingInMonths s) <> None ->
  spanOr default s = Time.ParseDuration s.
Proof.
  intros Hs Hm. unfold spanOr, parseWindowSpan.
  rewrite (eqb_empty_false s Hs).
  destruct (tryParsingInMonths s) as [d [e|]]; [reflexivity | now elim Hm].
Qed.

Lemma spanOr_error (default d : Z) (s : string) (e : error) :
  spanOr default s = (d, Some e) ->
  s <> "" /\ bothReject s /\ Time.ParseDuration s = (d, Some e).
Proof.
  unfold spanOr, parseWindowSpan, bothReject.
  destruct (String.eqb s "") eqn:Hs; [discriminate |].
  apply String.eqb_neq in Hs.
  destruct (tryParsingInMonths s) as [d1 [e1|]]; [| discriminate].
  intros ->. cbn. repeat split; auto; discriminate.
Qed.

(** C4.  For a size or an offset that is not empty, [prepareWindow] takes
    what the month grammar makes of the string whenever it accepts it,
    whatever [time.ParseDuration] would say; it takes what
    [time.ParseDuration] makes of it only when the month grammar has
    rejected the string; and it returns an error exactly when both have
    rejected the size, or (the size being settled) the offset. *)
Theorem month_grammar_first (conf : Job.t) :
  let window := fst (Job.prepareWindow conf) in
  let err := snd (Job.prepareWindow conf) in
  (sizeOf conf <> "" ->
     (forall d, tryParsingInMonths (sizeOf conf) = (d, None) ->
        Models.JobSpecTaskWindow.Size window = d)
     /\ (forall d, snd (tryParsingInMonths (sizeOf conf)) <> None ->
           Time.ParseDuration (sizeOf conf) = (d, None) ->
           Models.JobSpecTaskWindow.Size window = d)
     /\ (forall d e, snd (tryParsingInMonths (sizeOf conf)) <> None ->
           Time.ParseDuration (sizeOf conf) = (d, Some e) ->
           err = Some (sizeError conf e)))
  /\ (offsetOf conf <> "" -> snd (spanOr (Time.Hour * 24) (sizeOf conf)) = None ->
        (forall d, tryParsingInMonths (offsetOf conf) = (d, None) ->
           Models.JobSpecTaskWindow.Offset window = d)
        /\ (forall d, snd (tryParsingInMonths (offsetOf conf)) <> None ->
              Time.ParseDuration (offsetOf conf) = (d, None) ->
              Models.JobSpecTaskWindow.Offset window = d)
        /\ (forall d e, snd (tryParsingInMonths (offsetOf conf)) <> None ->
              Time.ParseDuration (offsetOf conf) = (d, Some e) ->
              err = Some (offsetError conf e)))
  /\ (err <> None <->
      (sizeOf conf <> "" /\ bothReject (sizeOf conf))
      \/ (snd (spanOr (Time.Hour * 24) (sizeOf conf)) = None
          /\ offsetOf conf <> "" /\ bothReject (offsetOf conf))).
Proof.
  cbv zeta. rewrite prepareWindow_spans. cbv zeta.
  split; [| split].
  - intros Hs. repeat split.
    + intros d Hm. rewrite (spanOr_month _ d _ Hs Hm).
      destruct (spanOr 0 (offsetOf conf)) as [off [e|]]; reflexivity.
    + intros d Hm Hp. rewrite (spanOr_fallback _ _ Hs Hm), Hp.
      destruct (spanOr 0 (offsetOf conf)) as [off [e|]]; reflexivity.
    + intros d e Hm Hp. rewrite (spanOr_fallback _ _ Hs Hm), Hp. reflexivity.
  - intros Ho Hsz.
    destruct (spanOr (Time.Hour * 24) (sizeOf conf)) as [sz [e|]]; [discriminate |].
    repeat split.
    + intros d Hm. rewrite (spanOr_month _ d _ Ho Hm). reflexivity.
    + intros d Hm Hp. rewrite (spanOr_fallback _ _ Ho Hm), Hp. reflexivity.
    + intros d e Hm Hp. rewrite (spanOr_fallback _ _ Ho Hm), Hp. reflexivity.
  - destruct (spanOr (Time.Hour * 24) (sizeOf conf)) as [sz [e|]] eqn:Hsz.
    + apply spanOr_error in Hsz as (Hs & Hb & _). cbn [snd]. split.
      * intros _. left. auto.
      * discriminate.
    + destruct (spanOr 0 (offsetOf conf)) as [off [e|]] eqn:Hoff.
      * apply spanOr_error in Hoff as (Ho & Hb & _). cbn [snd]. split.
        -- intros _. right. auto.
        -- discriminate.
      * cbn [snd]. split; [congruence |].
        intros [[Hs [Hm Hp]] | (_ & Ho & Hm & Hp)].
        -- rewrite (spanOr_fallback _ _ Hs Hm) in Hsz. now rewrite Hsz in Hp.
        -- rewrite (spanOr_fallback _ _ Ho Hm) in Hoff. now rewrite Hoff in Hp.
Qed.

Lemma month_grammar_first_witness :
  Models.JobSpecTaskWindow.Size
    (fst (Job.prepareWindow (jobWithWindow "1M12h" "24h" "d")))
  = 732 * Time.Hour
  /\ Models.JobSpecTaskWindow.Offset
       (fst (Job.prepareWindow (jobWithWindow "1M12h" "24h" "d")))
     = 24 * Time.Hour.
Proof.
  pose proof (month_grammar_first (jobWithWindow "1M12h" "24h" "d")) as H.
  cbv zeta in H. destruct H as (Hsize & Hoffset & _). split.
  - assert (Hs : sizeOf (jobWithWindow "1M12h" "24h" "d") <> "") by discriminate.
    destruct (Hsize Hs) as (Hmonth & _ & _).
    apply Hmonth. vm_compute. reflexivity.
  - assert (Ho : offsetOf (jobWithWindow "1M12h" "24h" "d") <> "") by discriminate.
    assert (Hsz : snd (spanOr (Time.Hour * 24)
                         (sizeOf (jobWithWindow "1M12h" "24h" "d"))) = None)
      by (vm_compute; reflexivity).
    destruct (Hoffset Ho Hsz) as (_ & Hfallback & _).
    apply Hfallback; [vm_compute; discriminate | vm_compute; reflexivity].
Defined.

Example DurationString_month :
  DurationString.String_ (720 * Time.Hour) = "720h0m0s"
  /\ DurationString.String_ (- (90 * Time.Minute + 1500 * Time.Millisecond)) = "-1h30m1.5s"
  /\ DurationString.String_ 1500 = String (ascii_of_N 49) (String "." (String "5" (String (ascii_of_N 194) (String (ascii_of_N 181) "s")))).
Proof. vm_compute. repeat split. Qed.

(** ** The adapter: when [ToSpec] succeeds *)

Section Adapter.
Context `{Models.Package} `{MapRange}.
Import Models.

(** [ToSpec] returns a domain object without error exactly when every one
    of its steps went through, and the object is made of their results. *)
Lemma ToSpec_ok_iff (adapt : JobSpecAdapter.t) (conf : Job.t) (spec : JobSpec.t) :
  JobSpecAdapter.ToSpec adapt conf = Returns (spec, None) <->
  exists startDate endDate hooks window execUnit taskConf,
    Time.Parse (JobSchedule.StartDate (Job.Schedule conf)) = (startDate, None)
    /\ parseEndDate (JobSchedule.EndDate (Job.Schedule conf)) = (endDate, None)
    /\ JobSpecAdapter.prepHooks (JobSpecAdapter.supportedHookRepo adapt)
         (Job.Hooks conf) [] = Returns (hooks, None)
    /\ Job.prepareWindow conf = (window, None)
    /\ TransformationRepo.GetByName (JobSpecAdapter.supportedTaskRepo adapt)
         (JobTask.Name (Job.Task conf)) = (execUnit, None)
    /\ JobSpecConfigFromYamlSlice (JobTask.Config (Job.Task conf)) = Returns taskConf
    /\ spec =
       {| JobSpec.Version := Job.Version conf;
          JobSpec.Name := Strings.TrimSpace (Job.Name conf);
          JobSpec.Owner := Job.Owner conf;
          JobSpec.Description := Job.Description conf;
          JobSpec.Labels := JobSpecAdapter.copyLabels (Job.Labels conf);
          JobSpec.Schedule :=
            {| JobSpecSchedule.StartDate := startDate;
               JobSpecSchedule.EndDate := endDate;
               JobSpecSchedule.Interval := JobSchedule.Interval (Job.Schedule conf) |};
          JobSpec.Behavior :=
            {| JobSpecBehavior.CatchUp := JobBehavior.Catchup (Job.Behavior conf);
               JobSpecBehavior.DependsOnPast :=
                 JobBehavior.DependsOnPast (Job.Behavior conf) |};
          JobSpec.Task :=
            {| JobSpecTask.Unit := execUnit;
               JobSpecTask.Config := taskConf;
               JobSpecTask.Window := window |};
          JobSpec.Assets := JobAssets.FromMap (Job.Asset conf);
          JobSpec.Dependencies :=
            JobSpecAdapter.prepDependencies (Job.Dependencies conf);
          JobSpec.Hooks := hooks |}.
Proof.
  unfold JobSpecAdapter.ToSpec, parseEndDate.
  destruct (Time.Parse (JobSchedule.StartDate (Job.Schedule conf)))
    as [startDate [e|]].
  { split; [discriminate |]. intros (? & ? & ? & ? & ? & ? & [=] & _). }
  destruct (String.eqb (JobSchedule.EndDate (Job.Schedule conf)) ""); cbn [negb].
  2: destruct (Time.Parse (JobSchedule.EndDate (Job.Schedule conf)))
       as [endDate [e|]].
  2: { split; [discriminate |]. intros (? & ? & ? & ? & ? & ? & _ & [=] & _). }
  all: unfold mbind, outcome_bind;
    (destruct (JobSpecAdapter.prepHooks _ _ _) as [[hooks [e|]]|why];
     [ split; [discriminate |]; intros (? & ? & ? & ? & ? & ? & _ & _ & [=] & _)
     | | split; [discriminate |]; intros (? & ? & ? & ? & ? & ? & _ & _ & [=] & _) ]);
    (destruct (Job.prepareWindow conf) as [window [e|]];
     [ split; [discriminate |]; intros (? & ? & ? & ? & ? & ? & _ & _ & _ & [=] & _) | ]);
    (destruct (TransformationRepo.GetByName _ _) as [execUnit [e|]];
     [ split; [discriminate |];
       intros (? & ? & ? & ? & ? & ? & _ & _ & _ & _ & [=] & _) | ]);
    (destruct (JobSpecConfigFromYamlSlice _) as [taskConf|why];
     [ | split; [discriminate |];
         intros (? & ? & ? & ? & ? & ? & _ & _ & _ & _ & _ & [=] & _) ]).
  all: split;
    [ intros [= <-]; repeat eexists
    | intros (? & ? & ? & ? & ? & ? & [= <-] & [= <-] & [= <-] & [= <-]
              & [= <-] & [= <-] & ->); reflexivity ].
Qed.

(** ** Dependencies *)

Lemma dependencyTypes_ne :
  JobSpecDependencyTypeIntra <> JobSpecDependencyTypeInter
  /\ JobSpecDependencyTypeIntra <> JobSpecDependencyTypeExtra
  /\ JobSpecDependencyTypeInter <> JobSpecDependencyTypeExtra.
Proof.
  pose proof dependencyTypes_differ as Hd.
  apply NoDup_cons in Hd as [H1 Hd]. apply NoDup_cons in Hd as [H2 _].
  repeat split; intros E; [apply H1 | apply H1 | apply H2]; rewrite E;
    repeat constructor.
Qed.

Lemma dependencyType_cases (ty : string) :
  (ty = JobSpecDependencyTypeIntra
   /\ JobSpecAdapter.dependencyType ty = JobSpecDependencyTypeIntra)
  \/ (ty = JobSpecDependencyTypeInter
      /\ JobSpecAdapter.dependencyType ty = JobSpecDependencyTypeInter)
  \/ (ty = JobSpecDependencyTypeExtra
      /\ JobSpecAdapter.dependencyType ty = JobSpecDependencyTypeExtra)
  \/ (ty <> JobSpecDependencyTypeIntra /\ ty <> JobSpecDependencyTypeInter
      /\ ty <> JobSpecDependencyTypeExtra
      /\ JobSpecAdapter.dependencyType ty = JobSpecDependencyTypeIntra).
Proof.
  unfold JobSpecAdapter.dependencyType.
  destruct (String.eqb_spec ty JobSpecDependencyTypeIntra) as [->|H1]; [tauto |].
  destruct (String.eqb_spec ty JobSpecDependencyTypeInter) as [->|H2]; [tauto |].
  destruct (String.eqb_spec ty JobSpecDependencyTypeExtra) as [->|H3]; tauto.
Qed.

Lemma prepDependencies_snoc (deps : list JobDependency.t) (dep : JobDependency.t) :
  JobSpecAdapter.prepDependencies (deps ++ [dep])
  = <[JobDependency.JobName dep :=
        {| JobSpecDependency.Type_ :=
             JobSpecAdapter.dependencyType (JobDependency.Type_ dep) |}]>
      (JobSpecAdapter.prepDependencies deps).
Proof. unfold JobSpecAdapter.prepDependencies. now rewrite fold_left_app. Qed.

(** The map of dependencies holds, for each job, the resolved type of the
    last entry that names it. *)
Lemma prepDependencies_lookup (deps : list JobDependency.t) (j : string) :
  JobSpecAdapter.prepDependencies deps !! j
  = (fun d => {| JobSpecDependency.Type_ :=
                   JobSpecAdapter.dependencyType (JobDependency.Type_ d) |})
    <$> entryFor j deps.
Proof.
  unfold entryFor.
  induction deps as [|dep deps IH] using rev_ind; [reflexivity |].
  rewrite prepDependencies_snoc, filter_app, filter_cons, filter_nil.
  destruct (decide (JobDependency.JobName dep = j)) as [<-|Hne].
  - rewrite lookup_insert_eq, last_snoc. reflexivity.
  - rewrite lookup_insert_ne by exact Hne. rewrite app_nil_r. exact IH.
Qed.

(** C5.  A dependency whose type is none of the three known ones (the
    empty string, ["bogus"]) is resolved to the intra-project type, and no
    step of [ToSpec] fails on it: a job that converts still converts when
    its dependencies are replaced by any others.  The three known strings,
    and only they, give their own types. *)
Theorem dependency_type_fallback :
  (forall ty : string,
      ty <> JobSpecDependencyTypeIntra -> ty <> JobSpecDependencyTypeInter ->
      ty <> JobSpecDependencyTypeExtra ->
      JobSpecAdapter.dependencyType ty = JobSpecDependencyTypeIntra)
  /\ (JobSpecAdapter.dependencyType JobSpecDependencyTypeIntra
        = JobSpecDependencyTypeIntra
      /\ forall ty, JobSpecAdapter.dependencyType ty = JobSpecDependencyTypeInter
                    <-> ty = JobSpecDependencyTypeInter)
  /\ (forall ty, JobSpecAdapter.dependencyType ty = JobSpecDependencyTypeExtra
                 <-> ty = JobSpecDependencyTypeExtra)
  /\ (forall (deps : list JobDependency.t) (j : string),
        JobSpecAdapter.prepDependencies deps !! j
        = (fun d => {| JobSpecDependency.Type_ :=
                         JobSpecAdapter.dependencyType (JobDependency.Type_ d) |})
          <$> entryFor j deps)
  /\ (forall (adapt : JobSpecAdapter.t) (conf : Job.t) (spec : JobSpec.t)
             (deps : list JobDependency.t),
        JobSpecAdapter.ToSpec adapt conf = Returns (spec, None) ->
        JobSpecAdapter.ToSpec adapt (withDependencies conf deps)
        = Returns (specWithDependencies spec
                     (JobSpecAdapter.prepDependencies deps), None)).
Proof.
  destruct dependencyTypes_ne as (N1 & N2 & N3).
  split; [| split; [split |]; [| | split; [| split]]].
  - intros ty H1 H2 H3.
    destruct (dependencyType_cases ty) as [[? ?]|[[? ?]|[[? ?]|(_ & _ & _ & ?)]]];
      congruence.
  - destruct (dependencyType_cases JobSpecDependencyTypeIntra)
      as [[? ?]|[[? ?]|[[? ?]|(? & _)]]]; congruence.
  - intros ty. destruct (dependencyType_cases ty)
      as [[? ?]|[[? ?]|[[? ?]|(? & ? & ? & ?)]]]; split; congruence.
  - intros ty. destruct (dependencyType_cases ty)
      as [[? ?]|[[? ?]|[[? ?]|(? & ? & ? & ?)]]]; split; congruence.
  - apply prepDependencies_lookup.
  - intros adapt conf spec deps Hok.
    apply ToSpec_ok_iff in Hok
      as (startDate & endDate & hooks & window & execUnit & taskConf
          & H1 & H2 & H3 & H4 & H5 & H6 & ->).
    apply ToSpec_ok_iff.
    exists startDate, endDate, hooks, window, execUnit, taskConf.
    repeat split; assumption.
Qed.

End Adapter.

Lemma dependency_type_fallback_witness :
  JobSpecAdapter.dependencyType "bogus" = "intra"
  /\ JobSpecAdapter.dependencyType "" = "intra".
Proof.
  destruct (@dependency_type_fallback examplePackage exampleRange) as (Hfallback & _).
  split; apply Hfallback; discriminate.
Defined.

(** ** Dates: [Format] undoes [Parse] *)

Lemma digitVal_range (c : ascii) : isDigit c = true -> 0 <= digitVal c <= 9.
Proof.
  unfold isDigit, digitVal. intros H.
  apply andb_true_iff in H as [Hlo Hhi]. apply Z.leb_le in Hlo, Hhi. lia.
Qed.

Lemma digitChar_digitVal (c : ascii) : isDigit c = true -> digitChar (digitVal c) = c.
Proof.
  intros H. pose proof (digitVal_range c H) as Hr.
  unfold digitChar, digitVal, code in *.
  replace (48 + (Z.of_N (N_of_ascii c) - 48)) with (Z.of_N (N_of_ascii c)) by lia.
  now rewrite N2Z.id, ascii_N_embedding.
Qed.

Lemma appendInt_two (n : Z) :
  0 <= n < 100 ->
  Time.appendInt n 2 = String (digitChar (n / 10)) (String (digitChar (n mod 10)) "").
Proof.
  intros Hn.
  assert (Hall : forallb (fun k : nat =>
            String.eqb (Time.appendInt (Z.of_nat k) 2)
              (String (digitChar (Z.of_nat k / 10))
                 (String (digitChar (Z.of_nat k mod 10)) "")))
            (List.seq 0 (Z.to_nat 100)) = true) by (vm_compute; reflexivity).
  rewrite forallb_forall in Hall.
  specialize (Hall (Z.to_nat n)). rewrite Z2Nat.id in Hall by lia.
  apply String.eqb_eq, Hall, in_seq. lia.
Qed.

Lemma appendInt_four (n : Z) :
  0 <= n < 10000 ->
  Time.appendInt n 4
  = String (digitChar (n / 1000))
      (String (digitChar (n / 100 mod 10))
         (String (digitChar (n / 10 mod 10)) (String (digitChar (n mod 10)) ""))).
Proof.
  intros Hn.
  assert (Hall : forallb (fun k : nat =>
            String.eqb (Time.appendInt (Z.of_nat k) 4)
              (String (digitChar (Z.of_nat k / 1000))
                 (String (digitChar (Z.of_nat k / 100 mod 10))
                    (String (digitChar (Z.of_nat k / 10 mod 10))
                       (String (digitChar (Z.of_nat k mod 10)) "")))))
            (List.seq 0 (Z.to_nat 10000)) = true) by (vm_compute; reflexivity).
  rewrite forallb_forall in Hall.
  specialize (Hall (Z.to_nat n)). rewrite Z2Nat.id in Hall by lia.
  apply String.eqb_eq, Hall, in_seq. lia.
Qed.

Lemma getnum2_inv (s : string) (n : Z) (rest : string) :
  Time.getnum2 s = Some (n, rest) ->
  exists a b, s = String a (String b rest) /\ isDigit a = true /\ isDigit b = true
              /\ n = digitVal a * 10 + digitVal b.
Proof.
  destruct s as [|a [|b r]]; cbn [Time.getnum2]; try discriminate.
  destruct (isDigit a) eqn:Ha; [| discriminate].
  destruct (isDigit b) eqn:Hb; [| discriminate].
  cbn [andb]. intros [= <- <-]. exists a, b. auto.
Qed.

Lemma skipDash_inv (s rest : string) :
  Time.skipDash s = Some rest -> s = String "-" rest.
Proof.
  destruct s as [|c r]; cbn [Time.skipDash]; [discriminate |].
  destruct (code c =? 45) eqn:Hc; [| discriminate].
  intros [= <-]. apply Z.eqb_eq, MonthExpFacts.ascii_of_code in Hc. now subst c.
Qed.

Lemma two_digits (a b : ascii) :
  isDigit a = true -> isDigit b = true ->
  Time.appendInt (digitVal a * 10 + digitVal b) 2 = String a (String b "").
Proof.
  intros Ha Hb.
  pose proof (digitVal_range a Ha). pose proof (digitVal_range b Hb).
  rewrite appendInt_two by lia.
  replace ((digitVal a * 10 + digitVal b) / 10) with (digitVal a)
    by (Z.div_mod_to_equations; lia).
  replace ((digitVal a * 10 + digitVal b) mod 10) with (digitVal b)
    by (Z.div_mod_to_equations; lia).
  now rewrite !digitChar_digitVal.
Qed.

(** A date that [Parse] accepts is written back by [Format] as it was. *)
Lemma Format_Parse (s : string) (d : Time.t) :
  Time.Parse s = (d, None) -> Time.Format d = s.
Proof.
  unfold Time.Parse.
  destruct s as [|y0 [|y1 [|y2 [|y3 v1]]]]; try discriminate.
  destruct (allDigits (String y0 (String y1 (String y2 (String y3 ""))))) eqn:Hy;
    cbn [negb]; [| discriminate].
  destruct (Time.skipDash v1) as [v2|] eqn:H1; [| discriminate].
  destruct (Time.getnum2 v2) as [[m v3]|] eqn:Hm; [| discriminate].
  destruct ((m <=? 0) || (12 <? m)); [discriminate |].
  destruct (Time.skipDash v3) as [v4|] eqn:H2; [| discriminate].
  destruct (Time.getnum2 v4) as [[dd v5]|] eqn:Hd; [| discriminate].
  destruct (String.eqb v5 "") eqn:H5; cbn [negb]; [| discriminate].
  destruct ((dd <? 1) || (Time.daysIn m _ <? dd)); [discriminate |].
  intros [= <-].
  apply String.eqb_eq in H5. subst v5.
  apply skipDash_inv in H1, H2. subst v1 v3.
  apply getnum2_inv in Hm as (m0 & m1 & -> & Hm0 & Hm1 & ->).
  apply getnum2_inv in Hd as (d0 & d1 & -> & Hd0 & Hd1 & ->).
  cbn [allDigits] in Hy. rewrite !andb_true_iff in Hy.
  destruct Hy as (Hy0 & Hy1 & Hy2 & Hy3 & _).
  unfold Time.Format. cbn [Time.year Time.month Time.day].
  rewrite !two_digits by assumption.
  pose proof (digitVal_range y0 Hy0). pose proof (digitVal_range y1 Hy1).
  pose proof (digitVal_range y2 Hy2). pose proof (digitVal_range y3 Hy3).
  unfold decimal. cbn [decimalFrom].
  set (n := (((0 * 10 + digitVal y0) * 10 + digitVal y1) * 10 + digitVal y2) * 10
            + digitVal y3).
  rewrite appendInt_four by (subst n; lia).
  replace (n / 1000) with (digitVal y0) by (subst n; Z.div_mod_to_equations; lia).
  replace (n / 100 mod 10) with (digitVal y1) by (subst n; Z.div_mod_to_equations; lia).
  replace (n / 10 mod 10) with (digitVal y2) by (subst n; Z.div_mod_to_equations; lia).
  replace (n mod 10) with (digitVal y3) by (subst n; Z.div_mod_to_equations; lia).
  rewrite !digitChar_digitVal by assumption.
  reflexivity.
Qed.

(** ** The adapter: there and back *)

Section RoundTrip.
Context `{Models.Package} `{MapRange}.
Import Models.

Lemma prepHooks_ok (repo : HookRepo.t) (hs : list JobHook.t)
    (acc hooks : list JobSpecHook.t) :
  hookRepoFaithful repo ->
  JobSpecAdapter.prepHooks repo hs acc = Returns (hooks, None) ->
  exists new,
    hooks = (acc ++ new)%list
    /\ Forall2 (fun h sh => exists unit, JobSpecHook.Unit sh = Some unit
                                         /\ HookUnit.Name unit = JobHook.Name h)
         hs new.
Proof.
  intros Hrepo. revert acc. induction hs as [|h hs IH]; intros acc; cbn [JobSpecAdapter.prepHooks].
  - intros [= <-]. exists []. rewrite app_nil_r. split; [reflexivity | constructor].
  - unfold JobHook.ToSpec, mbind, outcome_bind.
    destruct (HookRepo.GetByName repo (JobHook.Name h)) as [u [e|]] eqn:Hu;
      [discriminate |].
    destruct (JobSpecConfigFromYamlSlice (JobHook.Config h)) as [cfg|why];
      [| discriminate].
    intros Hrest. apply IH in Hrest as (new & -> & Hall).
    destruct (Hrepo _ _ Hu) as (unit & -> & Hname).
    eexists (_ :: new). rewrite <- app_assoc. split; [reflexivity |].
    constructor; [| exact Hall]. exists unit. auto.
Qed.

Lemma hooksFromSpec_ok (hs : list JobHook.t) (new : list JobSpecHook.t)
    (acc : list JobHook.t) :
  Forall2 (fun h sh => exists unit, JobSpecHook.Unit sh = Some unit
                                    /\ HookUnit.Name unit = JobHook.Name h)
    hs new ->
  exists out,
    JobSpecAdapter.hooksFromSpec new acc = Returns (acc ++ out)%list
    /\ map JobHook.Name out = map JobHook.Name hs.
Proof.
  intros Hall. revert acc.
  induction Hall as [|h sh hs new (unit & Hu & Hn) _ IH]; intros acc;
    cbn [JobSpecAdapter.hooksFromSpec].
  - exists []. now rewrite app_nil_r.
  - unfold JobHook.FromSpec, mbind, outcome_bind. rewrite Hu.
    destruct (IH (acc ++ [{| JobHook.Name := HookUnit.Name unit;
                             JobHook.Config :=
                               JobSpecConfigToYamlSlice (JobSpecHook.Config sh) |}])%list)
      as (out & -> & Hnames).
    eexists (_ :: out). rewrite <- app_assoc. split; [reflexivity |].
    cbn [map JobHook.Name]. now rewrite Hn, Hnames.
Qed.

Lemma fold_left_snoc_map {A B : Type} (f : A -> B) (l : list A) (acc : list B) :
  fold_left (fun (acc : list B) x => (acc ++ [f x])%list) l acc
  = (acc ++ map f l)%list.
Proof.
  revert acc. induction l as [|x l IH]; intros acc; cbn [fold_left map].
  - now rewrite app_nil_r.
  - rewrite IH, <- app_assoc. reflexivity.
Qed.

(** The list of dependencies that [FromSpec] writes. *)
Lemma dependencies_back (m : gmap string JobSpecDependency.t) :
  let back := map (fun kv : string * JobSpecDependency.t =>
                     {| JobDependency.JobName := kv.1;
                        JobDependency.Type_ :=
                          JobSpecDependencyType_String (JobSpecDependency.Type_ kv.2) |})
                (mapRange m) in
  NoDup (map JobDependency.JobName back)
  /\ forall j ty,
      {| JobDependency.JobName := j; JobDependency.Type_ := ty |} ∈ back
      <-> exists v, m !! j = Some v
                    /\ ty = JobSpecDependencyType_String (JobSpecDependency.Type_ v).
Proof.
  cbv zeta. split.
  - rewrite map_map. cbn [JobDependency.JobName].
    change (map (fun x : string * JobSpecDependency.t => x.1) (mapRange m))
      with ((mapRange m).*1).
    rewrite (mapRange_perm _ m). apply NoDup_fst_map_to_list.
  - intros j ty. rewrite list_elem_of_In, in_map_iff. split.
    + intros ([k v] & [= <- <-] & Hin). exists v. split; [| reflexivity].
      apply list_elem_of_In in Hin. rewrite (mapRange_perm _ m) in Hin.
      now apply elem_of_map_to_list in Hin.
    + intros (v & Hv & ->). exists (j, v). split; [reflexivity |].
      apply list_elem_of_In. rewrite (mapRange_perm _ m).
      now apply elem_of_map_to_list.
Qed.

Lemma entryFor_elem (deps : list JobDependency.t) (j : string) (d : JobDependency.t) :
  entryFor j deps = Some d -> d ∈ deps /\ JobDependency.JobName d = j.
Proof.
  unfold entryFor. intros Hl.
  apply last_Some in Hl as [l' Hl].
  assert (Hin : d ∈ filter (fun d => JobDependency.JobName d = j) deps).
  { rewrite Hl. apply elem_of_app. right. constructor. }
  now apply list_elem_of_filter in Hin as [? ?].
Qed.

Lemma filter_none {A : Type} (P : A -> Prop) `{forall x, Decision (P x)}
    (l : list A) :
  (forall y, y ∈ l -> ~ P y) -> filter P l = [].
Proof.
  induction l as [|x l IH]; intros Hl; [reflexivity |].
  rewrite filter_cons_False by (apply Hl; constructor).
  apply IH. intros y Hy. apply Hl. now constructor.
Qed.

Lemma entryFor_NoDup (deps : list JobDependency.t) (d : JobDependency.t) :
  NoDup (map JobDependency.JobName deps) -> d ∈ deps ->
  entryFor (JobDependency.JobName d) deps = Some d.
Proof.
  unfold entryFor. induction deps as [|x deps IH]; intros Hnd Hin.
  - inversion Hin.
  - cbn [map] in Hnd. apply NoDup_cons in Hnd as [Hx Hnd].
    rewrite filter_cons. apply elem_of_cons in Hin as [->|Hin].
    + rewrite decide_True by reflexivity.
      rewrite filter_none; [reflexivity |].
      intros y Hy Heq. apply Hx. rewrite <- Heq.
      apply list_elem_of_fmap. exists y. auto.
    + rewrite decide_False.
      * now apply IH.
      * intros Heq. apply Hx. rewrite Heq.
        apply list_elem_of_fmap. exists d. auto.
Qed.

(** C2, as the code has it.  A job that converts without error, the
    registries handing out the plugins they are asked for, converts back
    without error, and the job that comes back has the owner, the start
    and end dates, the two behaviour flags, the names of the hooks (in
    their order) and the name of the task of the first.  Its name is the
    name of the first without the white space around it.  Its
    dependencies name every job once, with the type to which the last
    entry for that job resolves, rendered by [String]; they are the
    dependencies of the first, in some order, when those name no job twice
    and their types are rendered as they were written. *)
Theorem round_trip (adapt : JobSpecAdapter.t) (conf : Job.t) (spec : JobSpec.t) :
  hookRepoFaithful (JobSpecAdapter.supportedHookRepo adapt) ->
  taskRepoFaithful (JobSpecAdapter.supportedTaskRepo adapt) ->
  JobSpecAdapter.ToSpec adapt conf = Returns (spec, None) ->
  exists back,
    JobSpecAdapter.FromSpec adapt spec = Returns (back, None)
    /\ Job.Name back = Strings.TrimSpace (Job.Name conf)
    /\ Job.Owner back = Job.Owner conf
    /\ JobSchedule.StartDate (Job.Schedule back)
       = JobSchedule.StartDate (Job.Schedule conf)
    /\ JobSchedule.EndDate (Job.Schedule back)
       = JobSchedule.EndDate (Job.Schedule conf)
    /\ Job.Behavior back = Job.Behavior conf
    /\ map JobHook.Name (Job.Hooks back) = map JobHook.Name (Job.Hooks conf)
    /\ JobTask.Name (Job.Task back) = JobTask.Name (Job.Task conf)
    /\ NoDup (map JobDependency.JobName (Job.Dependencies back))
    /\ (forall j ty,
          {| JobDependency.JobName := j; JobDependency.Type_ := ty |}
            ∈ Job.Dependencies back
          <-> exists d, entryFor j (Job.Dependencies conf) = Some d
                        /\ ty = JobSpecDependencyType_String
                                  (JobSpecAdapter.dependencyType
                                     (JobDependency.Type_ d)))
    /\ (NoDup (map JobDependency.JobName (Job.Dependencies conf)) ->
        (forall d, d ∈ Job.Dependencies conf ->
                   JobSpecDependencyType_String
                     (JobSpecAdapter.dependencyType (JobDependency.Type_ d))
                   = JobDependency.Type_ d) ->
        Job.Dependencies back ≡ₚ Job.Dependencies conf).
Proof.
  intros Hhook Htask Hok.
  apply ToSpec_ok_iff in Hok
    as (startDate & endDate & hooks & window & execUnit & taskConf
        & Hstart & Hend & Hhooks & Hwin & Hunit & Hconf & ->).
  destruct (Htask _ _ Hunit) as (unit & -> & Hname).
  destruct (prepHooks_ok _ _ _ _ Hhook Hhooks) as (new & -> & Hall).
  destruct (hooksFromSpec_ok _ _ [] Hall) as (out & Hout & Hnames).
  unfold JobSpecAdapter.FromSpec.
  cbn [JobSpec.Task JobSpecTask.Unit JobSpec.Hooks app].
  rewrite Hout. unfold mbind, outcome_bind. cbn [app].
  eexists. split; [reflexivity |].
  cbn [Job.Name Job.Owner Job.Schedule Job.Behavior Job.Hooks Job.Task
       Job.Dependencies JobSchedule.StartDate JobSchedule.EndDate JobTask.Name
       JobSpec.Name JobSpec.Owner JobSpec.Schedule JobSpec.Behavior
       JobSpec.Dependencies JobSpecSchedule.StartDate JobSpecSchedule.EndDate
       JobSpecBehavior.CatchUp JobSpecBehavior.DependsOnPast].
  rewrite fold_left_snoc_map. cbn [app].
  destruct (dependencies_back
              (JobSpecAdapter.prepDependencies (Job.Dependencies conf)))
    as [Hnd Hmem].
  assert (Hmem' : forall j ty,
    {| JobDependency.JobName := j; JobDependency.Type_ := ty |}
      ∈ map (fun kv : string * JobSpecDependency.t =>
               {| JobDependency.JobName := kv.1;
                  JobDependency.Type_ :=
                    JobSpecDependencyType_String (JobSpecDependency.Type_ kv.2) |})
          (mapRange (JobSpecAdapter.prepDependencies (Job.Dependencies conf)))
    <-> exists d, entryFor j (Job.Dependencies conf) = Some d
                  /\ ty = JobSpecDependencyType_String
                            (JobSpecAdapter.dependencyType (JobDependency.Type_ d))).
  { intros j ty. rewrite Hmem, prepDependencies_lookup.
    destruct (entryFor j (Job.Dependencies conf)) as [d|]; cbn.
    - split.
      + intros (v & [= <-] & ->). exists d. auto.
      + intros (d' & [= <-] & ->). eexists. split; reflexivity.
    - split; [intros (v & [=] & _) | intros (d' & [=] & _)]. }
  repeat split.
  - now apply Format_Parse.
  - unfold parseEndDate in Hend.
    destruct (String.eqb_spec (JobSchedule.EndDate (Job.Schedule conf)) "") as [E|E].
    + injection Hend as <-. now rewrite E.
    + destruct (Time.Parse (JobSchedule.EndDate (Job.Schedule conf)))
        as [e [err|]] eqn:Hp; [discriminate |].
      injection Hend as <-. now apply Format_Parse.
  - now destruct (Job.Behavior conf).
  - exact Hnames.
  - exact Hname.
  - exact Hnd.
  - apply Hmem'.
  - apply Hmem'.
  - intros Hnodup Hrender.
    apply NoDup_Permutation.
    + eapply NoDup_fmap_1. exact Hnd.
    + eapply NoDup_fmap_1. exact Hnodup.
    + intros [j ty]. rewrite Hmem'. split.
      * intros (d & Hd & ->). apply entryFor_elem in Hd as [Hin <-].
        rewrite (Hrender d Hin). now destruct d.
      * intros Hin. exists {| JobDependency.JobName := j; JobDependency.Type_ := ty |}.
        split.
        -- now apply (entryFor_NoDup _ _ Hnodup Hin).
        -- now rewrite (Hrender _ Hin).
Qed.

End RoundTrip.

Lemma round_trip_witness :
  exists spec back,
    JobSpecAdapter.ToSpec exampleAdapter examplePaddedJob = Returns (spec, None)
    /\ JobSpecAdapter.FromSpec exampleAdapter spec = Returns (back, None)
    /\ Job.Name back = "etl"
    /\ Job.Owner back = "data"
    /\ JobSchedule.StartDate (Job.Schedule back) = "2021-01-01".
Proof.
  assert (Hhook : hookRepoFaithful (JobSpecAdapter.supportedHookRepo exampleAdapter)).
  { intros n u. cbn. destruct (String.eqb_spec n "transporter") as [-> | _].
    - intros [= <-]. eexists. split; reflexivity.
    - discriminate. }
  assert (Htask : taskRepoFaithful (JobSpecAdapter.supportedTaskRepo exampleAdapter)).
  { intros n u. cbn. destruct (String.eqb_spec n "bq2bq") as [-> | _].
    - intros [= <-]. eexists. split; reflexivity.
    - discriminate. }
  eexists.
  assert (Hto : JobSpecAdapter.ToSpec exampleAdapter examplePaddedJob
                = Returns (_, None)) by (vm_compute; reflexivity).
  destruct (round_trip exampleAdapter examplePaddedJob _ Hhook Htask Hto)
    as (back & Hback & Hname & Howner & Hstart & _).
  exists back. split; [exact Hto |]. repeat split.
  - exact Hback.
  - rewrite Hname. vm_compute. reflexivity.
  - exact Howner.
  - exact Hstart.
Defined.

(** The claim C2 as it is stated fails on a valid job that converts: the
    name comes back without its leading space, and the dependency that
    left its type out comes back with the intra-project type. *)
Lemma round_trip_counterexample :
  Job.validate exampleIsCron examplePaddedJob = true
  /\ exists spec back,
      JobSpecAdapter.ToSpec exampleAdapter examplePaddedJob = Returns (spec, None)
      /\ JobSpecAdapter.FromSpec exampleAdapter spec = Returns (back, None)
      /\ Job.Name back <> Job.Name examplePaddedJob
      /\ Job.Dependencies back <> Job.Dependencies examplePaddedJob
      /\ ~ Job.Dependencies back ≡ₚ Job.Dependencies examplePaddedJob.
Proof.
  split; [vm_compute; reflexivity |].
  eexists. eexists.
  split; [vm_compute; reflexivity |].
  split; [vm_compute; reflexivity |].
  split; [discriminate |].
  split; [discriminate |].
  intros Hp. apply Permutation_singleton_r in Hp. discriminate.
Qed.

(** ** The adapter: plugins that are not registered *)

Section Unregistered.
Context `{Models.Package} `{MapRange}.
Import Models.

Lemma stringConfig_converts (conf : Yaml.MapSlice) :
  stringConfig conf -> exists cfg, JobSpecConfigFromYamlSlice conf = Returns cfg.
Proof.
  induction 1 as [|c conf (k & v & ->) _ [cfg IH]]; cbn [JobSpecConfigFromYamlSlice].
  - eexists; reflexivity.
  - unfold mbind, outcome_bind. cbn. rewrite IH. eexists; reflexivity.
Qed.

(** With strings only in the configurations, the loop over the hooks
    returns; it returns an error when a hook is not registered. *)
Lemma prepHooks_returns (repo : HookRepo.t) (hs : list JobHook.t)
    (acc : list JobSpecHook.t) :
  Forall (fun h => stringConfig (JobHook.Config h)) hs ->
  exists hooks err,
    JobSpecAdapter.prepHooks repo hs acc = Returns (hooks, err)
    /\ (Exists (fun h => hookUnregistered repo (JobHook.Name h)) hs -> err <> None).
Proof.
  intros Hs. revert acc.
  induction Hs as [|h hs Hh _ IH]; intros acc; cbn [JobSpecAdapter.prepHooks].
  - exists acc, None. split; [reflexivity |]. intros Hex. inversion Hex.
  - unfold JobHook.ToSpec, hookUnregistered in *.
    destruct (HookRepo.GetByName repo (JobHook.Name h)) as [u [e|]] eqn:Hu.
    + cbn. exists acc, (Some (ErrWrap e "spec reading error")).
      split; [reflexivity | discriminate].
    + destruct (stringConfig_converts _ Hh) as [cfg ->]. cbn.
      destruct (IH (acc ++ [{| JobSpecHook.Config := cfg; JobSpecHook.Unit := u |}])%list)
        as (hooks & err & -> & Herr).
      exists hooks, err. split; [reflexivity |].
      intros Hex. apply Exists_cons in Hex as [Hex|Hex]; [| auto].
      rewrite Hu in Hex. now elim Hex.
Qed.

(** What C6 states holds of every job whose hook configurations hold
    strings only. *)
Lemma ToSpec_unregistered (adapt : JobSpecAdapter.t) (conf : Job.t) :
  Forall (fun h => stringConfig (JobHook.Config h)) (Job.Hooks conf) ->
  taskUnregistered (JobSpecAdapter.supportedTaskRepo adapt)
    (JobTask.Name (Job.Task conf))
  \/ Exists (fun h => hookUnregistered (JobSpecAdapter.supportedHookRepo adapt)
                        (JobHook.Name h)) (Job.Hooks conf) ->
  exists err, JobSpecAdapter.ToSpec adapt conf = Returns (JobSpec.zero, Some err).
Proof.
  intros Hs Hun. unfold JobSpecAdapter.ToSpec.
  destruct (Time.Parse (JobSchedule.StartDate (Job.Schedule conf)))
    as [startDate [e|]]; [eexists; reflexivity |].
  destruct (negb (String.eqb (JobSchedule.EndDate (Job.Schedule conf)) "")).
  1: destruct (Time.Parse (JobSchedule.EndDate (Job.Schedule conf)))
       as [endDate [e|]]; [eexists; reflexivity |].
  all: destruct (prepHooks_returns (JobSpecAdapter.supportedHookRepo adapt)
                   (Job.Hooks conf) [] Hs) as (hooks & err & -> & Herr);
    unfold mbind, outcome_bind;
    (destruct err as [e|]; [eexists; reflexivity |]);
    (destruct (Job.prepareWindow conf) as [window [e|]]; [eexists; reflexivity |]);
    (destruct Hun as [Htask|Hhook]; [| now elim (Herr Hhook)]);
    unfold taskUnregistered in Htask;
    (destruct (TransformationRepo.GetByName _ _) as [execUnit [e|]];
     [eexists; reflexivity | now elim Htask]).
Qed.

(** C6.  A job with a task or a hook that is not registered gets an error
    and the empty [JobSpec] from [ToSpec], as long as the configurations of
    its hooks hold strings only.  Where a registered hook has a value that
    is no string in its configuration, the conversion of that
    configuration panics before the missing hook or the missing task is
    looked up: [ToSpec] then returns nothing, error or other. *)
Theorem unregistered_plugin_outcome :
  (forall (adapt : JobSpecAdapter.t) (conf : Job.t),
      Forall (fun h => stringConfig (JobHook.Config h)) (Job.Hooks conf) ->
      taskUnregistered (JobSpecAdapter.supportedTaskRepo adapt)
        (JobTask.Name (Job.Task conf))
      \/ Exists (fun h => hookUnregistered (JobSpecAdapter.supportedHookRepo adapt)
                            (JobHook.Name h)) (Job.Hooks conf) ->
      exists err, JobSpecAdapter.ToSpec adapt conf = Returns (JobSpec.zero, Some err))
  /\ (hookUnregistered (JobSpecAdapter.supportedHookRepo exampleAdapter) "missing"
      /\ JobSpecAdapter.ToSpec exampleAdapter exampleNumberInHookConfig
         = Panics "interface conversion: interface {} is not string")
  /\ (taskUnregistered (JobSpecAdapter.supportedTaskRepo exampleAdapter) "unknown"
      /\ JobSpecAdapter.ToSpec exampleAdapter exampleNumberInHookConfigNoTask
         = Panics "interface conversion: interface {} is not string").
Proof.
  split; [exact ToSpec_unregistered |].
  split; (split; [cbn; discriminate | reflexivity]).
Qed.

End Unregistered.

Lemma unregistered_plugin_outcome_witness :
  exists err,
    JobSpecAdapter.ToSpec exampleAdapter exampleMissingHook
    = Returns (Models.JobSpec.zero, Some err).
Proof.
  apply (proj1 (@unregistered_plugin_outcome examplePackage exampleRange)).
  - repeat constructor; eexists; eexists; reflexivity.
  - right. apply Exists_cons_tl, Exists_cons_hd. cbn. discriminate.
Defined.

(** ** The deployment session: runs *)

Module DeployFacts.
Import ITree.Core.ITreeDefinition.
Import ITree.Eq.Eqit ITree.Eq.UpToTaus ITree.Eq.Shallow.
Import Deploy DeployNotions.

Section Runs.
Context {FS Datastore ResourceProto JobProto Stream : Type}.

Abbreviation E := (@deployE FS Datastore ResourceProto JobProto Stream).
Abbreviation event := (@event FS Datastore ResourceProto JobProto Stream).

(** Runs do not tell apart programs that differ by silent steps. *)
Lemma after_eutt {R : Type} (t t' : itree E R) (tr : list event) (u u' : itree E R) :
  t ≈ t' -> u ≈ u' -> after t tr u -> after t' tr u'.
Proof.
  intros Ht Hu. destruct tr as [|[X e x] rest]; cbn [after].
  - intros Htu. now rewrite <- Ht, Htu.
  - intros (k & Hk & Hrest). exists k. split; [now rewrite <- Ht |].
    clear Hk Ht. revert Hrest. generalize (k x). clear k.
    induction rest as [|[Y e' y] rest IH]; cbn [after]; intros m.
    + intros Hm. now rewrite Hm.
    + intros (k' & Hk' & Hrest). exists k'. split; [exact Hk' | now apply IH].
Qed.

#[local] Instance after_proper {R : Type} :
  Proper (eutt eq ==> eq ==> eutt eq ==> iff) (@after FS Datastore ResourceProto JobProto Stream R).
Proof.
  intros t t' Ht tr tr' <- u u' Hu. split; apply after_eutt; auto; now symmetry.
Qed.

#[local] Instance completes_proper {R : Type} :
  Proper (eutt eq ==> eq ==> eq ==> iff)
    (@completes FS Datastore ResourceProto JobProto Stream R).
Proof.
  intros t t' Ht tr tr' <- r r' <-. unfold completes. now rewrite Ht.
Qed.

Lemma after_ret_inv {R : Type} (r : R) (tr : list event) (u : itree E R) :
  after (Ret r) tr u -> tr = [] /\ u ≈ Ret r.
Proof.
  destruct tr as [|[X e x] rest]; cbn [after].
  - intros Hu. split; [reflexivity | now symmetry].
  - intros (k & Hk & _). apply eqit_inv in Hk. cbn in Hk. contradiction.
Qed.

(** A program that begins with a call: nothing has happened yet, or the
    call has been answered and the run goes on with the answer. *)
Lemma after_call_inv {R X : Type} (e : E X) (k : X -> itree E R)
    (tr : list event) (u : itree E R) :
  after (let* x := call e in k x) tr u ->
  (tr = [] /\ u ≈ let* x := call e in k x)
  \/ exists x rest, tr = Ans e x :: rest /\ after (k x) rest u.
Proof.
  destruct tr as [|[Y e' y] rest]; cbn [after].
  - intros Hu. left. split; [reflexivity | now symmetry].
  - intros (k' & Hk' & Hrest). right.
    unfold call in Hk'. rewrite bind_trigger in Hk'.
    apply eqit_inv in Hk'. cbn in Hk'.
    destruct Hk' as (p & He & Hk). destruct p. cbn in He, Hk. subst e'.
    exists y, rest. split; [reflexivity |].
    eapply after_eutt; [symmetry; apply Hk | reflexivity | exact Hrest].
Qed.

Lemma after_call_intro {R X : Type} (e : E X) (k : X -> itree E R) (x : X)
    (rest : list event) (u : itree E R) :
  after (k x) rest u -> after (let* x := call e in k x) (Ans e x :: rest) u.
Proof.
  intros Hrest. cbn [after]. exists k. split; [| exact Hrest].
  unfold call. now rewrite bind_trigger.
Qed.

(** A run of [let* x := t in k x] stays within [t], or goes through a
    whole run of [t] and on into [k]. *)
Lemma after_bind_inv {A R : Type} (t : itree E A) (k : A -> itree E R)
    (tr : list event) (u : itree E R) :
  after (ITree.bind t k) tr u ->
  (exists u1, after t tr u1 /\ u ≈ ITree.bind u1 k)
  \/ exists tr1 x tr2,
      tr = (tr1 ++ tr2)%list /\ completes t tr1 x /\ after (k x) tr2 u.
Proof.
  revert t. induction tr as [|[X e x] rest IH]; intros t; cbn [after].
  - intros Hu. left. exists t. split; [reflexivity | now symmetry].
  - intros (k' & Hk' & Hrest).
    apply eutt_inv_bind_vis in Hk' as [(kt & Ht & Hkt) | (a & Ht & Hka)].
    + assert (Hrest' : after (ITree.bind (kt x) k) rest u).
      { eapply after_eutt; [symmetry; apply Hkt | reflexivity | exact Hrest]. }
      apply IH in Hrest' as [(u1 & Hu1 & Hu) | (tr1 & a & tr2 & -> & Hc & Hk2)].
      * left. exists u1. split; [| exact Hu]. exists kt. auto.
      * right. exists (Ans e x :: tr1), a, tr2. split; [reflexivity |].
        split; [| exact Hk2]. exists kt. auto.
    + right. exists [], a, (Ans e x :: rest). split; [reflexivity |].
      split; [exact Ht |]. exists k'. auto.
Qed.

Lemma after_bind_intro {A R : Type} (t : itree E A) (k : A -> itree E R)
    (tr1 tr2 : list event) (x : A) (u : itree E R) :
  completes t tr1 x -> after (k x) tr2 u ->
  after (ITree.bind t k) (tr1 ++ tr2) u.
Proof.
  revert t. induction tr1 as [|[X e y] tr1 IH]; intros t; unfold completes; cbn [after app].
  - intros Ht Hk. eapply after_eutt; [| reflexivity | exact Hk].
    rewrite Ht, bind_ret_l. reflexivity.
  - intros (kt & Ht & Hrest) Hk. exists (fun y => ITree.bind (kt y) k). split.
    + rewrite Ht, bind_vis. reflexivity.
    + now apply IH.
Qed.


Lemma snoc_cons_cases {A : Type} (pre : list A) (ev a : A) (rest : list A) :
  (pre ++ [ev])%list = a :: rest ->
  (pre = [] /\ a = ev /\ rest = [])
  \/ exists pre', pre = a :: pre' /\ rest = (pre' ++ [ev])%list.
Proof.
  destruct pre as [|b pre']; cbn [app].
  - intros [= <- <-]. left. auto.
  - intros [= <- <-]. right. eauto.
Qed.

Lemma snoc_app_cases {A : Type} (pre : list A) (ev : A) (tr1 tr2 : list A) :
  (pre ++ [ev])%list = (tr1 ++ tr2)%list ->
  (tr2 = [] /\ tr1 = (pre ++ [ev])%list)
  \/ exists pre2, tr2 = (pre2 ++ [ev])%list /\ pre = (tr1 ++ pre2)%list.
Proof.
  destruct tr2 as [|b tr2 _] using rev_ind.
  - rewrite app_nil_r. intros <-. left. auto.
  - rewrite app_assoc. intros Heq. apply app_inj_tail in Heq as [-> ->].
    right. eauto.
Qed.

(** *** Kinds of calls *)

Lemma emits_eutt {R : Type} (C : event -> Prop) (t t' : itree E R) :
  t ≈ t' -> Emits C t -> Emits C t'.
Proof.
  intros Ht Hq tr u Hrun. apply (Hq tr u).
  eapply after_eutt; [symmetry; exact Ht | reflexivity | exact Hrun].
Qed.

Lemma emits_ret {R : Type} (C : event -> Prop) (r : R) : Emits C (Ret r : itree E R).
Proof. intros tr u Hrun. apply after_ret_inv in Hrun as [-> _]. constructor. Qed.

Lemma emits_call {R X : Type} (C : event -> Prop) (e : E X) (k : X -> itree E R) :
  (forall x, C (Ans e x)) -> (forall x, Emits C (k x)) ->
  Emits C (let* x := call e in k x).
Proof.
  intros He Hk tr u Hrun.
  apply after_call_inv in Hrun as [[-> _] | (x & rest & -> & Hrest)].
  - constructor.
  - constructor; [apply He | now apply (Hk x rest u)].
Qed.

Lemma emits_trigger {X : Type} (C : event -> Prop) (e : E X) :
  (forall x, C (Ans e x)) -> Emits C (call e).
Proof.
  intros He. apply emits_eutt with (t := let* x := call e in Ret x).
  - rewrite bind_ret_r. reflexivity.
  - apply emits_call; [exact He | intros x; apply emits_ret].
Qed.

Lemma emits_bind {A R : Type} (C : event -> Prop) (t : itree E A)
    (k : A -> itree E R) :
  Emits C t -> (forall x, Emits C (k x)) -> Emits C (ITree.bind t k).
Proof.
  intros Ht Hk tr u Hrun.
  apply after_bind_inv in Hrun as [(u1 & Hu1 & _) | (tr1 & x & tr2 & -> & Hc & Hk2)].
  - now apply (Ht tr u1).
  - apply Forall_app. split; [now apply (Ht tr1 (Ret x)) | now apply (Hk x tr2 u)].
Qed.

(** A loop whose every turn makes a call. *)
Lemma emits_iter {I R : Type} (C : event -> Prop) (body : I -> itree E (I + R)) :
  (forall i, Emits C (body i)) ->
  (forall i j, ~ completes (body i) [] (inl j)) ->
  forall i, Emits C (ITree.iter body i).
Proof.
  intros Hbody Hturn i tr. revert i.
  induction tr as [tr IH] using (induction_ltof1 _ (@length event)). unfold ltof in IH.
  intros i u Hrun. rewrite unfold_iter in Hrun.
  apply after_bind_inv in Hrun as [(u1 & Hu1 & _) | (tr1 & x & tr2 & -> & Hc & Hk2)].
  - now apply (Hbody i tr u1).
  - apply Forall_app. split; [now apply (Hbody i tr1 (Ret x)) |].
    destruct x as [j | r].
    + rewrite tau_eutt in Hk2. apply (IH tr2) with (i := j) (u := u); [| exact Hk2].
      destruct tr1 as [|a tr1]; [now elim (Hturn i j) |].
      rewrite length_app. cbn [length]. lia.
    + apply after_ret_inv in Hk2 as [-> _]. constructor.
Qed.

(** *** Giving up *)

Lemma quiet_stops {R V : Type} (F : event -> option V) (tail : V -> itree E R)
    (t : itree E R) :
  Quiet F t -> Stops F tail t.
Proof.
  intros Hq pre ev v u Hrun Hev.
  apply Hq in Hrun. apply Forall_app in Hrun as [_ Hlast].
  apply Forall_cons in Hlast as [Hnone _]. congruence.
Qed.

Lemma stops_eutt {R V : Type} (F : event -> option V) (tail : V -> itree E R)
    (t t' : itree E R) :
  t ≈ t' -> Stops F tail t -> Stops F tail t'.
Proof.
  intros Ht Hs pre ev v u Hrun Hev. apply (Hs pre ev v u); [| exact Hev].
  eapply after_eutt; [symmetry; exact Ht | reflexivity | exact Hrun].
Qed.

(** A part that gives up, in a program that goes on only when it has
    not. *)
Lemma stops_bind {A R V : Type} (F : event -> option V)
    (tailT : V -> itree E A) (tailS : V -> itree E R)
    (t : itree E A) (k : A -> itree E R) :
  Stops F tailT t -> (forall x, Stops F tailS (k x)) ->
  (forall v, ITree.bind (tailT v) k ≈ tailS v) ->
  Stops F tailS (ITree.bind t k).
Proof.
  intros Ht Hk Htail pre ev v u Hrun Hev.
  apply after_bind_inv in Hrun as [(u1 & Hu1 & Hu) | (tr1 & x & tr2 & Heq & Hc & Hk2)].
  - rewrite Hu, (Ht pre ev v u1 Hu1 Hev). apply Htail.
  - apply snoc_app_cases in Heq as [[-> ->] | (pre2 & -> & ->)].
    + cbn [after] in Hk2. rewrite <- Hk2, <- (Htail v).
      rewrite <- (Ht pre ev v (Ret x) Hc Hev), bind_ret_l. reflexivity.
    + now apply (Hk x pre2 ev v u).
Qed.

(** A call that may be answered by a failure. *)
Lemma stops_call {R X V : Type} (F : event -> option V) (tail : V -> itree E R)
    (e : E X) (k : X -> itree E R) :
  (forall x v, F (Ans e x) = Some v -> k x ≈ tail v) ->
  (forall x, Stops F tail (k x)) ->
  Stops F tail (let* x := call e in k x).
Proof.
  intros He Hk pre ev v u Hrun Hev.
  apply after_call_inv in Hrun as [[Hnil _] | (x & rest & Heq & Hrest)].
  - now destruct pre.
  - apply snoc_cons_cases in Heq as [(-> & <- & ->) | (pre' & -> & ->)].
    + cbn [after] in Hrest. rewrite <- Hrest. now apply He.
    + now apply (Hk x pre' ev v u).
Qed.

(** A loop whose every turn makes a call and may give up. *)
Lemma stops_iter {I R V : Type} (F : event -> option V)
    (tailB : V -> itree E (I + R)) (tailS : V -> itree E R)
    (body : I -> itree E (I + R)) :
  (forall i, Stops F tailB (body i)) ->
  (forall i j, ~ completes (body i) [] (inl j)) ->
  (forall v, ITree.bind (tailB v)
               (fun lr => match lr with
                          | inl l => Tau (ITree.iter body l)
                          | inr r => Ret r
                          end) ≈ tailS v) ->
  forall i, Stops F tailS (ITree.iter body i).
Proof.
  intros Hbody Hturn Htail i pre. revert i.
  induction pre as [pre IH] using (induction_ltof1 _ (@length event)). unfold ltof in IH.
  intros i ev v u Hrun Hev. rewrite unfold_iter in Hrun.
  apply after_bind_inv in Hrun as [(u1 & Hu1 & Hu) | (tr1 & x & tr2 & Heq & Hc & Hk2)].
  - rewrite Hu, (Hbody i pre ev v u1 Hu1 Hev). apply Htail.
  - apply snoc_app_cases in Heq as [[-> ->] | (pre2 & -> & ->)].
    + cbn [after] in Hk2. rewrite <- Hk2, <- (Htail v).
      rewrite <- (Hbody i pre ev v (Ret x) Hc Hev), bind_ret_l. reflexivity.
    + destruct x as [j | r].
      * rewrite tau_eutt in Hk2. apply (IH pre2) with (i := j) (ev := ev) (v := v); [| exact Hk2 | exact Hev].
        destruct tr1 as [|a tr1]; [now elim (Hturn i j) |].
        rewrite length_app. cbn [length]. lia.
      * apply after_ret_inv in Hk2 as [Hnil _]. now destruct pre2.
Qed.

End Runs.

#[export] Existing Instance after_proper.
#[export] Existing Instance completes_proper.

End DeployFacts.

(** ** The deployment session: where it gives up *)

Module SessionFacts.
Import ITree.Core.ITreeDefinition.
Import ITree.Eq.Eqit ITree.Eq.UpToTaus ITree.Eq.Shallow.
Import Deploy DeployNotions DeployEndings DeployKinds DeployFacts.

Ltac quiet :=
  repeat first
    [ apply emits_ret
    | apply emits_call;
      [intros ?; first [reflexivity | exact I | cbn; tauto | idtac] | intros ?]
    | apply emits_trigger; intros ?; first [reflexivity | exact I | cbn; tauto | idtac]
    | match goal with
      | |- Emits _ (if ?b then _ else _) => destruct b
      | |- Emits _ (match ?x with _ => _ end) => destruct x
      end
    | apply emits_bind; [| intros ?] ].

Section Session.
Context {FS Datastore ResourceProto JobProto Stream : Type} `{MapRange}.
Variable ToResourceProto : ResourceSpec.t -> ResourceProto + error.
Variable ToJobProto : Models.JobSpec.t -> JobProto + error.

Abbreviation E := (@deployE FS Datastore ResourceProto JobProto Stream).
Abbreviation event := (@event FS Datastore ResourceProto JobProto Stream).
Abbreviation failureOf :=
  (@failure FS Datastore ResourceProto JobProto Stream ToResourceProto ToJobProto).

Lemma givesUpTurn_loop (body : Z -> itree E (Z + option error)) (v : bool * error) :
  ITree.bind (givesUpTurn v)
    (fun lr => match lr with
               | inl l => Tau (ITree.iter body l)
               | inr r => Ret r
               end) ≈ givesUp v.
Proof.
  unfold givesUpTurn, givesUp. rewrite bind_bind.
  apply eutt_eq_bind. intros _. rewrite bind_ret_l. reflexivity.
Qed.

Lemma givesUp_now (err : error) :
  (Ret (Some err) : itree E (option error)) ≈ givesUp (false, err).
Proof. unfold givesUp. cbn [fst snd]. rewrite bind_ret_l. reflexivity. Qed.

Lemma givesUpTurn_now (err : error) :
  (Ret (inr (Some err)) : itree E (Z + option error)) ≈ givesUpTurn (false, err).
Proof. unfold givesUpTurn. cbn [fst snd]. rewrite bind_ret_l. reflexivity. Qed.

Lemma call_not_ret {R X : Type} (e : E X) (k : X -> itree E R) (r : R) :
  ~ (let* x := call e in k x) ≈ Ret r.
Proof.
  unfold call. rewrite bind_trigger. intros Heq.
  apply eqit_inv in Heq. exact Heq.
Qed.

(** *** The loops that track the progress *)

Lemma resourceAck_turn (s : Stream) (total c j : Z) :
  ~ completes (resourceAck s total c : itree E _) [] (inl j).
Proof. apply call_not_ret. Qed.

Lemma jobAck_turn (s : Stream) (total c j : Z) :
  ~ completes (jobAck s total c : itree E _) [] (inl j).
Proof. apply call_not_ret. Qed.

Lemma stops_resourceAck (s : Stream) (total c : Z) :
  Stops failureOf givesUpTurn (resourceAck s total c).
Proof.
  unfold resourceAck. apply stops_call.
  - intros [resp | err] v; cbn.
    + destruct (Pb.DeployResourceSpecificationResponse.Ack resp); [| discriminate].
      destruct (Pb.DeployResourceSpecificationResponse.Success resp);
        cbn; [discriminate |].
      intros [= <-]. apply givesUpTurn_now.
    + destruct (isEOF err); [discriminate |].
      intros [= <-]. apply givesUpTurn_now.
  - intros x. apply quiet_stops. unfold Quiet. quiet.
Qed.

Lemma stops_trackResources (s : Stream) (total c : Z) :
  Stops failureOf givesUp (trackResources s total c).
Proof.
  unfold trackResources.
  apply stops_iter with (tailB := givesUpTurn).
  - apply stops_resourceAck.
  - apply resourceAck_turn.
  - apply givesUpTurn_loop.
Qed.

Lemma stops_jobAck (s : Stream) (total c : Z) :
  Stops failureOf givesUpTurn (jobAck s total c).
Proof.
  unfold jobAck. apply stops_call.
  - intros [resp | err] v; cbn.
    + destruct (Pb.DeployJobSpecificationResponse.Ack resp); [| discriminate].
      destruct (Pb.DeployJobSpecificationResponse.Success resp);
        cbn; [discriminate |].
      intros [= <-]. apply givesUpTurn_now.
    + destruct (isEOF err); [discriminate |].
      intros [= <-]. apply givesUpTurn_now.
  - intros x. apply quiet_stops. unfold Quiet. quiet.
Qed.

Lemma stops_trackJobs (s : Stream) (total c : Z) :
  Stops failureOf givesUp (trackJobs s total c).
Proof.
  unfold trackJobs.
  apply stops_iter with (tailB := givesUpTurn).
  - apply stops_jobAck.
  - apply jobAck_turn.
  - apply givesUpTurn_loop.
Qed.

(** *** The parts of the session *)

Lemma givesUp_bind (rest : itree E (option error)) (v : bool * error) :
  ITree.bind (givesUp v)
    (fun failed : option error =>
       match failed with
       | Some err => Ret (Some err)
       | None => rest
       end) ≈ givesUp v.
Proof.
  unfold givesUp. rewrite bind_bind.
  apply eutt_eq_bind. intros _. rewrite bind_ret_l. reflexivity.
Qed.

Lemma givesUp_deferred (v : bool * error) :
  ITree.bind (givesUp v) deferred ≈ (aborts v : itree E _).
Proof.
  unfold givesUp, aborts. rewrite bind_bind.
  apply eutt_eq_bind. intros _. rewrite bind_ret_l. reflexivity.
Qed.

Lemma stops_errExit {R : Type} (tail : bool * error -> itree E R) (err : error) :
  Stops failureOf tail (errExit err).
Proof.
  unfold errExit. apply stops_call.
  - intros [].
  - intros [].
Qed.

Lemma stops_deployStores (projectName : string) (stores : list (string * FS)) :
  Stops failureOf givesUp (deployStores ToResourceProto projectName stores).
Proof.
  induction stores as [|[storeName repoFS] rest IH]; cbn [deployStores].
  { apply quiet_stops, emits_ret. }
  apply stops_call; [intros x v; cbn; discriminate |].
  intros [ds | err]; [| apply stops_errExit].
  apply stops_call.
  { intros [specs | err] v; cbn; [| discriminate].
    destruct (adaptResources ToResourceProto specs []) as [adapted | err];
      [discriminate |].
    intros [= <-]. apply givesUp_now. }
  intros [specs | err]; [| apply stops_errExit].
  destruct (adaptResources ToResourceProto specs []) as [adapted | err];
    [| apply quiet_stops, emits_ret].
  apply stops_call.
  { intros [s | err] v; cbn; [discriminate |].
    intros [= <-]. reflexivity. }
  intros [s | err].
  - apply stops_bind with (tailT := givesUp).
    + apply stops_trackResources.
    + intros [err |]; [apply quiet_stops, emits_ret | exact IH].
    + intros v. apply givesUp_bind.
  - apply quiet_stops. unfold Quiet, printIfDeadline. quiet.
Qed.

Lemma stops_deployResources (projectName : string)
    (datastoreSpecFs : gmap string FS) (ignoreResources : bool) :
  Stops failureOf givesUp
    (deployResources ToResourceProto projectName datastoreSpecFs ignoreResources).
Proof.
  unfold deployResources. destruct ignoreResources; cbn [negb].
  - apply quiet_stops. unfold Quiet. quiet.
  - apply stops_bind with (tailT := givesUp).
    + apply stops_deployStores.
    + intros [err |]; apply quiet_stops; unfold Quiet; quiet.
    + intros v. apply givesUp_bind.
Qed.

Lemma stops_deployJobs (projectName : string) (ignoreJobDeployment : bool) :
  Stops failureOf givesUp (deployJobs ToJobProto projectName ignoreJobDeployment).
Proof.
  unfold deployJobs. destruct ignoreJobDeployment; cbn [negb].
  { apply quiet_stops. unfold Quiet. quiet. }
  apply stops_call; [intros x v; cbn; discriminate |]. intros _.
  apply stops_call.
  { intros [specs | err] v; cbn.
    - destruct (adaptJobs ToJobProto specs []) as [adapted | err]; [discriminate |].
      intros [= <-]. apply givesUp_now.
    - intros [= <-]. apply givesUp_now. }
  intros [specs | err]; [| apply quiet_stops, emits_ret].
  destruct (adaptJobs ToJobProto specs []) as [adapted | err];
    [| apply quiet_stops, emits_ret].
  apply stops_call.
  { intros [s | err] v; cbn; [discriminate |].
    intros [= <-]. reflexivity. }
  intros [s | err].
  - apply stops_bind with (tailT := givesUp).
    + apply stops_trackJobs.
    + intros [err |]; apply quiet_stops; unfold Quiet; quiet.
    + intros v. apply givesUp_bind.
  - apply quiet_stops. unfold Quiet, printIfDeadline. quiet.
Qed.

Lemma stops_deployAll (projectName : string) (datastoreSpecFs : gmap string FS)
    (ignoreJobDeployment ignoreResources : bool) :
  Stops failureOf givesUp
    (deployAll ToResourceProto ToJobProto projectName datastoreSpecFs
       ignoreJobDeployment ignoreResources).
Proof.
  unfold deployAll. apply stops_bind with (tailT := givesUp).
  - apply stops_deployResources.
  - intros [err |]; [apply quiet_stops, emits_ret |].
    apply stops_bind with (tailT := givesUp).
    + apply stops_deployJobs.
    + intros [err |]; apply quiet_stops; unfold Quiet; quiet.
    + intros v. apply givesUp_bind.
  - intros v. apply givesUp_bind.
Qed.

Lemma stops_session (projectName : string) (conf : Opctl.t)
    (datastoreSpecFs : gmap string FS)
    (ignoreJobDeployment ignoreResources : bool) :
  Stops failureOf givesUp
    (session ToResourceProto ToJobProto projectName conf datastoreSpecFs
       ignoreJobDeployment ignoreResources).
Proof.
  unfold session. apply stops_call.
  - intros answer v. unfold failure, registrationFailure.
    destruct (registrationError answer) as [err |]; [| cbn; discriminate].
    intros [= <-]. apply givesUp_now.
  - intros answer.
    destruct (registrationError answer) as [err |]; [apply quiet_stops, emits_ret |].
    apply stops_call; [intros x v; cbn; discriminate |]. intros _.
    apply stops_deployAll.
Qed.

(** Right after an answer on which the session gives up,
    [postDeploymentRequest] is left with the line about the time, where
    it is due, the deferred calls and the return of the error. *)
Lemma stops_postDeploymentRequest (projectName : string) (conf : Opctl.t)
    (datastoreSpecFs : gmap string FS)
    (ignoreJobDeployment ignoreResources : bool) :
  Stops failureOf aborts
    (postDeploymentRequest ToResourceProto ToJobProto projectName conf
       datastoreSpecFs ignoreJobDeployment ignoreResources).
Proof.
  unfold postDeploymentRequest. apply stops_call; [intros x v; cbn; discriminate |].
  intros [err |].
  - apply quiet_stops. unfold Quiet, printIfDeadline. quiet.
  - apply stops_bind with (tailT := givesUp).
    + apply stops_session.
    + intros err. apply quiet_stops. unfold Quiet, deferred. quiet.
    + intros v. apply givesUp_deferred.
Qed.

End Session.
End SessionFacts.

(** ** The deployment session: what each part calls *)

Module SessionKinds.
Import ITree.Core.ITreeDefinition.
Import ITree.Eq.Eqit ITree.Eq.UpToTaus ITree.Eq.Shallow.
Import Deploy DeployNotions DeployEndings DeployKinds DeployFacts SessionFacts.

Section Kinds.
Context {FS Datastore ResourceProto JobProto Stream : Type} `{MapRange}.
Variable ToResourceProto : ResourceSpec.t -> ResourceProto + error.
Variable ToJobProto : Models.JobSpec.t -> JobProto + error.

Abbreviation E := (@deployE FS Datastore ResourceProto JobProto Stream).
Abbreviation event := (@event FS Datastore ResourceProto JobProto Stream).

Lemma emits_weaken {R : Type} (C D : event -> Prop) (t : itree E R) :
  (forall ev, C ev -> D ev) -> Emits C t -> Emits D t.
Proof.
  intros Hcd Hc tr u Hrun. eapply Forall_impl; [apply (Hc tr u Hrun) | exact Hcd].
Qed.

Lemma inResources_not_job (ev : event) : inResources ev -> ~ jobEvent ev.
Proof. destruct ev as [X [] x]; cbn; try tauto. destruct line; tauto. Qed.

Lemma inJobs_not_resource (ev : event) : inJobs ev -> ~ resourceEvent ev.
Proof. destruct ev as [X [] x]; cbn; tauto. Qed.



Lemma inResources_not_registration (ev : event) : inResources ev -> ~ isRegistration ev.
Proof. destruct ev as [X [] x]; cbn; tauto. Qed.

Lemma inJobs_not_registration (ev : event) : inJobs ev -> ~ isRegistration ev.
Proof. destruct ev as [X [] x]; cbn; tauto. Qed.

Lemma inDeferred_not_registration (ev : event) : inDeferred ev -> ~ isRegistration ev.
Proof. destruct ev as [X [] x]; cbn; tauto. Qed.

Lemma emits_trackResources (s : Stream) (total c : Z) :
  Emits inResources (trackResources s total c : itree E _).
Proof.
  unfold trackResources. apply emits_iter.
  - intros i. unfold resourceAck. quiet.
  - intros i j. apply resourceAck_turn.
Qed.

Lemma emits_trackJobs (s : Stream) (total c : Z) :
  Emits inJobs (trackJobs s total c : itree E _).
Proof.
  unfold trackJobs. apply emits_iter.
  - intros i. unfold jobAck. quiet.
  - intros i j. apply jobAck_turn.
Qed.

Lemma emits_deployStores (projectName : string) (stores : list (string * FS)) :
  Emits inResources (deployStores ToResourceProto projectName stores : itree E _).
Proof.
  induction stores as [|[storeName repoFS] rest IH]; cbn [deployStores].
  { apply emits_ret. }
  apply emits_call; [intros ?; exact I |].
  intros [ds | err]; [| unfold errExit; quiet].
  apply emits_call; [intros ?; exact I |].
  intros [specs | err]; [| unfold errExit; quiet].
  destruct (adaptResources ToResourceProto specs []) as [adapted | err];
    [| apply emits_ret].
  apply emits_call; [intros ?; exact I |].
  intros [s | err]; [| unfold printIfDeadline; quiet].
  apply emits_bind; [apply emits_trackResources |].
  intros [err |]; [apply emits_ret | exact IH].
Qed.

Lemma emits_deployResources (projectName : string)
    (datastoreSpecFs : gmap string FS) (ignoreResources : bool) :
  Emits inResources
    (deployResources ToResourceProto projectName datastoreSpecFs ignoreResources
     : itree E _).
Proof.
  unfold deployResources. destruct ignoreResources; cbn [negb]; [quiet |].
  apply emits_bind; [apply emits_deployStores |].
  intros [err |]; quiet.
Qed.

Lemma emits_deployJobs (projectName : string) (ignoreJobDeployment : bool) :
  Emits inJobs (deployJobs ToJobProto projectName ignoreJobDeployment : itree E _).
Proof.
  unfold deployJobs. destruct ignoreJobDeployment; cbn [negb]; [quiet |].
  apply emits_call; [intros ?; exact I |]. intros _.
  apply emits_call; [intros ?; exact I |].
  intros [specs | err]; [| apply emits_ret].
  destruct (adaptJobs ToJobProto specs []) as [adapted | err]; [| apply emits_ret].
  apply emits_call; [intros ?; exact I |].
  intros [s | err]; [| unfold printIfDeadline; quiet].
  apply emits_bind; [apply emits_trackJobs |].
  intros [err |]; quiet.
Qed.

(** What follows the deployment of the resources. *)
Lemma emits_jobs_onwards (projectName : string) (ignoreJobDeployment : bool) :
  Emits inJobs
    (let* failed := deployJobs ToJobProto projectName ignoreJobDeployment in
     match failed with
     | Some err => Ret (Some err)
     | None => run call (Println LogCompleted) then Ret None
     end : itree E _).
Proof.
  apply emits_bind; [apply emits_deployJobs |].
  intros [err |]; quiet.
Qed.

Lemma emits_deferred (err : option error) :
  Emits inDeferred (deferred err : itree E _).
Proof. unfold deferred. quiet. Qed.

Lemma emits_deployAll (projectName : string) (datastoreSpecFs : gmap string FS)
    (ignoreJobDeployment ignoreResources : bool) :
  Emits (fun ev => inResources ev \/ inJobs ev)
    (deployAll ToResourceProto ToJobProto projectName datastoreSpecFs
       ignoreJobDeployment ignoreResources : itree E _).
Proof.
  unfold deployAll. apply emits_bind.
  - eapply emits_weaken; [| apply emits_deployResources]. tauto.
  - intros [err |]; [apply emits_ret |].
    eapply emits_weaken; [| apply emits_jobs_onwards]. tauto.
Qed.

(** *** The registration comes first *)

Lemma registration_first_in_session (projectName : string) (conf : Opctl.t)
    (datastoreSpecFs : gmap string FS) (ignoreJobDeployment ignoreResources : bool)
    (pre : list event) (ev : event) (u : itree E (option error)) :
  after (session ToResourceProto ToJobProto projectName conf datastoreSpecFs
           ignoreJobDeployment ignoreResources) (pre ++ [ev]) u ->
  isRegistration ev -> pre = [].
Proof.
  unfold session. intros Hrun Hev.
  apply after_call_inv in Hrun as [[Hnil _] | (a & rest & Heq & Hrest)];
    [now destruct pre |].
  apply snoc_cons_cases in Heq as [(-> & _ & _) | (pre' & -> & ->)]; [reflexivity |].
  exfalso.
  assert (Hq : Emits (fun ev => ~ isRegistration ev)
                 (match registrationError a with
                  | Some err => Ret (Some err)
                  | None =>
                      run call (Println LogUpdatedProject) then
                      deployAll ToResourceProto ToJobProto projectName
                        datastoreSpecFs ignoreJobDeployment ignoreResources
                  end : itree E _)).
  { destruct (registrationError a); [apply emits_ret |].
    apply emits_call; [intros ?; cbn; tauto | intros _].
    eapply emits_weaken; [| apply emits_deployAll].
    intros ev' [Hr | Hj];
      [now apply inResources_not_registration | now apply inJobs_not_registration]. }
  apply Hq in Hrest. apply Forall_app in Hrest as [_ Hlast].
  apply Forall_cons in Hlast as [Hno _]. contradiction.
Qed.

Lemma registration_second (projectName : string) (conf : Opctl.t)
    (datastoreSpecFs : gmap string FS) (ignoreJobDeployment ignoreResources : bool)
    (pre : list event) (ev : event) (u : itree E (option error)) :
  after (postDeploymentRequest ToResourceProto ToJobProto projectName conf
           datastoreSpecFs ignoreJobDeployment ignoreResources) (pre ++ [ev]) u ->
  isRegistration ev -> pre = [Ans (CreateConnection (Opctl.Host conf)) None].
Proof.
  unfold postDeploymentRequest. intros Hrun Hev.
  apply after_call_inv in Hrun as [[Hnil _] | (x & rest & Heq & Hrest)];
    [now destruct pre |].
  apply snoc_cons_cases in Heq as [(-> & Ha & ->) | (pre' & -> & ->)].
  { exfalso. rewrite <- Ha in Hev. exact Hev. }
  destruct x as [err |].
  - exfalso.
    assert (Hq : Emits (fun ev => ~ isRegistration ev)
                   (run printIfDeadline err LogCantReach then
                    run call DialCancel then Ret (Some err) : itree E _)).
    { unfold printIfDeadline. quiet. }
    apply Hq in Hrest. apply Forall_app in Hrest as [_ Hlast].
    apply Forall_cons in Hlast as [Hno _]. contradiction.
  - f_equal.
    apply after_bind_inv in Hrest
      as [(u1 & Hu1 & _) | (tr1 & r & tr2 & Heq & Hc & Hk2)].
    + eapply registration_first_in_session; eassumption.
    + apply snoc_app_cases in Heq as [[-> ->] | (pre2 & -> & ->)].
      * eapply registration_first_in_session; eassumption.
      * exfalso. apply emits_deferred in Hk2.
        apply Forall_app in Hk2 as [_ Hlast].
        apply Forall_cons in Hlast as [Hd _].
        now apply inDeferred_not_registration in Hd.
Qed.

Lemma aborts_now (err : error) :
  (aborts (false, err) : itree E _) ≈ deferred (Some err).
Proof. unfold aborts. cbn [fst snd]. rewrite bind_ret_l. reflexivity. Qed.

(** C8.  When [RegisterProject] is answered by an error of the
    transport, or by a response whose [success] is false, the run so far
    consists of the connection and the registration alone, and what
    remains of [postDeploymentRequest] is the deferred calls and the
    return of an error (the error of the transport wrapped, or one made
    of the message of the response): no request to deploy resources or
    jobs has been made, and none will be. *)
Theorem registration_gates_deployment (projectName : string) (conf : Opctl.t)
    (datastoreSpecFs : gmap string FS) (ignoreJobDeployment ignoreResources : bool)
    (pre : list event) (name : string) (config : gmap string string)
    (answer : Pb.RegisterProjectResponse.t + error)
    (u : itree E (option error)) :
  after (postDeploymentRequest ToResourceProto ToJobProto projectName conf
           datastoreSpecFs ignoreJobDeployment ignoreResources)
    (pre ++ [Ans (RegisterProject name config) answer]) u ->
  (exists cause, answer = inr cause)
  \/ (exists registerResponse,
        answer = inl registerResponse
        /\ Pb.RegisterProjectResponse.Success registerResponse = false) ->
  exists err,
    err = match answer with
          | inr cause => ErrWrap cause "failed to update project configurations"
          | inl registerResponse =>
              ErrNew ("failed to update project configurations, "
                      +:+ Pb.RegisterProjectResponse.Message registerResponse)
          end
    /\ pre = [Ans (CreateConnection (Opctl.Host conf)) None]
    /\ Forall (fun ev => ~ isDeployRequest ev) pre
    /\ u ≈ deferred (Some err)
    /\ forall tr u', after u tr u' ->
          Forall inDeferred tr /\ Forall (fun ev => ~ isDeployRequest ev) tr.
Proof.
  intros Hrun Hanswer. eexists. split; [reflexivity |].
  set (err := match answer with
              | inr cause => ErrWrap cause "failed to update project configurations"
              | inl registerResponse =>
                  ErrNew ("failed to update project configurations, "
                          +:+ Pb.RegisterProjectResponse.Message registerResponse)
              end).
  assert (Herr : registrationError answer = Some err).
  { destruct Hanswer as [[cause ->] | (registerResponse & -> & Hno)];
      [reflexivity |].
    unfold registrationError, err. now rewrite Hno. }
  assert (Hpre : pre = [Ans (CreateConnection (Opctl.Host conf)) None]).
  { eapply registration_second; [exact Hrun | exact I]. }
  assert (Hu : u ≈ deferred (Some err)).
  { rewrite <- aborts_now.
    eapply (stops_postDeploymentRequest ToResourceProto ToJobProto); [exact Hrun |].
    unfold failure, registrationFailure. now rewrite Herr. }
  split; [exact Hpre |]. split; [| split].
  - rewrite Hpre. constructor; [cbn; tauto | constructor].
  - exact Hu.
  - intros tr u' Hafter.
    assert (Hd : Forall inDeferred tr).
    { apply (emits_deferred (Some err) tr u').
      eapply after_eutt; [exact Hu | reflexivity | exact Hafter]. }
    split; [exact Hd |].
    eapply Forall_impl; [exact Hd |].
    intros [X [] x]; cbn; tauto.
Qed.

(** *** The acknowledgements *)

Lemma deferred_only (err : option error) (u : itree E (option error)) :
  u ≈ deferred err -> forall tr u', after u tr u' -> Forall inDeferred tr.
Proof.
  intros Hu tr u' Hafter. apply (emits_deferred err tr u').
  eapply after_eutt; [exact Hu | reflexivity | exact Hafter].
Qed.

(** A progress message in the loop for the resources: it is printed, and
    the loop goes on from the count it had. *)
Lemma progress_in_trackResources (s : Stream) (total c : Z)
    (resp : Pb.DeployResourceSpecificationResponse.t) (u : itree E (option error)) :
  Pb.DeployResourceSpecificationResponse.Ack resp = false ->
  after (trackResources s total c) [Ans (ResourceRecv s) (inl resp)] u ->
  u ≈ run call (Println (LogInfo
                           (Pb.DeployResourceSpecificationResponse.ResourceName resp)
                           (Pb.DeployResourceSpecificationResponse.Message resp)))
      then trackResources s total c.
Proof.
  intros Hack Hrun. unfold trackResources in *.
  rewrite unfold_iter in Hrun. unfold resourceAck at 1 in Hrun.
  rewrite bind_bind in Hrun.
  apply after_call_inv in Hrun as [[Hnil _] | (x & rest & Heq & Hrest)];
    [discriminate |].
  injection Heq as Heq <-. apply Eqdep.EqdepTheory.inj_pair2 in Heq. subst x.
  cbn [after] in Hrest. rewrite Hack in Hrest. rewrite <- Hrest.
  rewrite bind_bind. apply eutt_eq_bind. intros _.
  rewrite bind_ret_l, tau_eutt. reflexivity.
Qed.

Lemma progress_in_trackJobs (s : Stream) (total c : Z)
    (resp : Pb.DeployJobSpecificationResponse.t) (u : itree E (option error)) :
  Pb.DeployJobSpecificationResponse.Ack resp = false ->
  after (trackJobs s total c) [Ans (JobRecv s) (inl resp)] u ->
  u ≈ run call (Println (LogInfo (Pb.DeployJobSpecificationResponse.JobName resp)
                           (Pb.DeployJobSpecificationResponse.Message resp)))
      then trackJobs s total c.
Proof.
  intros Hack Hrun. unfold trackJobs in *.
  rewrite unfold_iter in Hrun. unfold jobAck at 1 in Hrun.
  rewrite bind_bind in Hrun.
  apply after_call_inv in Hrun as [[Hnil _] | (x & rest & Heq & Hrest)];
    [discriminate |].
  injection Heq as Heq <-. apply Eqdep.EqdepTheory.inj_pair2 in Heq. subst x.
  cbn [after] in Hrest. rewrite Hack in Hrest. rewrite <- Hrest.
  rewrite bind_bind. apply eutt_eq_bind. intros _.
  rewrite bind_ret_l, tau_eutt. reflexivity.
Qed.

(** C7.  In [postDeploymentRequest], right after a message of a stream
    that acknowledges a failure ([ack] true, [success] false) nothing is
    left but the deferred calls and the return of the error that names
    the item, its text being ["unable to deploy: "], the name of the
    item, a space and the message: no further message is read.  In
    either loop a message with [ack] false is printed and the loop goes
    on as it was, with the count it had: the stream is read further,
    nothing has failed, nothing has been counted. *)
Theorem acknowledgements (projectName : string) (conf : Opctl.t)
    (datastoreSpecFs : gmap string FS) (ignoreJobDeployment ignoreResources : bool) :
  (forall (pre : list event) (s : Stream) resp (u : itree E (option error)),
      after (postDeploymentRequest ToResourceProto ToJobProto projectName conf
               datastoreSpecFs ignoreJobDeployment ignoreResources)
        (pre ++ [Ans (ResourceRecv s) (inl resp)]) u ->
      Pb.DeployResourceSpecificationResponse.Ack resp = true ->
      Pb.DeployResourceSpecificationResponse.Success resp = false ->
      u ≈ deferred
            (Some (ErrNew
                     ("unable to deploy: "
                      +:+ Pb.DeployResourceSpecificationResponse.ResourceName resp
                      +:+ " "
                      +:+ Pb.DeployResourceSpecificationResponse.Message resp)))
      /\ forall (tr : list event) u', after u tr u' -> Forall inDeferred tr)
  /\ (forall (pre : list event) (s : Stream) resp (u : itree E (option error)),
        after (postDeploymentRequest ToResourceProto ToJobProto projectName conf
                 datastoreSpecFs ignoreJobDeployment ignoreResources)
          (pre ++ [Ans (JobRecv s) (inl resp)]) u ->
        Pb.DeployJobSpecificationResponse.Ack resp = true ->
        Pb.DeployJobSpecificationResponse.Success resp = false ->
        u ≈ deferred
              (Some (ErrNew
                       ("unable to deploy: "
                        +:+ Pb.DeployJobSpecificationResponse.JobName resp
                        +:+ " "
                        +:+ Pb.DeployJobSpecificationResponse.Message resp)))
        /\ forall (tr : list event) u', after u tr u' -> Forall inDeferred tr)
  /\ (forall s total c resp (u : itree E (option error)),
        Pb.DeployResourceSpecificationResponse.Ack resp = false ->
        after (trackResources s total c) [Ans (ResourceRecv s) (inl resp)] u ->
        u ≈ run call (Println (LogInfo
                                 (Pb.DeployResourceSpecificationResponse.ResourceName resp)
                                 (Pb.DeployResourceSpecificationResponse.Message resp)))
            then trackResources s total c)
  /\ (forall s total c resp (u : itree E (option error)),
        Pb.DeployJobSpecificationResponse.Ack resp = false ->
        after (trackJobs s total c) [Ans (JobRecv s) (inl resp)] u ->
        u ≈ run call (Println (LogInfo
                                 (Pb.DeployJobSpecificationResponse.JobName resp)
                                 (Pb.DeployJobSpecificationResponse.Message resp)))
            then trackJobs s total c).
Proof.
  split; [| split; [| split]].
  - intros pre s resp u Hrun Hack Hsuccess.
    assert (Hu : u ≈ deferred
                       (Some (ErrNew
                                ("unable to deploy: "
                                 +:+ Pb.DeployResourceSpecificationResponse.ResourceName
                                       resp
                                 +:+ " "
                                 +:+ Pb.DeployResourceSpecificationResponse.Message
                                       resp)))).
    { rewrite <- aborts_now.
      eapply (stops_postDeploymentRequest ToResourceProto ToJobProto); [exact Hrun |].
      cbn. now rewrite Hack, Hsuccess. }
    split; [exact Hu | exact (deferred_only _ _ Hu)].
  - intros pre s resp u Hrun Hack Hsuccess.
    assert (Hu : u ≈ deferred
                       (Some (ErrNew
                                ("unable to deploy: "
                                 +:+ Pb.DeployJobSpecificationResponse.JobName resp
                                 +:+ " "
                                 +:+ Pb.DeployJobSpecificationResponse.Message resp)))).
    { rewrite <- aborts_now.
      eapply (stops_postDeploymentRequest ToResourceProto ToJobProto); [exact Hrun |].
      cbn. now rewrite Hack, Hsuccess. }
    split; [exact Hu | exact (deferred_only _ _ Hu)].
  - apply progress_in_trackResources.
  - apply progress_in_trackJobs.
Qed.

(** *** Runs that return *)

Lemma completes_ret_inv {R : Type} (r r' : R) (tr : list event) :
  completes (Ret r : itree E R) tr r' -> tr = [] /\ r = r'.
Proof.
  intros Hrun. apply after_ret_inv in Hrun as [-> Hr].
  split; [reflexivity |]. symmetry. now apply eqit_inv_Ret in Hr.
Qed.

Lemma completes_call_inv {R X : Type} (e : E X) (k : X -> itree E R)
    (tr : list event) (r : R) :
  completes (let* x := call e in k x) tr r ->
  exists x rest, tr = Ans e x :: rest /\ completes (k x) rest r.
Proof.
  intros Hrun. apply after_call_inv in Hrun as [[_ Hu] | Hrun]; [| exact Hrun].
  exfalso. symmetry in Hu. now apply call_not_ret in Hu.
Qed.

Lemma completes_bind_inv {A R : Type} (t : itree E A) (k : A -> itree E R)
    (tr : list event) (r : R) :
  completes (ITree.bind t k) tr r ->
  exists tr1 a tr2,
    tr = (tr1 ++ tr2)%list /\ completes t tr1 a /\ completes (k a) tr2 r.
Proof.
  intros Hrun.
  apply after_bind_inv in Hrun as [(u1 & Hu1 & Hu) | (tr1 & a & tr2 & -> & Hc & Hk)].
  - symmetry in Hu. apply eutt_inv_bind_ret in Hu as (a & Ha & Hka).
    exists tr, a, []. rewrite app_nil_r. split; [reflexivity |]. split.
    + eapply after_eutt; [reflexivity | exact Ha | exact Hu1].
    + exact Hka.
  - exists tr1, a, tr2. auto.
Qed.

Lemma errExit_never {R : Type} (err : error) (tr : list event) (r : R) :
  ~ completes (errExit err : itree E R) tr r.
Proof.
  unfold errExit. intros Hrun.
  apply completes_call_inv in Hrun as ([] & _).
Qed.

Lemma isEOF_eq (err : error) : isEOF err = true -> err = ErrEOF.
Proof. destruct err; cbn; congruence. Qed.


(** The loop over the datastores returns without error only after it has
    tracked the stream of every datastore to the point where the tracking
    returns without error. *)
Lemma deployStores_run (projectName : string) (stores : list (string * FS)) :
  forall tr,
    completes (deployStores ToResourceProto projectName stores : itree E _) tr None ->
    storesRun ToResourceProto projectName stores tr.
Proof.
  induction stores as [|[storeName repoFS] rest IH]; intros tr Hrun;
    cbn [deployStores] in Hrun.
  { apply completes_ret_inv in Hrun as [-> _]. constructor. }
  apply completes_call_inv in Hrun as ([ds | err] & tr1 & -> & Hrun);
    [| now apply errExit_never in Hrun].
  apply completes_call_inv in Hrun as ([specs | err] & tr2 & -> & Hrun);
    [| now apply errExit_never in Hrun].
  destruct (adaptResources ToResourceProto specs []) as [adapted | err] eqn:Hadapt;
    [| now apply completes_ret_inv in Hrun as [_ [=]]].
  apply completes_call_inv in Hrun as ([s | err] & tr3 & -> & Hrun).
  - apply completes_bind_inv in Hrun as (tracked & [failed |] & others & -> & Ht & Hk).
    + now apply completes_ret_inv in Hk as [_ [=]].
    + econstructor; [exact Hadapt | exact Ht | now apply IH].
  - apply completes_bind_inv in Hrun as (? & ? & ? & _ & _ & Hk).
    now apply completes_ret_inv in Hk as [_ [=]].
Qed.

Lemma deployResources_run (projectName : string)
    (datastoreSpecFs : gmap string FS) (ignoreResources : bool) (tr : list event) :
  completes (deployResources ToResourceProto projectName datastoreSpecFs
               ignoreResources : itree E _) tr None ->
  (ignoreResources = true /\ tr = [Ans (Println LogSkippingResources) tt])
  \/ (ignoreResources = false
      /\ exists stores,
          storesRun ToResourceProto projectName (mapRange datastoreSpecFs) stores
          /\ tr = (stores ++ [Ans (Println LogDeployedResources) tt])%list).
Proof.
  unfold deployResources. destruct ignoreResources; cbn [negb]; intros Hrun.
  - left. split; [reflexivity |].
    apply completes_call_inv in Hrun as ([] & rest & -> & Hrun).
    now apply completes_ret_inv in Hrun as [-> _].
  - right. split; [reflexivity |].
    apply completes_bind_inv in Hrun as (stores & [failed |] & last & -> & Hs & Hk).
    + now apply completes_ret_inv in Hk as [_ [=]].
    + apply completes_call_inv in Hk as ([] & rest & -> & Hk).
      apply completes_ret_inv in Hk as [-> _].
      exists stores. split; [now apply deployStores_run | reflexivity].
Qed.

(** *** Resources, then jobs *)





End Kinds.
End SessionKinds.

(** ** The example session *)

Module DeployExampleFacts.
Import ITree.Core.ITreeDefinition.
Import ITree.Eq.Eqit ITree.Eq.UpToTaus ITree.Eq.Shallow.
Import Deploy DeployNotions DeployEndings DeployKinds DeployFacts SessionFacts.
Import DeployExample.

Lemma exampleStores_range :
  mapRange (MapRange := exampleRange) exampleStores = [("bigquery", tt)].
Proof. apply map_to_list_singleton. Qed.

(** The next call of a program, with its answer. *)
Ltac answered :=
  rewrite ?bind_bind; apply after_call_intro; cbn beta iota.

(** The session reaches the point where it holds the stream, and is then
    left with the tracking of the stream and what follows it. *)
Lemma example_up_to_stream (rest : list event) (u : itree E (option error)) :
  after (let* err :=
           (let* failed :=
              (let* failed :=
                 (let* failed := trackResources tt 0 0 in
                  match failed with
                  | Some err => Ret (Some err)
                  | None => Ret None
                  end) in
               match failed with
               | Some err => Ret (Some err)
               | None => run call (Println LogDeployedResources) then Ret None
               end) in
            match failed with
            | Some err => Ret (Some err)
            | None =>
                let* failed := deployJobs exampleToJobProto "project" false in
                match failed with
                | Some err => Ret (Some err)
                | None => run call (Println LogCompleted) then Ret None
                end
            end) in
         deferred err) rest u ->
  after exampleSession (exampleUpToStream ++ rest) u.
Proof.
  intros Hrest.
  unfold exampleSession, postDeploymentRequest, exampleUpToStream. cbn [app].
  answered. unfold session. answered.
  change (registrationError (inl exampleRegistered)) with (@None error).
  cbn beta iota. answered.
  unfold deployAll, deployResources. cbn [negb].
  rewrite exampleStores_range. cbn [deployStores].
  answered. answered. cbn [adaptResources]. answered.
  cbn [length Z.of_nat deployStores].
  eapply after_eutt; [| reflexivity | exact Hrest].
  rewrite !bind_bind. reflexivity.
Qed.

(** One turn of the tracking loop of the resources. *)
Ltac turn :=
  unfold trackResources; rewrite unfold_iter; unfold resourceAck at 1;
  fold (trackResources (Stream := unit) (FS := unit) (Datastore := unit)
          (ResourceProto := unit) (JobProto := unit)).

Lemma example_refused :
  after exampleSession
    (exampleUpToStream ++ [Ans (ResourceRecv tt) (inl exampleRefused)])
    (deferred (Some (unableToDeploy "events" "quota exceeded"))).
Proof.
  apply example_up_to_stream. turn. answered.
  cbn [exampleRefused Pb.DeployResourceSpecificationResponse.Ack
       Pb.DeployResourceSpecificationResponse.Success
       Pb.DeployResourceSpecificationResponse.ResourceName
       Pb.DeployResourceSpecificationResponse.Message negb after].
  rewrite !bind_ret_l. reflexivity.
Qed.

Lemma example_progress :
  after (trackResources tt 0 0 : itree E _)
    [Ans (ResourceRecv tt) (inl exampleProgress)]
    (run call (Println (LogInfo "events" "creating")) then trackResources tt 0 0).
Proof.
  turn. answered.
  cbn [exampleProgress Pb.DeployResourceSpecificationResponse.Ack
       Pb.DeployResourceSpecificationResponse.ResourceName
       Pb.DeployResourceSpecificationResponse.Message after].
  rewrite bind_bind. apply eutt_eq_bind. intros _.
  rewrite bind_ret_l, tau_eutt. reflexivity.
Qed.

Lemma example_registration_refused :
  after exampleSession
    ([Ans (CreateConnection "localhost:9100") None]
     ++ [Ans (RegisterProject "project" ∅) (inr exampleUnavailable)])
    (deferred (Some (ErrWrap exampleUnavailable
                       "failed to update project configurations"))).
Proof.
  unfold exampleSession, postDeploymentRequest. cbn [app].
  answered. unfold session. answered.
  cbn [registrationError after]. rewrite bind_ret_l. reflexivity.
Qed.

Ltac settle := repeat (rewrite ?bind_bind, ?bind_ret_l; cbn beta iota).

Lemma example_whole_run : completes exampleSession exampleWholeRun None.
Proof.
  unfold completes.
  change exampleWholeRun
    with (exampleUpToStream
          ++ Ans (ResourceRecv tt) (inr ErrEOF)
             :: Ans (Println LogDeployedResources) tt :: exampleJobsRun)%list.
  apply example_up_to_stream. turn. answered. cbn [isEOF]. settle.
  answered. settle.
  unfold deployJobs, exampleJobsRun. cbn [negb].
  answered. answered. cbn [adaptJobs]. answered.
  unfold trackJobs. rewrite unfold_iter. unfold jobAck at 1.
  answered. cbn [isEOF]. settle.
  answered. settle. answered. settle.
  unfold deferred. answered. answered. answered.
  cbn [after]. reflexivity.
Qed.

Lemma example_registration_rejected :
  after exampleSession
    ([Ans (CreateConnection "localhost:9100") None]
     ++ [Ans (RegisterProject "project" ∅) (inl exampleRejected)])
    (deferred (Some (ErrNew
                       "failed to update project configurations, unknown project"))).
Proof.
  unfold exampleSession, postDeploymentRequest. cbn [app].
  answered. unfold session. answered.
  cbn [registrationError exampleRejected Pb.RegisterProjectResponse.Success
       Pb.RegisterProjectResponse.Message negb after].
  rewrite bind_ret_l. reflexivity.
Qed.

(** The registration of the example session is refused by the transport,
    or answered with [success] false: either way the deferred calls are
    all that follows. *)
Lemma registration_gates_deployment_witness :
  (after exampleSession
     ([Ans (CreateConnection "localhost:9100") None]
      ++ [Ans (RegisterProject "project" ∅) (inr exampleUnavailable)])
     (deferred (Some (ErrWrap exampleUnavailable
                        "failed to update project configurations")))
   /\ forall (tr : list event) (u' : itree E (option error)),
        after (deferred (Some (ErrWrap exampleUnavailable
                                 "failed to update project configurations")))
          tr u' ->
        Forall inDeferred tr /\ Forall (fun ev => ~ isDeployRequest ev) tr)
  /\ (Pb.RegisterProjectResponse.Success exampleRejected = false
      /\ after exampleSession
           ([Ans (CreateConnection "localhost:9100") None]
            ++ [Ans (RegisterProject "project" ∅) (inl exampleRejected)])
           (deferred
              (Some (ErrNew
                       "failed to update project configurations, unknown project")))
      /\ forall (tr : list event) (u' : itree E (option error)),
           after (deferred
                    (Some (ErrNew
                             "failed to update project configurations, unknown project")))
             tr u' ->
           Forall inDeferred tr /\ Forall (fun ev => ~ isDeployRequest ev) tr).
Proof.
  split.
  - split; [exact example_registration_refused |].
    destruct (SessionKinds.registration_gates_deployment (H := exampleRange)
                exampleToResourceProto exampleToJobProto "project" exampleConf
                exampleStores false false
                [Ans (CreateConnection "localhost:9100") None] "project" ∅
                (inr exampleUnavailable) _ example_registration_refused
                (or_introl (ex_intro _ exampleUnavailable eq_refl)))
      as (err & -> & _ & _ & _ & Hafter).
    exact Hafter.
  - split; [reflexivity |]. split; [exact example_registration_rejected |].
    destruct (SessionKinds.registration_gates_deployment (H := exampleRange)
                exampleToResourceProto exampleToJobProto "project" exampleConf
                exampleStores false false
                [Ans (CreateConnection "localhost:9100") None] "project" ∅
                (inl exampleRejected) _ example_registration_rejected
                (or_intror (ex_intro _ exampleRejected (conj eq_refl eq_refl))))
      as (err & -> & _ & _ & _ & Hafter).
    exact Hafter.
Defined.

(** The first message of the stream of the example session acknowledges a
    failure: the deferred calls are all that follows.  A progress message
    leaves the loop where it was. *)
Lemma acknowledgements_witness :
  Pb.DeployResourceSpecificationResponse.Ack exampleRefused = true
  /\ Pb.DeployResourceSpecificationResponse.Success exampleRefused = false
  /\ after exampleSession
       (exampleUpToStream ++ [Ans (ResourceRecv tt) (inl exampleRefused)])
       (deferred (Some (ErrNew "unable to deploy: events quota exceeded")))
  /\ (forall (tr : list event) (u' : itree E (option error)),
        after (deferred (Some (ErrNew "unable to deploy: events quota exceeded"))) tr u' ->
        Forall inDeferred tr)
  /\ Pb.DeployResourceSpecificationResponse.Ack exampleProgress = false
  /\ after (trackResources tt 0 0 : itree E _)
       [Ans (ResourceRecv tt) (inl exampleProgress)]
       (run call (Println (LogInfo "events" "creating")) then trackResources tt 0 0).
Proof.
  destruct (SessionKinds.acknowledgements (Datastore := unit) (Stream := unit)
              (H := exampleRange)
              exampleToResourceProto exampleToJobProto "project" exampleConf
              exampleStores false false) as (Hrefused & _ & Hprogress & _).
  split; [reflexivity |]. split; [reflexivity |].
  split; [exact example_refused |].
  split; [exact (proj2 (Hrefused _ tt exampleRefused _ example_refused
                          eq_refl eq_refl)) |].
  split; [reflexivity |].
  eapply after_eutt; [reflexivity | | exact example_progress].
  symmetry. exact (Hprogress tt 0 0 exampleProgress _ eq_refl example_progress).
Defined.


End DeployExampleFacts.

(** * Further properties of the code *)

(** ** The month notation *)

Section MonthNotation.
Import MonthExp MonthExpFacts.

Lemma hasMonthToken_cons (c : ascii) (r : string) :
  hasMonthToken r = true -> hasMonthToken (String c r) = true.
Proof.
  destruct r as [|m r]; [discriminate |]. intros Hr.
  cbn [hasMonthToken] in *. rewrite Hr. apply orb_true_r.
Qed.

Lemma hasMonthToken_app_r (a b : string) :
  hasMonthToken b = true -> hasMonthToken (a +:+ b) = true.
Proof.
  intros Hb. induction a as [|c a IH]; str_simpl; [exact Hb |].
  now apply hasMonthToken_cons.
Qed.

Lemma hasMonthToken_digits (d rest : string) :
  allDigits d = true -> d <> "" -> hasMonthToken (d +:+ "M" +:+ rest) = true.
Proof.
  induction d as [|c d IH]; [congruence |]. intros Hd _.
  cbn [allDigits] in Hd. apply andb_true_iff in Hd as [Hc Hd].
  destruct d as [|c' d].
  - str_simpl. cbn [hasMonthToken]. rewrite Hc. reflexivity.
  - rewrite append_cons. apply hasMonthToken_cons. apply IH; [exact Hd | discriminate].
Qed.

Lemma matchHead_hasMonthToken (s : string) (m : list string) (rest : string) :
  matchHead s = Some (m, rest) -> hasMonthToken s = true.
Proof.
  intros Hm. apply matchHead_split in Hm as (sg & d & _ & -> & _ & Hd & Hne).
  rewrite !append_assoc. apply hasMonthToken_app_r.
  now apply hasMonthToken_digits.
Qed.

Lemma nomatch_head (c : ascii) (r : string) :
  matchHead (String c r) = None ->
  hasMonthToken (String c r) = hasMonthToken r.
Proof.
  intros Hm. destruct r as [|m r]; [reflexivity |].
  cbn [hasMonthToken].
  destruct (isDigit c) eqn:Hc; [| reflexivity].
  destruct (code m =? 77) eqn:HM; [| reflexivity].
  exfalso. assert (HmM : m = "M"%char) by (apply Z.eqb_eq, ascii_of_code in HM; exact HM).
  subst m.
  assert (Hhead : matchHead (String c (String "M" r))
                 = Some ([String c "" +:+ "M"; ""; String c ""; "M"], r)).
  { apply (matchHead_digits (String c "") r); [| discriminate].
    cbn [allDigits]. now rewrite Hc. }
  rewrite Hhead in Hm. discriminate.
Qed.

(** The expression matches somewhere in [s] exactly when a digit is
    directly followed by [M]; every match has its four groups. *)
Lemma FindAll_nil_iff (s : string) :
  FindAllStringSubmatch s = [] <-> hasMonthToken s = false.
Proof.
  induction s as [|c r IH]; [split; reflexivity |].
  destruct (matchHead (String c r)) as [[m rest]|] eqn:Hm.
  - rewrite (FindAll_match _ _ _ Hm), (matchHead_hasMonthToken _ _ _ Hm).
    split; discriminate.
  - rewrite (FindAll_nomatch _ _ Hm), (nomatch_head _ _ Hm). exact IH.
Qed.

Lemma FindAll_head (s : string) (m : list string) (ms : list (list string)) :
  FindAllStringSubmatch s = m :: ms -> length m = 4%nat.
Proof.
  induction s as [|c r IH]; [discriminate |].
  destruct (matchHead (String c r)) as [[m' rest]|] eqn:Hm.
  - rewrite (FindAll_match _ _ _ Hm). intros [= <- _].
    apply matchHead_split in Hm as (sg & d & -> & _). reflexivity.
  - rewrite (FindAll_nomatch _ _ Hm). exact IH.
Qed.

Lemma ReplaceAll_none (s : string) :
  hasMonthToken s = false -> ReplaceAllString_empty s = s.
Proof.
  induction s as [|c r IH]; [reflexivity |]. intros Hs.
  destruct (matchHead (String c r)) as [[m rest]|] eqn:Hm.
  - rewrite (matchHead_hasMonthToken _ _ _ Hm) in Hs. discriminate.
  - rewrite (ReplaceAll_nomatch _ _ Hm). f_equal. apply IH.
    now rewrite <- (nomatch_head _ _ Hm).
Qed.

End MonthNotation.

(** X1.  [tryParsingInMonths] answers with [ErrNotAMonthDuration], and
    the span 0, exactly for the strings in which no digit is directly
    followed by the letter [M]; for every other string its error, if
    any, is another one.  The letter is the capital one: ["1m"] is no
    month, and neither are ["M"] and ["1 M"]. *)
Theorem month_notation_iff (s : string) :
  (hasMonthToken s = false
   <-> snd (tryParsingInMonths s) = Some ErrNotAMonthDuration)
  /\ (hasMonthToken s = false
      -> tryParsingInMonths s = (0, Some ErrNotAMonthDuration))
  /\ hasMonthToken "1m" = false /\ hasMonthToken "M" = false
  /\ hasMonthToken "1 M" = false /\ hasMonthToken "x-12M" = true.
Proof.
  assert (Hno : hasMonthToken s = false
                -> tryParsingInMonths s = (0, Some ErrNotAMonthDuration)).
  { intros Hs. apply FindAll_nil_iff in Hs. unfold tryParsingInMonths.
    now rewrite Hs. }
  split; [| split; [exact Hno | repeat split]].
  split; [intros Hs; now rewrite (Hno Hs) |].
  destruct (hasMonthToken s) eqn:Hs; [| reflexivity]. intros Herr. exfalso.
  unfold tryParsingInMonths in Herr.
  destruct (MonthExp.FindAllStringSubmatch s) as [|m ms] eqn:Hall.
  { apply FindAll_nil_iff in Hall. congruence. }
  apply FindAll_head in Hall. cbn [length nth Nat.ltb Nat.leb andb] in Herr.
  rewrite Hall in Herr. cbn [Nat.eqb] in Herr.
  destruct (Strconv.Atoi _) as [n [e|]]; [discriminate |].
  cbv zeta in Herr.
  destruct (String.length (Strings.TrimSpace _)); [discriminate |].
  destruct (Time.ParseDuration _) as [t [e|]]; discriminate.
Qed.

Lemma length_pos_eqb (s : string) :
  (0 <? String.length s)%nat = negb (String.eqb s "").
Proof. destruct s; reflexivity. Qed.

Lemma matchHead_token (sg d rest : string) :
  sg = "" \/ sg = "+" \/ sg = "-" -> allDigits d = true -> d <> "" ->
  MonthExp.matchHead (sg +:+ d +:+ "M" +:+ rest)
  = Some ([sg +:+ d +:+ "M"; sg; d; "M"], rest).
Proof.
  intros [-> | [-> | ->]] Hd Hne; str_simpl.
  - now apply matchHead_digits.
  - now apply (matchHead_signed "+").
  - now apply (matchHead_signed "-").
Qed.

Lemma wrap64_bounds (z : Z) : Int64.min_int <= Int64.wrap64 z <= Int64.max_int.
Proof.
  unfold Int64.wrap64, Int64.min_int, Int64.max_int.
  pose proof (Z.mod_pos_bound (z + 2 ^ 63) (2 ^ 64) ltac:(lia)). lia.
Qed.

(** X2.  A month token at the head of a string, and after it a rest
    without month token: the months count 720 hours each, with the sign
    of the token; the rest, without the white space around it, is read
    by [time.ParseDuration] and added as it is, the sign of the token not
    reaching it.  When the rest is rejected, the error names the rest
    alone, and the span of the months comes back with it. *)
Theorem month_token_then_rest (sg d r : string) :
  sg = "" \/ sg = "+" \/ sg = "-" ->
  allDigits d = true -> d <> "" -> decimal d <= Int64.max_int ->
  hasMonthToken r = false ->
  tryParsingInMonths (sg +:+ d +:+ "M" +:+ r)
  = withRemainder
      (if String.eqb sg "-"
       then Int64.mul (Int64.mul HoursInMonth (decimal d)) (-1)
       else Int64.mul HoursInMonth (decimal d)) r.
Proof.
  intros Hsg Hd Hne Hmax Hr.
  rewrite (tryParsingInMonths_head _ sg d r) by now apply matchHead_token.
  rewrite Atoi_digits by assumption. cbv zeta.
  rewrite (ReplaceAll_none r Hr), length_pos_eqb. unfold withRemainder.
  destruct (String.eqb (Strings.TrimSpace r) ""); reflexivity.
Qed.

Lemma month_token_then_rest_witness :
  tryParsingInMonths "-1M 12h " = (- (708 * Time.Hour), None)
  /\ tryParsingInMonths "2M1d"
     = (1440 * Time.Hour,
        Some (ErrWrap (ErrUnknownUnit "d" "1d")
                "failed to parse task configuration of 1d")).
Proof.
  split.
  - etransitivity;
      [apply (month_token_then_rest "-" "1" " 12h ");
       [auto | reflexivity | discriminate | vm_compute; discriminate | reflexivity]
      | vm_compute; reflexivity].
  - etransitivity;
      [apply (month_token_then_rest "" "2" "1d");
       [auto | reflexivity | discriminate | vm_compute; discriminate | reflexivity]
      | vm_compute; reflexivity].
Defined.

(** X3.  The count of a month token has two bounds that differ.  A
    count that no [int] holds is an error of [strconv.Atoi], returned
    with the span 0.  A count that an [int] holds is multiplied without
    a check: from 3559 months on the product passes what a
    [time.Duration] holds, and what comes back, without error, is not the
    span of that many months. *)
Theorem month_count_bounds (d r : string) :
  allDigits d = true -> d <> "" ->
  (Int64.max_int < decimal d ->
   tryParsingInMonths (d +:+ "M" +:+ r)
   = (0, Some (ErrWrap (ErrAtoiRange d)
                 ("failed to parse task configuration of " +:+ d +:+ "M" +:+ r))))
  /\ (3558 < decimal d <= Int64.max_int ->
      tryParsingInMonths (d +:+ "M")
      = (Int64.wrap64 (HoursInMonth * decimal d), None)
      /\ Int64.wrap64 (HoursInMonth * decimal d) <> HoursInMonth * decimal d)
  /\ (decimal d <= 3558 ->
      tryParsingInMonths (d +:+ "M") = (HoursInMonth * decimal d, None)).
Proof.
  intros Hd Hne.
  assert (Hone : decimal d <= Int64.max_int ->
                 tryParsingInMonths (d +:+ "M")
                 = (Int64.wrap64 (HoursInMonth * decimal d), None)).
  { intros Hmax.
    rewrite (tryParsingInMonths_head _ "" d "")
      by (apply (matchHead_token "" d ""); auto).
    rewrite Atoi_digits by assumption. cbv zeta.
    change (Strings.TrimSpace (MonthExp.ReplaceAllString_empty "")) with "".
    reflexivity. }
  split; [| split].
  - intros Hbig.
    rewrite (tryParsingInMonths_head _ "" d r) by (apply (matchHead_token ""); auto).
    unfold Strconv.Atoi. destruct d as [|c d']; [congruence |].
    pose proof Hd as Hd'. cbn [allDigits] in Hd'.
    apply andb_true_iff in Hd' as [Hc _].
    apply digit_not_sign in Hc. unfold MonthExp.isSign in Hc. rewrite Hc, Hd.
    cbn [negb]. apply Z.ltb_lt in Hbig. rewrite Hbig. reflexivity.
  - intros [Hlo Hhi]. split; [now apply Hone |].
    pose proof (wrap64_bounds (HoursInMonth * decimal d)) as Hb.
    unfold HoursInMonth, Time.Hour, Time.Minute, Time.Second, Time.Millisecond,
      Time.Microsecond, Time.Nanosecond, Int64.max_int in *. lia.
  - intros Hlo. pose proof (decimal_nonneg d Hd) as H0.
    rewrite Hone.
    + rewrite wrap64_in_range; [reflexivity |].
      unfold Int64.in_range, Int64.min_int, Int64.max_int, HoursInMonth, Time.Hour,
        Time.Minute, Time.Second, Time.Millisecond, Time.Microsecond,
        Time.Nanosecond. lia.
    + unfold Int64.max_int. lia.
Qed.

Lemma month_count_bounds_witness :
  tryParsingInMonths "9223372036854775808M"
  = (0, Some (ErrWrap (ErrAtoiRange "9223372036854775808")
                "failed to parse task configuration of 9223372036854775808M"))
  /\ tryParsingInMonths "3559M" = (3559 * HoursInMonth - 2 ^ 64, None)
  /\ tryParsingInMonths "3558M" = (3558 * HoursInMonth, None).
Proof.
  split; [| split].
  - destruct (month_count_bounds "9223372036854775808" "" eq_refl
                ltac:(discriminate)) as (Hrange & _ & _).
    apply Hrange. vm_compute. reflexivity.
  - destruct (month_count_bounds "3559" "" eq_refl ltac:(discriminate))
      as (_ & Hwrap & _).
    destruct Hwrap as [Hwrap _]; [vm_compute; split; [reflexivity | discriminate] |].
    etransitivity; [exact Hwrap | vm_compute; reflexivity].
  - destruct (month_count_bounds "3558" "" eq_refl ltac:(discriminate))
      as (_ & _ & Hfits).
    etransitivity; [apply Hfits; vm_compute; discriminate | vm_compute; reflexivity].
Defined.

(** ** The command that creates a specification *)

(** X4.  Every window that [getWindowParameters] proposes is one that
    [prepareWindow] accepts: the answer ["hourly"] gives a window of one
    hour, ["weekly"] 168 hours, ["monthly"] the 720 hours of one month,
    and ["daily"] or any other answer 24 hours; the offset is 0, and the
    truncation unit is one of those the validation admits (for a day it
    is the hour, not the day that [prepareWindow] has as its default). *)
Theorem preset_windows_parse (conf : Job.t) (winName : string) :
  JobTask.Window (Job.Task conf) = Create.getWindowParameters winName ->
  exists (hours : Z) (truncateTo : string),
    Job.prepareWindow conf
    = ({| Models.JobSpecTaskWindow.Size := hours * Time.Hour;
          Models.JobSpecTaskWindow.Offset := 0;
          Models.JobSpecTaskWindow.TruncateTo := truncateTo |}, None)
    /\ Job.truncationUnit truncateTo = true
    /\ ((winName = "hourly" /\ hours = 1 /\ truncateTo = "h")
        \/ (winName = "weekly" /\ hours = 168 /\ truncateTo = "w")
        \/ (winName = "monthly" /\ hours * Time.Hour = HoursInMonth
            /\ truncateTo = "M")
        \/ (winName <> "hourly" /\ winName <> "weekly" /\ winName <> "monthly"
            /\ hours = 24 /\ truncateTo = "h")).
Proof.
  intros Hw. rewrite prepareWindow_spans.
  unfold sizeOf, offsetOf, truncateToOf. rewrite Hw.
  unfold Create.getWindowParameters.
  destruct (String.eqb_spec winName "hourly") as [-> | Hh].
  { exists 1, "h". split; [vm_compute; reflexivity |]. split; [reflexivity |]. auto. }
  destruct (String.eqb_spec winName "daily") as [-> | Hd].
  { exists 24, "h". split; [vm_compute; reflexivity |]. split; [reflexivity |].
    do 3 right. repeat split; discriminate. }
  destruct (String.eqb_spec winName "weekly") as [-> | Hk].
  { exists 168, "w". split; [vm_compute; reflexivity |]. split; [reflexivity |]. auto. }
  destruct (String.eqb_spec winName "monthly") as [-> | Hm].
  { exists 720, "M". split; [vm_compute; reflexivity |]. split; [reflexivity |].
    right. right. left. repeat split; reflexivity. }
  exists 24, "h". split; [vm_compute; reflexivity |]. split; [reflexivity |].
  do 3 right. auto.
Qed.

Lemma preset_windows_parse_witness :
  exists (hours : Z) (truncateTo : string),
    Job.prepareWindow (jobWithWindow "168h" "0" "w")
    = ({| Models.JobSpecTaskWindow.Size := hours * Time.Hour;
          Models.JobSpecTaskWindow.Offset := 0;
          Models.JobSpecTaskWindow.TruncateTo := truncateTo |}, None)
    /\ Job.truncationUnit truncateTo = true
    /\ (("weekly" = "hourly" /\ hours = 1 /\ truncateTo = "h")
        \/ ("weekly" = "weekly" /\ hours = 168 /\ truncateTo = "w")
        \/ ("weekly" = "monthly" /\ hours * Time.Hour = HoursInMonth
            /\ truncateTo = "M")
        \/ ("weekly" <> "hourly" /\ "weekly" <> "weekly" /\ "weekly" <> "monthly"
            /\ hours = 24 /\ truncateTo = "h")).
Proof.
  apply (preset_windows_parse (jobWithWindow "168h" "0" "w") "weekly").
  reflexivity.
Defined.

Lemma replaceAll_byte (a b : ascii) (s : string) :
  Create.ReplaceAll s (String a "") (String b "")
  = Create.mapBytes (fun c => if Ascii.eqb c a then b else c) s.
Proof.
  unfold Create.ReplaceAll.
  induction s as [|c r IH]; [reflexivity |].
  cbn [Create.replaceAllFrom Create.mapBytes String.prefix String.length Nat.sub].
  destruct (ascii_dec a c) as [<- | Hne].
  - rewrite Ascii.eqb_refl. destruct r; str_simpl; now rewrite IH.
  - destruct (Ascii.eqb_spec c a) as [-> | _]; [congruence |]. now rewrite IH.
Qed.

Lemma mapBytes_mapBytes (f g : ascii -> ascii) (s : string) :
  Create.mapBytes g (Create.mapBytes f s) = Create.mapBytes (fun c => g (f c)) s.
Proof. induction s as [|c r IH]; cbn [Create.mapBytes]; [reflexivity | now rewrite IH]. Qed.

Lemma mapBytes_ext (f g : ascii -> ascii) (s : string) :
  (forall c, f c = g c) -> Create.mapBytes f s = Create.mapBytes g s.
Proof.
  intros Hfg. induction s as [|c r IH]; cbn [Create.mapBytes]; [reflexivity |].
  now rewrite Hfg, IH.
Qed.

Lemma mapBytes_get (f : ascii -> ascii) (s : string) (i : nat) :
  String.get i (Create.mapBytes f s) = option_map f (String.get i s).
Proof.
  revert i. induction s as [|c r IH]; intros [|i]; cbn; auto.
Qed.

Lemma mapBytes_length (f : ascii -> ascii) (s : string) :
  String.length (Create.mapBytes f s) = String.length s.
Proof. induction s as [|c r IH]; cbn; [reflexivity | now rewrite IH]. Qed.

(** X5.  The name that the command proposes for a new specification is
    the path of its directory with a dot in the place of every slash and
    every backslash: it is as long as the path, it keeps every other
    byte where it was, and it holds no separator. *)
Theorem proposed_name_has_no_separator (directory : string) :
  Create.nameDefault directory
  = Create.mapBytes (fun c => if Create.isSeparator c then "."%char else c) directory
  /\ String.length (Create.nameDefault directory) = String.length directory
  /\ (forall (i : nat) (c : ascii),
        String.get i (Create.nameDefault directory) = Some c ->
        Create.isSeparator c = false)
  /\ (forall (i : nat) (c : ascii),
        String.get i directory = Some c -> Create.isSeparator c = false ->
        String.get i (Create.nameDefault directory) = Some c).
Proof.
  assert (Hmap : Create.nameDefault directory
                 = Create.mapBytes
                     (fun c => if Create.isSeparator c then "."%char else c)
                     directory).
  { unfold Create.nameDefault.
    change "/" with (String "/"%char ""). change "." with (String "."%char "").
    rewrite !replaceAll_byte, mapBytes_mapBytes. apply mapBytes_ext. intros c.
    unfold Create.isSeparator.
    destruct (Ascii.eqb_spec c "/") as [-> | Hs]; [reflexivity |].
    destruct (Ascii.eqb_spec c (ascii_of_N 92)) as [-> | Hb]; [reflexivity |].
    destruct (code c =? 47) eqn:H47.
    { apply Z.eqb_eq, MonthExpFacts.ascii_of_code in H47. now elim Hs. }
    destruct (code c =? 92) eqn:H92; [| reflexivity].
    apply Z.eqb_eq, MonthExpFacts.ascii_of_code in H92. now elim Hb. }
  split; [exact Hmap |]. rewrite Hmap.
  split; [apply mapBytes_length |]. split.
  - intros i c. rewrite mapBytes_get.
    destruct (String.get i directory) as [c0|]; [| discriminate].
    cbn [option_map]. intros [= <-].
    destruct (Create.isSeparator c0) eqn:Hc; [reflexivity | exact Hc].
  - intros i c Hget Hc. rewrite mapBytes_get, Hget. cbn [option_map].
    now rewrite Hc.
Qed.

Lemma schemaName_named (hook : Create.JobSpecHook.t) (n : string) :
  Create.schemaName hook = Some n <->
  exists unit, Create.JobSpecHook.Unit hook = Some unit
               /\ Create.HookPlugin.GetHookSchema unit = inl n.
Proof.
  unfold Create.schemaName.
  destruct (Create.JobSpecHook.Unit hook) as [unit|].
  - destruct (Create.HookPlugin.GetHookSchema unit) as [m|e] eqn:Hs; split.
    + intros [= ->]. eauto.
    + intros (u & [= <-] & Hu). congruence.
    + discriminate.
    + intros (u & [= <-] & Hu). congruence.
  - split; [discriminate | intros (u & [=] & _)].
Qed.

(** X6.  [ifHookAlreadyExistsForJob] answers [true] exactly when some
    hook of the job has the name in its schema and every hook before it
    has a schema that can be read and bears another name.  A hook whose
    schema cannot be read ends the search with [false], whatever hooks
    come after it, the one that is looked for among them or not. *)
Theorem hook_exists_iff (hooks : list Create.JobSpecHook.t) (newHookName : string) :
  (Create.ifHookAlreadyExistsForJob hooks newHookName = Returns true
   <-> exists pre hook post,
        hooks = (pre ++ hook :: post)%list
        /\ Create.schemaName hook = Some newHookName
        /\ Forall (fun h => exists m, Create.schemaName h = Some m
                                      /\ m <> newHookName) pre)
  /\ (forall pre hook post unit err,
        hooks = (pre ++ hook :: post)%list ->
        Forall (fun h => exists m, Create.schemaName h = Some m
                                   /\ m <> newHookName) pre ->
        Create.JobSpecHook.Unit hook = Some unit ->
        Create.HookPlugin.GetHookSchema unit = inr err ->
        Create.ifHookAlreadyExistsForJob hooks newHookName = Returns false).
Proof.
  split.
  - induction hooks as [|h hooks IH]; cbn [Create.ifHookAlreadyExistsForJob].
    { split; [discriminate |]. intros (pre & hook & post & Heq & _).
      now destruct pre. }
    destruct (Create.JobSpecHook.Unit h) as [unit|] eqn:Hu.
    2:{ split; [discriminate |]. intros (pre & hook & post & Heq & Hn & Hpre).
        destruct pre as [|p pre]; cbn [app] in Heq; injection Heq as <- _.
        - apply schemaName_named in Hn as (u & Hu' & _). congruence.
        - apply Forall_cons in Hpre as [(m & Hm & _) _].
          apply schemaName_named in Hm as (u & Hu' & _). congruence. }
    destruct (Create.HookPlugin.GetHookSchema unit) as [name|e] eqn:Hs.
    2:{ split; [discriminate |]. intros (pre & hook & post & Heq & Hn & Hpre).
        destruct pre as [|p pre]; cbn [app] in Heq; injection Heq as <- _.
        - apply schemaName_named in Hn as (u & Hu' & Hs'). congruence.
        - apply Forall_cons in Hpre as [(m & Hm & _) _].
          apply schemaName_named in Hm as (u & Hu' & Hs'). congruence. }
    assert (Hh : Create.schemaName h = Some name).
    { apply schemaName_named. eauto. }
    destruct (String.eqb_spec name newHookName) as [-> | Hne].
    + split; [| reflexivity]. intros _. exists [], h, hooks. auto.
    + rewrite IH. split.
      * intros (pre & hook & post & -> & Hn & Hpre).
        exists (h :: pre), hook, post. split; [reflexivity |].
        split; [exact Hn |]. constructor; eauto.
      * intros (pre & hook & post & Heq & Hn & Hpre).
        destruct pre as [|p pre]; cbn [app] in Heq; injection Heq as <- ->.
        -- congruence.
        -- apply Forall_cons in Hpre as [_ Hpre]. exists pre, hook, post. auto.
  - intros pre hook post unit err -> Hpre Hu Hs.
    induction Hpre as [|h pre (m & Hm & Hne) _ IH]; cbn [app Create.ifHookAlreadyExistsForJob].
    + now rewrite Hu, Hs.
    + apply schemaName_named in Hm as (u & -> & ->).
      apply String.eqb_neq in Hne. now rewrite Hne.
Qed.

Lemma hook_exists_iff_witness :
  Create.ifHookAlreadyExistsForJob
    [ {| Create.JobSpecHook.Config := [];
         Create.JobSpecHook.Unit :=
           Some {| Create.HookPlugin.GetHookSchema :=
                     inr (ErrForeign "plugin not reachable" false) |} |};
      {| Create.JobSpecHook.Config := [];
         Create.JobSpecHook.Unit :=
           Some {| Create.HookPlugin.GetHookSchema := inl "transporter" |} |} ]
    "transporter"
  = Returns false.
Proof.
  eapply (proj2 (hook_exists_iff _ "transporter") []);
    [reflexivity | constructor | reflexivity | reflexivity].
Defined.

(** ** The adapter: configurations and hooks *)

Lemma config_there (c : Models.JobSpecConfigs) :
  JobSpecConfigFromYamlSlice (JobSpecConfigToYamlSlice c) = Returns c.
Proof.
  induction c as [|[n v] c IH]; [reflexivity |].
  cbn [JobSpecConfigToYamlSlice map JobSpecConfigFromYamlSlice].
  fold (JobSpecConfigToYamlSlice c). rewrite IH. reflexivity.
Qed.

Lemma config_back (y : Yaml.MapSlice) (c : Models.JobSpecConfigs) :
  JobSpecConfigFromYamlSlice y = Returns c -> JobSpecConfigToYamlSlice c = y.
Proof.
  revert c. induction y as [|[k v] y IH]; intros c; cbn [JobSpecConfigFromYamlSlice].
  - intros [= <-]. reflexivity.
  - destruct k as [k|k]; [| discriminate]. destruct v as [v|v]; [| discriminate].
    cbn. destruct (JobSpecConfigFromYamlSlice y) as [c'|why]; [| discriminate].
    cbn. intros [= <-]. cbn [JobSpecConfigToYamlSlice map].
    fold (JobSpecConfigToYamlSlice c'). now rewrite (IH c' eq_refl).
Qed.

Lemma config_returns_iff (y : Yaml.MapSlice) :
  (exists c, JobSpecConfigFromYamlSlice y = Returns c) <-> stringConfig y.
Proof.
  split.
  - intros [c Hc]. apply config_back in Hc. subst y.
    induction c as [|[n v] c IH]; constructor; [| exact IH].
    now exists n, v.
  - apply stringConfig_converts.
Qed.

(** X7.  The two conversions of a configuration undo each other:
    [JobSpecConfigFromYamlSlice] gives back what
    [JobSpecConfigToYamlSlice] was given, and the other way round
    whenever it returns.  It returns exactly when every key and every
    value of the slice is a string, and panics on every other slice. *)
Theorem config_slices_round_trip :
  (forall c : Models.JobSpecConfigs,
      JobSpecConfigFromYamlSlice (JobSpecConfigToYamlSlice c) = Returns c)
  /\ (forall (y : Yaml.MapSlice) (c : Models.JobSpecConfigs),
        JobSpecConfigFromYamlSlice y = Returns c ->
        JobSpecConfigToYamlSlice c = y /\ length c = length y)
  /\ (forall y : Yaml.MapSlice,
        (exists c, JobSpecConfigFromYamlSlice y = Returns c) <-> stringConfig y)
  /\ (forall y : Yaml.MapSlice,
        (exists why, JobSpecConfigFromYamlSlice y = Panics why)
        <-> ~ stringConfig y).
Proof.
  split; [exact config_there |]. split; [| split; [exact config_returns_iff |]].
  - intros y c Hc. apply config_back in Hc. subst y.
    split; [reflexivity |]. unfold JobSpecConfigToYamlSlice. now rewrite length_map.
  - intros y. rewrite <- config_returns_iff. split.
    + intros [why Hw] [c Hc]. congruence.
    + intros Hno. destruct (JobSpecConfigFromYamlSlice y) as [c|why] eqn:Hy.
      * elim Hno. eauto.
      * eauto.
Qed.

Lemma config_slices_round_trip_witness :
  JobSpecConfigToYamlSlice
    [{| Models.JobSpecConfigItem.Name := "TOPIC";
        Models.JobSpecConfigItem.Value := "events" |}]
  = [{| Yaml.Key := Yaml.VString "TOPIC"; Yaml.Value := Yaml.VString "events" |}]
  /\ exists why,
      JobSpecConfigFromYamlSlice
        [{| Yaml.Key := Yaml.VString "BATCH_SIZE"; Yaml.Value := Yaml.VOther "100" |}]
      = Panics why.
Proof.
  destruct config_slices_round_trip as (_ & Hback & _ & Hpanics).
  split.
  - apply (Hback [{| Yaml.Key := Yaml.VString "TOPIC";
                     Yaml.Value := Yaml.VString "events" |}]).
    reflexivity.
  - apply Hpanics. intros Hs. apply Forall_cons in Hs as [(k & v & [=]) _].
Defined.

(** X8.  A hook goes through [JobHook.ToSpec] and [JobHook.FromSpec]
    unchanged, name and configuration, when the registry hands out the
    plugin it is asked for.  A hook that is not registered gets the error
    of the registry, wrapped, before its configuration is looked at:
    whatever the configuration holds, there is no panic. *)
Theorem hook_round_trip (repo : Models.HookRepo.t) (hook : JobHook.t) :
  (hookRepoFaithful repo ->
   forall spec, JobHook.ToSpec hook repo = Returns (spec, None) ->
                JobHook.FromSpec spec = Returns hook)
  /\ (forall unit err,
        Models.HookRepo.GetByName repo (JobHook.Name hook) = (unit, Some err) ->
        JobHook.ToSpec hook repo
        = Returns (Models.JobSpecHook.zero, Some (ErrWrap err "spec reading error"))).
Proof.
  split.
  - intros Hrepo spec. unfold JobHook.ToSpec.
    destruct (Models.HookRepo.GetByName repo (JobHook.Name hook)) as [u [e|]] eqn:Hu;
      [discriminate |].
    destruct (Hrepo _ _ Hu) as (unit & -> & Hname).
    destruct (JobSpecConfigFromYamlSlice (JobHook.Config hook)) as [c|why] eqn:Hc;
      [| discriminate].
    cbn. intros [= <-]. unfold JobHook.FromSpec.
    cbn [Models.JobSpecHook.Unit Models.JobSpecHook.Config].
    rewrite (config_back _ _ Hc), Hname. now destruct hook.
  - intros unit err Hu. unfold JobHook.ToSpec. now rewrite Hu.
Qed.

Lemma hook_round_trip_witness :
  JobHook.FromSpec
    {| Models.JobSpecHook.Config :=
         [{| Models.JobSpecConfigItem.Name := "TOPIC";
             Models.JobSpecConfigItem.Value := "events" |}];
       Models.JobSpecHook.Unit := Some {| Models.HookUnit.Name := "transporter" |} |}
  = Returns {| JobHook.Name := "transporter";
               JobHook.Config := [{| Yaml.Key := Yaml.VString "TOPIC";
                                     Yaml.Value := Yaml.VString "events" |}] |}
  /\ JobHook.ToSpec
       {| JobHook.Name := "missing";
          JobHook.Config := [{| Yaml.Key := Yaml.VString "BATCH_SIZE";
                                Yaml.Value := Yaml.VOther "100" |}] |}
       (JobSpecAdapter.supportedHookRepo exampleAdapter)
     = Returns (Models.JobSpecHook.zero,
                Some (ErrWrap (ErrForeign "hook not found" false) "spec reading error")).
Proof.
  split.
  - apply (proj1 (hook_round_trip (JobSpecAdapter.supportedHookRepo exampleAdapter)
                    {| JobHook.Name := "transporter";
                       JobHook.Config := [{| Yaml.Key := Yaml.VString "TOPIC";
                                             Yaml.Value := Yaml.VString "events" |}] |})).
    + intros n u. cbn. destruct (String.eqb_spec n "transporter") as [-> | _];
        intros [= <-]. eauto.
    + reflexivity.
  - apply (proj2 (hook_round_trip (JobSpecAdapter.supportedHookRepo exampleAdapter) _)
             None).
    reflexivity.
Defined.

(** ** The adapter: dates, labels and failures *)

(** A date that [Parse] accepts has the shape that the validation asks
    of the start date, and names a day that exists. *)
Lemma Parse_inv (s : string) (d : Time.t) :
  Time.Parse s = (d, None) ->
  Job.dateShaped s = true
  /\ 0 <= Time.year d <= 9999
  /\ 1 <= Time.month d <= 12
  /\ 1 <= Time.day d <= Time.daysIn (Time.month d) (Time.year d).
Proof.
  unfold Time.Parse.
  destruct s as [|y0 [|y1 [|y2 [|y3 v1]]]]; try discriminate.
  destruct (allDigits (String y0 (String y1 (String y2 (String y3 ""))))) eqn:Hy;
    cbn [negb]; [| discriminate].
  destruct (Time.skipDash v1) as [v2|] eqn:H1; [| discriminate].
  destruct (Time.getnum2 v2) as [[m v3]|] eqn:Hm; [| discriminate].
  destruct ((m <=? 0) || (12 <? m)) eqn:Hmr; [discriminate |].
  destruct (Time.skipDash v3) as [v4|] eqn:H2; [| discriminate].
  destruct (Time.getnum2 v4) as [[dd v5]|] eqn:Hd; [| discriminate].
  destruct (String.eqb v5 "") eqn:H5; cbn [negb]; [| discriminate].
  destruct ((dd <? 1) || (Time.daysIn m _ <? dd)) eqn:Hdr; [discriminate |].
  intros [= <-]. cbn [Time.year Time.month Time.day].
  apply String.eqb_eq in H5. subst v5.
  apply skipDash_inv in H1, H2. subst v1 v3.
  apply getnum2_inv in Hm as (m0 & m1 & -> & Hm0 & Hm1 & ->).
  apply getnum2_inv in Hd as (d0 & d1 & -> & Hd0 & Hd1 & ->).
  pose proof Hy as Hy'. cbn [allDigits] in Hy'. rewrite !andb_true_iff in Hy'.
  destruct Hy' as (Hy0 & Hy1 & Hy2 & Hy3 & _).
  apply orb_false_iff in Hmr as [Hm_lo Hm_hi].
  apply orb_false_iff in Hdr as [Hd_lo Hd_hi].
  apply Z.leb_gt in Hm_lo. apply Z.ltb_ge in Hm_hi.
  apply Z.ltb_ge in Hd_lo. apply Z.ltb_ge in Hd_hi.
  split; [| split; [| split; lia]].
  - cbn [Job.dateShaped]. rewrite Hy0, Hy1, Hy2, Hy3, Hm0, Hm1, Hd0, Hd1. reflexivity.
  - pose proof (digitVal_range y0 Hy0). pose proof (digitVal_range y1 Hy1).
    pose proof (digitVal_range y2 Hy2). pose proof (digitVal_range y3 Hy3).
    unfold decimal. cbn [decimalFrom]. lia.
Qed.

Section AdapterMore.
Context `{Models.Package} `{MapRange}.
Import Models.

(** X9.  A job whose conversion [ToSpec] accepts has a start date of the
    shape [YYYY-MM-DD] that names a day of the calendar, and an end date
    that is empty, the domain object then having none, or of that shape
    too.  The validation of the start date by its pattern asks for less:
    it admits ["2021-02-30"], which [ToSpec] rejects. *)
Theorem accepted_dates (adapt : JobSpecAdapter.t) (conf : Job.t) (spec : JobSpec.t) :
  JobSpecAdapter.ToSpec adapt conf = Returns (spec, None) ->
  let start := JobSpecSchedule.StartDate (JobSpec.Schedule spec) in
  Job.dateShaped (JobSchedule.StartDate (Job.Schedule conf)) = true
  /\ (1 <= Time.month start <= 12
      /\ 1 <= Time.day start <= Time.daysIn (Time.month start) (Time.year start))
  /\ (JobSchedule.EndDate (Job.Schedule conf) = ""
      <-> JobSpecSchedule.EndDate (JobSpec.Schedule spec) = None)
  /\ (JobSchedule.EndDate (Job.Schedule conf) <> ""
      -> Job.dateShaped (JobSchedule.EndDate (Job.Schedule conf)) = true)
  /\ (Job.dateShaped "2021-02-30" = true
      /\ Time.Parse "2021-02-30" = (Time.zero, Some (ErrTimeParse "2021-02-30"))).
Proof.
  intros Hok. cbv zeta.
  apply ToSpec_ok_iff in Hok
    as (startDate & endDate & hooks & window & execUnit & taskConf
        & Hstart & Hend & _ & _ & _ & _ & ->).
  cbn [JobSpec.Schedule JobSpecSchedule.StartDate JobSpecSchedule.EndDate].
  apply Parse_inv in Hstart as (Hshape & _ & Hmonth & Hday).
  split; [exact Hshape |]. split; [auto |].
  unfold parseEndDate in Hend.
  destruct (String.eqb_spec (JobSchedule.EndDate (Job.Schedule conf)) "") as [He | He].
  - injection Hend as <-. split; [tauto |]. split; [congruence |].
    split; vm_compute; reflexivity.
  - destruct (Time.Parse (JobSchedule.EndDate (Job.Schedule conf)))
      as [e [err|]] eqn:Hp; [discriminate |].
    injection Hend as <-. split; [split; [congruence | discriminate] |].
    split; [| split; vm_compute; reflexivity].
    intros _. now apply Parse_inv in Hp as (Hs & _).
Qed.

Lemma fold_insert_lookup {V : Type} (l : list (string * V)) (acc : gmap string V)
    (k : string) :
  NoDup l.*1 ->
  fold_left (fun m kv => <[kv.1 := kv.2]> m) l acc !! k
  = match (list_to_map l : gmap string V) !! k with
    | Some v => Some v
    | None => acc !! k
    end.
Proof.
  revert acc. induction l as [|[k0 v0] l IH]; intros acc Hnd; [reflexivity |].
  cbn [fmap list_fmap fst] in Hnd. apply NoDup_cons in Hnd as [Hk0 Hnd].
  cbn [fold_left list_to_map foldr fst snd]. rewrite (IH _ Hnd).
  destruct (decide (k0 = k)) as [<- | Hne].
  - rewrite lookup_insert_eq.
    rewrite (not_elem_of_list_to_map_1 _ _ Hk0). now rewrite lookup_insert_eq.
  - rewrite !lookup_insert_ne by exact Hne. reflexivity.
Qed.

Lemma copyLabels_id (m : gmap string string) : JobSpecAdapter.copyLabels m = m.
Proof.
  unfold JobSpecAdapter.copyLabels.
  assert (Hnd : NoDup (mapRange m).*1).
  { rewrite (mapRange_perm _ m). apply NoDup_fst_map_to_list. }
  apply map_eq. intros k. rewrite (fold_insert_lookup _ _ _ Hnd), lookup_empty.
  assert (Hl : (list_to_map (mapRange m) : gmap string string) = m).
  { rewrite <- (list_to_map_to_list m) at 2.
    apply list_to_map_proper; [exact Hnd | apply mapRange_perm]. }
  rewrite Hl. now destruct (m !! k).
Qed.

(** What [FromSpec] returns when it returns without error. *)
Lemma FromSpec_ok_inv (adapt : JobSpecAdapter.t) (spec : JobSpec.t) (job : Job.t) :
  JobSpecAdapter.FromSpec adapt spec = Returns (job, None) ->
  exists unit hooks,
    JobSpecTask.Unit (JobSpec.Task spec) = Some unit
    /\ JobSpecAdapter.hooksFromSpec (JobSpec.Hooks spec) [] = Returns hooks
    /\ Job.Version job = JobSpec.Version spec
    /\ Job.Name job = JobSpec.Name spec
    /\ Job.Description job = JobSpec.Description spec
    /\ Job.Labels job = JobSpecAdapter.copyLabels (JobSpec.Labels spec)
    /\ JobSchedule.Interval (Job.Schedule job)
       = JobSpecSchedule.Interval (JobSpec.Schedule spec)
    /\ JobTask.Name (Job.Task job) = Transformation.Name unit
    /\ JobTask.Config (Job.Task job)
       = JobSpecConfigToYamlSlice (JobSpecTask.Config (JobSpec.Task spec))
    /\ JobTaskWindow.TruncateTo (JobTask.Window (Job.Task job))
       = JobSpecTaskWindow.TruncateTo (JobSpecTask.Window (JobSpec.Task spec))
    /\ Job.Dependencies job
       = map (fun kv : string * JobSpecDependency.t =>
                {| JobDependency.JobName := kv.1;
                   JobDependency.Type_ :=
                     JobSpecDependencyType_String (JobSpecDependency.Type_ kv.2) |})
           (mapRange (JobSpec.Dependencies spec))
    /\ Job.Hooks job = hooks.
Proof.
  unfold JobSpecAdapter.FromSpec.
  destruct (JobSpecTask.Unit (JobSpec.Task spec)) as [unit|]; [| discriminate].
  destruct (JobSpecAdapter.hooksFromSpec (JobSpec.Hooks spec) []) as [hooks|why];
    [| discriminate].
  cbn. intros [= <-]. exists unit, hooks. cbn.
  rewrite fold_left_snoc_map. cbn [app]. repeat split; reflexivity.
Qed.

(** X10.  The labels of a job go through [ToSpec] and through [FromSpec]
    as they are: the loop that copies them entry by entry builds the same
    map in whatever order the entries are visited. *)
Theorem labels_kept :
  (forall m : gmap string string, JobSpecAdapter.copyLabels m = m)
  /\ (forall (adapt : JobSpecAdapter.t) (conf : Job.t) (spec : JobSpec.t),
        JobSpecAdapter.ToSpec adapt conf = Returns (spec, None) ->
        JobSpec.Labels spec = Job.Labels conf)
  /\ (forall (adapt : JobSpecAdapter.t) (spec : JobSpec.t) (job : Job.t),
        JobSpecAdapter.FromSpec adapt spec = Returns (job, None) ->
        Job.Labels job = JobSpec.Labels spec).
Proof.
  split; [exact copyLabels_id |]. split.
  - intros adapt conf spec Hok.
    apply ToSpec_ok_iff in Hok as (? & ? & ? & ? & ? & ? & _ & _ & _ & _ & _ & _ & ->).
    cbn [JobSpec.Labels]. apply copyLabels_id.
  - intros adapt spec job Hok.
    apply FromSpec_ok_inv in Hok
      as (? & ? & _ & _ & _ & _ & _ & Hlabels & _).
    rewrite Hlabels. apply copyLabels_id.
Qed.

(** The hooks that the loop of [ToSpec] has converted convert back to
    what they were. *)
Lemma prepHooks_back (repo : HookRepo.t) (hs : list JobHook.t)
    (acc hooks : list JobSpecHook.t) :
  hookRepoFaithful repo ->
  JobSpecAdapter.prepHooks repo hs acc = Returns (hooks, None) ->
  exists new,
    hooks = (acc ++ new)%list
    /\ Forall2 (fun h sh => JobHook.FromSpec sh = Returns h) hs new.
Proof.
  intros Hrepo. revert acc.
  induction hs as [|h hs IH]; intros acc; cbn [JobSpecAdapter.prepHooks].
  - intros [= <-]. exists []. rewrite app_nil_r. split; [reflexivity | constructor].
  - unfold JobHook.ToSpec, mbind, outcome_bind.
    destruct (HookRepo.GetByName repo (JobHook.Name h)) as [u [e|]] eqn:Hu;
      [discriminate |].
    destruct (JobSpecConfigFromYamlSlice (JobHook.Config h)) as [cfg|why] eqn:Hc;
      [| discriminate].
    intros Hrest. apply IH in Hrest as (new & -> & Hall).
    eexists (_ :: new). rewrite <- app_assoc. split; [reflexivity |].
    constructor; [| exact Hall].
    destruct (Hrepo _ _ Hu) as (unit & -> & Hname).
    unfold JobHook.FromSpec. cbn [JobSpecHook.Unit JobSpecHook.Config].
    rewrite (config_back _ _ Hc), Hname. now destruct h.
Qed.

Lemma hooksFromSpec_back (hs : list JobHook.t) (new : list JobSpecHook.t)
    (acc : list JobHook.t) :
  Forall2 (fun h sh => JobHook.FromSpec sh = Returns h) hs new ->
  JobSpecAdapter.hooksFromSpec new acc = Returns (acc ++ hs)%list.
Proof.
  intros Hall. revert acc.
  induction Hall as [|h sh hs new Hh _ IH]; intros acc;
    cbn [JobSpecAdapter.hooksFromSpec].
  - now rewrite app_nil_r.
  - rewrite Hh. cbn. rewrite IH, <- app_assoc. reflexivity.
Qed.

(** X11.  What else a job keeps on its way through [ToSpec] and back
    through [FromSpec], the registries handing out the plugins they are
    asked for: its version, its description, its interval, its hooks with
    their configurations, and the configuration of its task.  The
    truncation unit comes back as it was, or as ["d"] where the job had
    left it out. *)
Theorem round_trip_keeps (adapt : JobSpecAdapter.t) (conf : Job.t) (spec : JobSpec.t) :
  hookRepoFaithful (JobSpecAdapter.supportedHookRepo adapt) ->
  JobSpecAdapter.ToSpec adapt conf = Returns (spec, None) ->
  JobSpecTask.Unit (JobSpec.Task spec) <> None ->
  exists back,
    JobSpecAdapter.FromSpec adapt spec = Returns (back, None)
    /\ Job.Version back = Job.Version conf
    /\ Job.Description back = Job.Description conf
    /\ JobSchedule.Interval (Job.Schedule back)
       = JobSchedule.Interval (Job.Schedule conf)
    /\ Job.Hooks back = Job.Hooks conf
    /\ JobTask.Config (Job.Task back) = JobTask.Config (Job.Task conf)
    /\ JobTaskWindow.TruncateTo (JobTask.Window (Job.Task back))
       = (if String.eqb (truncateToOf conf) "" then "d" else truncateToOf conf).
Proof.
  intros Hhook Hok Hunit.
  apply ToSpec_ok_iff in Hok
    as (startDate & endDate & hooks & window & execUnit & taskConf
        & _ & _ & Hhooks & Hwin & _ & Hconf & ->).
  cbn [JobSpec.Task JobSpecTask.Unit] in Hunit.
  destruct execUnit as [unit|]; [clear Hunit | now elim Hunit].
  destruct (prepHooks_back _ _ _ _ Hhook Hhooks) as (new & -> & Hall).
  pose proof (hooksFromSpec_back _ _ [] Hall) as Hout. cbn [app] in Hout.
  unfold JobSpecAdapter.FromSpec.
  cbn [JobSpec.Task JobSpecTask.Unit JobSpec.Hooks app].
  rewrite Hout. cbn -[JobSpecConfigToYamlSlice]. eexists. split; [reflexivity |].
  cbn -[JobSpecConfigToYamlSlice]. rewrite (config_back _ _ Hconf).
  repeat split.
  rewrite prepareWindow_spans in Hwin. cbv zeta in Hwin.
  destruct (spanOr (Time.Hour * 24) (sizeOf conf)) as [sz [e|]]; [discriminate |].
  destruct (spanOr 0 (offsetOf conf)) as [off [e|]]; [discriminate |].
  now injection Hwin as <-.
Qed.

Lemma hooksFromSpec_outcome (hs : list JobSpecHook.t) (acc : list JobHook.t) :
  (Forall (fun h => JobSpecHook.Unit h <> None) hs ->
   exists out, JobSpecAdapter.hooksFromSpec hs acc = Returns out
               /\ length out = (length acc + length hs)%nat)
  /\ (Exists (fun h => JobSpecHook.Unit h = None) hs ->
      exists why, JobSpecAdapter.hooksFromSpec hs acc = Panics why).
Proof.
  revert acc. induction hs as [|h hs IH]; intros acc; cbn [JobSpecAdapter.hooksFromSpec].
  - split.
    + intros _. exists acc. split; [reflexivity | cbn; lia].
    + intros Hex. inversion Hex.
  - unfold JobHook.FromSpec.
    destruct (JobSpecHook.Unit h) as [unit|] eqn:Hu; cbn.
    + destruct (IH (acc ++ [{| JobHook.Name := HookUnit.Name unit;
                               JobHook.Config :=
                                 JobSpecConfigToYamlSlice (JobSpecHook.Config h) |}])%list)
        as [Hall Hex].
      split.
      * intros Hf. apply Forall_cons in Hf as [_ Hf].
        destruct (Hall Hf) as (out & -> & Hlen). exists out.
        split; [reflexivity |]. rewrite Hlen, length_app. cbn. lia.
      * intros He. apply Exists_cons in He as [He | He]; [congruence | auto].
    + split.
      * intros Hf. apply Forall_cons in Hf as [Hn _]. now elim Hn.
      * intros _. eauto.
Qed.

(** X12.  [FromSpec] guards the plugin of the task and not those of the
    hooks.  A domain object without task plugin gets the error
    ["exec unit is nil"] and the empty job, whatever its hooks are.  With
    a task plugin, it panics when one of its hooks has no plugin, and
    otherwise returns a job without error, with as many hooks: [FromSpec]
    has no other error. *)
Theorem FromSpec_outcomes (adapt : JobSpecAdapter.t) (spec : JobSpec.t) :
  (JobSpecTask.Unit (JobSpec.Task spec) = None ->
   JobSpecAdapter.FromSpec adapt spec
   = Returns (Job.zero, Some (ErrNew "exec unit is nil")))
  /\ (JobSpecTask.Unit (JobSpec.Task spec) <> None ->
      Exists (fun h => JobSpecHook.Unit h = None) (JobSpec.Hooks spec) ->
      exists why, JobSpecAdapter.FromSpec adapt spec = Panics why)
  /\ (JobSpecTask.Unit (JobSpec.Task spec) <> None ->
      Forall (fun h => JobSpecHook.Unit h <> None) (JobSpec.Hooks spec) ->
      exists job, JobSpecAdapter.FromSpec adapt spec = Returns (job, None)
                  /\ length (Job.Hooks job) = length (JobSpec.Hooks spec))
  /\ (forall job err,
        JobSpecAdapter.FromSpec adapt spec = Returns (job, Some err) ->
        JobSpecTask.Unit (JobSpec.Task spec) = None).
Proof.
  unfold JobSpecAdapter.FromSpec.
  destruct (JobSpecTask.Unit (JobSpec.Task spec)) as [unit|].
  - destruct (hooksFromSpec_outcome (JobSpec.Hooks spec) []) as [Hall Hex].
    split; [discriminate |]. split; [| split].
    + intros _ He. destruct (Hex He) as [why ->]. eauto.
    + intros _ Hf. destruct (Hall Hf) as (out & -> & Hlen). cbn.
      eexists. split; [reflexivity |]. exact Hlen.
    + intros job err.
      destruct (JobSpecAdapter.hooksFromSpec (JobSpec.Hooks spec) []); cbn;
        discriminate.
  - split; [reflexivity |]. split; [intros Hn; now elim Hn |].
    split; [intros Hn; now elim Hn | reflexivity].
Qed.

(** X13.  Whenever [ToSpec] returns an error, the domain object it
    returns with it is the empty one.  The dates are read before anything
    else: a job whose start date, or whose end date, is not a date gets
    the error of [time.Parse] as it is, whatever its hooks and its
    configurations hold, and no panic. *)
Theorem ToSpec_errors (adapt : JobSpecAdapter.t) (conf : Job.t) :
  (forall spec err,
      JobSpecAdapter.ToSpec adapt conf = Returns (spec, Some err) ->
      spec = JobSpec.zero)
  /\ (forall d err,
        Time.Parse (JobSchedule.StartDate (Job.Schedule conf)) = (d, Some err) ->
        JobSpecAdapter.ToSpec adapt conf = Returns (JobSpec.zero, Some err))
  /\ (forall start d err,
        Time.Parse (JobSchedule.StartDate (Job.Schedule conf)) = (start, None) ->
        JobSchedule.EndDate (Job.Schedule conf) <> "" ->
        Time.Parse (JobSchedule.EndDate (Job.Schedule conf)) = (d, Some err) ->
        JobSpecAdapter.ToSpec adapt conf = Returns (JobSpec.zero, Some err)).
Proof.
  split; [| split].
  - intros spec err. unfold JobSpecAdapter.ToSpec.
    destruct (Time.Parse (JobSchedule.StartDate (Job.Schedule conf)))
      as [startDate [e|]]; [now intros [= <- _] |].
    destruct (negb (String.eqb (JobSchedule.EndDate (Job.Schedule conf)) "")).
    1: destruct (Time.Parse (JobSchedule.EndDate (Job.Schedule conf)))
         as [endDate [e|]]; [now intros [= <- _] |].
    all: unfold mbind, outcome_bind;
      (destruct (JobSpecAdapter.prepHooks _ _ _) as [[hooks [e|]]|why];
       [now intros [= <- _] | | discriminate]);
      (destruct (Job.prepareWindow conf) as [window [e|]]; [now intros [= <- _] |]);
      (destruct (TransformationRepo.GetByName _ _) as [execUnit [e|]];
       [now intros [= <- _] |]);
      (destruct (JobSpecConfigFromYamlSlice _) as [taskConf|why]; discriminate).
  - intros d err Hstart. unfold JobSpecAdapter.ToSpec. now rewrite Hstart.
  - intros start d err Hstart Hne Hend. unfold JobSpecAdapter.ToSpec.
    rewrite Hstart. apply String.eqb_neq in Hne. rewrite Hne. cbn [negb].
    now rewrite Hend.
Qed.

(** X14.  The dependencies of a domain object go through [FromSpec] and
    back through [ToSpec] as they are, one entry for every job, when each
    type is rendered by [String] as a string from which the [switch] of
    [ToSpec] gets the type again. *)
Theorem dependencies_there_and_back (adapt : JobSpecAdapter.t)
    (spec : JobSpec.t) (job : Job.t) (again : JobSpec.t) :
  JobSpecAdapter.FromSpec adapt spec = Returns (job, None) ->
  JobSpecAdapter.ToSpec adapt job = Returns (again, None) ->
  (forall j dep,
      JobSpec.Dependencies spec !! j = Some dep ->
      JobSpecAdapter.dependencyType
        (JobSpecDependencyType_String (JobSpecDependency.Type_ dep))
      = JobSpecDependency.Type_ dep) ->
  JobSpec.Dependencies again = JobSpec.Dependencies spec
  /\ length (Job.Dependencies job) = size (JobSpec.Dependencies spec).
Proof.
  intros Hfrom Hto Htypes.
  apply FromSpec_ok_inv in Hfrom
    as (? & ? & _ & _ & _ & _ & _ & _ & _ & _ & _ & _ & Hdeps & _).
  apply ToSpec_ok_iff in Hto as (? & ? & ? & ? & ? & ? & _ & _ & _ & _ & _ & _ & ->).
  cbn [JobSpec.Dependencies]. rewrite Hdeps. split.
  2:{ rewrite length_map, (mapRange_perm _ (JobSpec.Dependencies spec)).
      apply length_map_to_list. }
  destruct (dependencies_back (JobSpec.Dependencies spec)) as [Hnd Hmem].
  apply map_eq. intros j. rewrite prepDependencies_lookup.
  destruct (JobSpec.Dependencies spec !! j) as [dep|] eqn:Hj.
  - assert (Hin : {| JobDependency.JobName := j;
                     JobDependency.Type_ :=
                       JobSpecDependencyType_String (JobSpecDependency.Type_ dep) |}
                  ∈ map (fun kv : string * JobSpecDependency.t =>
                           {| JobDependency.JobName := kv.1;
                              JobDependency.Type_ :=
                                JobSpecDependencyType_String
                                  (JobSpecDependency.Type_ kv.2) |})
                      (mapRange (JobSpec.Dependencies spec))).
    { apply Hmem. eauto. }
    apply (entryFor_NoDup _ _ Hnd) in Hin. cbn [JobDependency.JobName] in Hin.
    rewrite Hin. cbn. rewrite (Htypes j dep Hj). now destruct dep.
  - destruct (entryFor j _) as [[j' ty]|] eqn:He; [| reflexivity].
    apply entryFor_elem in He as [Hin Hname]. cbn in Hname. subst j'.
    apply Hmem in Hin as (v & Hv & _). congruence.
Qed.

Lemma preset_window_accepted (conf : Job.t) (winName : string) :
  JobTask.Window (Job.Task conf) = Create.getWindowParameters winName ->
  snd (Job.prepareWindow conf) = None.
Proof.
  intros Hw. rewrite prepareWindow_spans.
  unfold sizeOf, offsetOf, truncateToOf. rewrite Hw.
  unfold Create.getWindowParameters.
  repeat match goal with
         | |- context [String.eqb winName ?s] => destruct (String.eqb winName s)
         end; vm_compute; reflexivity.
Qed.

(** X15.  The job that [createJobSurvey] makes of the answers converts:
    [ToSpec] never panics on it, and accepts it whenever its start date
    is a date and its task is registered.  The domain object has the
    version 1, the label [orchestrator], catch-up without dependence on
    the past, no end date, no dependency, no hook, the window of the
    answer and the configuration that the plugin proposed.  When [ToSpec]
    rejects the job, it is for the start date or for the task. *)
Theorem surveyed_job_converts (adapt : JobSpecAdapter.t)
    (baseInputs : gmap string string) (config : JobSpecConfigs)
    (assets : gmap string string) :
  let job := CreateJob.surveyed baseInputs config assets in
  (exists r, JobSpecAdapter.ToSpec adapt job = Returns r)
  /\ (forall start unit,
        Time.Parse (CreateJob.input baseInputs "start_date") = (start, None) ->
        TransformationRepo.GetByName (JobSpecAdapter.supportedTaskRepo adapt)
          (CreateJob.input baseInputs "task") = (unit, None) ->
        JobSpecAdapter.ToSpec adapt job
        = Returns
            ({| JobSpec.Version := 1;
                JobSpec.Name := Strings.TrimSpace (CreateJob.input baseInputs "name");
                JobSpec.Owner := CreateJob.input baseInputs "owner";
                JobSpec.Description := "";
                JobSpec.Labels := {[ "orchestrator" := "optimus" ]};
                JobSpec.Schedule :=
                  {| JobSpecSchedule.StartDate := start;
                     JobSpecSchedule.EndDate := None;
                     JobSpecSchedule.Interval := CreateJob.input baseInputs "interval" |};
                JobSpec.Behavior := {| JobSpecBehavior.CatchUp := true;
                                       JobSpecBehavior.DependsOnPast := false |};
                JobSpec.Task :=
                  {| JobSpecTask.Unit := unit;
                     JobSpecTask.Config := config;
                     JobSpecTask.Window := fst (Job.prepareWindow job) |};
                JobSpec.Assets := JobAssets.FromMap assets;
                JobSpec.Dependencies := ∅;
                JobSpec.Hooks := [] |}, None))
  /\ (forall spec err,
        JobSpecAdapter.ToSpec adapt job = Returns (spec, Some err) ->
        snd (Time.Parse (CreateJob.input baseInputs "start_date")) <> None
        \/ taskUnregistered (JobSpecAdapter.supportedTaskRepo adapt)
             (CreateJob.input baseInputs "task")).
Proof.
  cbv zeta.
  assert (Hwin : snd (Job.prepareWindow (CreateJob.surveyed baseInputs config assets))
                 = None).
  { apply (preset_window_accepted _ (CreateJob.input baseInputs "window")).
    reflexivity. }
  unfold JobSpecAdapter.ToSpec, taskUnregistered.
  change (JobSchedule.StartDate
            (Job.Schedule (CreateJob.surveyed baseInputs config assets)))
    with (CreateJob.input baseInputs "start_date").
  change (JobSchedule.EndDate
            (Job.Schedule (CreateJob.surveyed baseInputs config assets))) with "".
  change (Job.Hooks (CreateJob.surveyed baseInputs config assets))
    with (@nil JobHook.t).
  change (JobTask.Name (Job.Task (CreateJob.surveyed baseInputs config assets)))
    with (CreateJob.input baseInputs "task").
  change (JobTask.Config (Job.Task (CreateJob.surveyed baseInputs config assets)))
    with (JobSpecConfigToYamlSlice config).
  cbn [String.eqb negb JobSpecAdapter.prepHooks mbind outcome_bind].
  rewrite config_there.
  destruct (Job.prepareWindow (CreateJob.surveyed baseInputs config assets))
    as [window [e|]]; [discriminate | clear Hwin].
  destruct (Time.Parse (CreateJob.input baseInputs "start_date")) as [start [e|]].
  { split; [eauto |]. split; [discriminate |]. intros spec err _. left. discriminate. }
  destruct (TransformationRepo.GetByName (JobSpecAdapter.supportedTaskRepo adapt)
              (CreateJob.input baseInputs "task")) as [unit [e|]].
  { split; [eauto |]. split; [discriminate |]. intros spec err _. right. discriminate. }
  split; [eauto |]. split; [| discriminate].
  intros start' unit' [= <-] [= <-]. cbn [fst].
  change (Job.Labels (CreateJob.surveyed baseInputs config assets))
    with ({[ "orchestrator" := "optimus" ]} : gmap string string).
  rewrite copyLabels_id. reflexivity.
Qed.

End AdapterMore.

Lemma exampleHooks_faithful :
  hookRepoFaithful (JobSpecAdapter.supportedHookRepo exampleAdapter).
Proof.
  intros n u. cbn. destruct (String.eqb_spec n "transporter") as [-> | _].
  - intros [= <-]. eexists. split; reflexivity.
  - discriminate.
Qed.

Lemma exampleFullJob_converts :
  exists spec,
    JobSpecAdapter.ToSpec exampleAdapter exampleFullJob = Returns (spec, None).
Proof. eexists. vm_compute. reflexivity. Qed.

Lemma accepted_dates_witness :
  Job.dateShaped "2021-01-01" = true /\ Job.dateShaped "2021-12-31" = true.
Proof.
  destruct exampleFullJob_converts as [spec Hspec].
  destruct (@accepted_dates examplePackage exampleRange exampleAdapter
              exampleFullJob spec Hspec) as (Hstart & _ & _ & Hend & _).
  split; [exact Hstart | apply Hend; discriminate].
Defined.

Lemma labels_kept_witness :
  exists spec,
    JobSpecAdapter.ToSpec exampleAdapter exampleFullJob = Returns (spec, None)
    /\ Models.JobSpec.Labels spec = {[ "team" := "growth" ]}.
Proof.
  destruct exampleFullJob_converts as [spec Hspec]. exists spec.
  split; [exact Hspec |].
  apply (proj1 (proj2 (@labels_kept examplePackage exampleRange))
           exampleAdapter exampleFullJob spec Hspec).
Defined.

Lemma round_trip_keeps_witness :
  exists spec back,
    JobSpecAdapter.ToSpec exampleAdapter exampleFullJob = Returns (spec, None)
    /\ JobSpecAdapter.FromSpec exampleAdapter spec = Returns (back, None)
    /\ Job.Hooks back = Job.Hooks exampleFullJob
    /\ JobTask.Config (Job.Task back) = JobTask.Config (Job.Task exampleFullJob)
    /\ JobTaskWindow.TruncateTo (JobTask.Window (Job.Task back)) = "d".
Proof.
  eexists.
  assert (Hto : JobSpecAdapter.ToSpec exampleAdapter exampleFullJob
                = Returns (_, None)) by (vm_compute; reflexivity).
  destruct (@round_trip_keeps examplePackage exampleRange exampleAdapter
              exampleFullJob _ exampleHooks_faithful Hto ltac:(discriminate))
    as (back & Hback & _ & _ & _ & Hhooks & Hconfig & Htrunc).
  exists back. auto.
Defined.

Lemma FromSpec_outcomes_witness :
  JobSpecAdapter.FromSpec exampleAdapter Models.JobSpec.zero
  = Returns (Job.zero, Some (ErrNew "exec unit is nil"))
  /\ exists why,
      JobSpecAdapter.FromSpec exampleAdapter exampleSpecNilHook = Panics why.
Proof.
  split.
  - apply (proj1 (@FromSpec_outcomes examplePackage exampleRange exampleAdapter
                    Models.JobSpec.zero)).
    reflexivity.
  - apply (proj1 (proj2 (@FromSpec_outcomes examplePackage exampleRange
                           exampleAdapter exampleSpecNilHook))).
    + discriminate.
    + constructor. reflexivity.
Defined.

Lemma ToSpec_errors_witness :
  JobSpecAdapter.ToSpec exampleAdapter exampleBadDateJob
  = Returns (Models.JobSpec.zero, Some (ErrTimeParse "2021-02-30")).
Proof.
  apply (proj1 (proj2 (@ToSpec_errors examplePackage exampleRange exampleAdapter
                         exampleBadDateJob)) Time.zero).
  vm_compute. reflexivity.
Defined.

Lemma exampleJobBack_converts :
  exists again,
    JobSpecAdapter.ToSpec exampleAdapter exampleJobBack = Returns (again, None).
Proof. eexists. vm_compute. reflexivity. Qed.

Lemma dependencies_there_and_back_witness :
  JobSpecAdapter.FromSpec exampleAdapter exampleSpecWithDependency
  = Returns (exampleJobBack, None)
  /\ exists again,
      JobSpecAdapter.ToSpec exampleAdapter exampleJobBack = Returns (again, None)
      /\ Models.JobSpec.Dependencies again
         = {[ "upstream" := {| Models.JobSpecDependency.Type_ := "inter" |} ]}
      /\ length (Job.Dependencies exampleJobBack) = 1%nat.
Proof.
  assert (Hfrom : JobSpecAdapter.FromSpec exampleAdapter exampleSpecWithDependency
                  = Returns (exampleJobBack, None)) by (vm_compute; reflexivity).
  split; [exact Hfrom |].
  destruct exampleJobBack_converts as [again Hagain]. exists again.
  split; [exact Hagain |].
  destruct (@dependencies_there_and_back examplePackage exampleRange exampleAdapter
              exampleSpecWithDependency _ _ Hfrom Hagain) as [Hdeps Hlen].
  - intros j dep Hj.
    cbn [Models.JobSpec.Dependencies exampleSpecWithDependency] in Hj.
    apply lookup_singleton_Some in Hj as [_ <-]. reflexivity.
  - split; [exact Hdeps | reflexivity].
Defined.

Lemma surveyed_job_converts_witness :
  exists spec,
    JobSpecAdapter.ToSpec exampleAdapter
      (CreateJob.surveyed exampleAnswers exampleProposedConfig ∅)
    = Returns (spec, None)
    /\ Models.JobSpec.Labels spec = {[ "orchestrator" := "optimus" ]}
    /\ Models.JobSpecTask.Config (Models.JobSpec.Task spec) = exampleProposedConfig
    /\ Models.JobSpec.Hooks spec = [].
Proof.
  destruct (@surveyed_job_converts examplePackage exampleRange exampleAdapter
              exampleAnswers exampleProposedConfig ∅) as (_ & Hok & _).
  eexists. split.
  - apply (Hok (Time.Date 2021 1 1) (Some {| Models.Transformation.Name := "bq2bq" |}));
      vm_compute; reflexivity.
  - repeat split.
Defined.

(** ** The deployment session: more about its runs *)

Module SessionMore.
Import ITree.Core.ITreeDefinition.
Import ITree.Eq.Eqit ITree.Eq.UpToTaus ITree.Eq.Shallow.
Import Deploy DeployNotions DeployEndings DeployKinds DeployFacts SessionFacts.
Import SessionKinds DeployMore.

Section More.
Context {FS Datastore ResourceProto JobProto Stream : Type} `{MapRange}.
Variable ToResourceProto : ResourceSpec.t -> ResourceProto + error.
Variable ToJobProto : Models.JobSpec.t -> JobProto + error.

Abbreviation E := (@deployE FS Datastore ResourceProto JobProto Stream).
Abbreviation event := (@event FS Datastore ResourceProto JobProto Stream).

Lemma completes_ret {R : Type} (r : R) : completes (Ret r : itree E R) [] r.
Proof. unfold completes. cbn [after]. reflexivity. Qed.

Lemma completes_call_intro {R X : Type} (e : E X) (k : X -> itree E R) (x : X)
    (rest : list event) (r : R) :
  completes (k x) rest r -> completes (let* x := call e in k x) (Ans e x :: rest) r.
Proof. apply after_call_intro. Qed.

Lemma completes_deferred (err : option error) :
  completes (deferred err : itree E _) deferredCalls err.
Proof.
  unfold deferred, deferredCalls.
  do 3 apply completes_call_intro. apply completes_ret.
Qed.

Lemma deferred_run (err r : option error) (tr : list event) :
  completes (deferred err : itree E _) tr r -> tr = deferredCalls /\ r = err.
Proof.
  unfold deferred. intros Hrun.
  apply completes_call_inv in Hrun as ([] & tr1 & -> & Hrun).
  apply completes_call_inv in Hrun as ([] & tr2 & -> & Hrun).
  apply completes_call_inv in Hrun as ([] & tr3 & -> & Hrun).
  apply completes_ret_inv in Hrun as [-> ->]. split; reflexivity.
Qed.

Lemma inResources_not_deferred (ev : event) : inResources ev -> ~ inDeferred ev.
Proof. destruct ev as [X [] x]; cbn; tauto. Qed.

Lemma inJobs_not_deferred (ev : event) : inJobs ev -> ~ inDeferred ev.
Proof. destruct ev as [X [] x]; cbn; tauto. Qed.

Lemma emits_session (projectName : string) (conf : Opctl.t)
    (datastoreSpecFs : gmap string FS) (ignoreJobDeployment ignoreResources : bool) :
  Emits (fun ev => ~ inDeferred ev)
    (session ToResourceProto ToJobProto projectName conf datastoreSpecFs
       ignoreJobDeployment ignoreResources : itree E _).
Proof.
  unfold session. apply emits_call; [intros ?; cbn; tauto |].
  intros answer. destruct (registrationError answer); [apply emits_ret |].
  apply emits_call; [intros ?; cbn; tauto | intros _].
  eapply emits_weaken; [| apply emits_deployAll].
  intros ev [Hr | Hj];
    [now apply inResources_not_deferred | now apply inJobs_not_deferred].
Qed.

(** X16.  How [postDeploymentRequest] returns.  When the connection
    fails it prints the line about the service that cannot be reached,
    if the time was up, cancels the dial context and returns the error of
    the connection: it registers nothing and closes nothing.  When the
    connection stands, whatever happens then, it ends with the three
    deferred calls, the cancellation of the deployment context, the
    closing of the connection and the cancellation of the dial context,
    in this order, each of them once and nowhere before the end. *)
Theorem connection_and_cleanup (projectName : string) (conf : Opctl.t)
    (datastoreSpecFs : gmap string FS) (ignoreJobDeployment ignoreResources : bool) :
  (forall err,
      completes (postDeploymentRequest ToResourceProto ToJobProto projectName conf
                   datastoreSpecFs ignoreJobDeployment ignoreResources : itree E _)
        (Ans (CreateConnection (Opctl.Host conf)) (Some err) :: afterFailedDial err)
        (Some err))
  /\ (forall (tr : list event) (r : option error),
        completes (postDeploymentRequest ToResourceProto ToJobProto projectName conf
                     datastoreSpecFs ignoreJobDeployment ignoreResources
                   : itree E _) tr r ->
        (exists err,
            tr = Ans (CreateConnection (Opctl.Host conf)) (Some err)
                 :: afterFailedDial err
            /\ r = Some err)
        \/ (exists body,
              tr = Ans (CreateConnection (Opctl.Host conf)) None
                   :: (body ++ deferredCalls)%list
              /\ Forall (fun ev => ~ inDeferred ev) body
              /\ completes (session ToResourceProto ToJobProto projectName conf
                              datastoreSpecFs ignoreJobDeployment ignoreResources)
                   body r)).
Proof.
  split.
  - intros err. unfold postDeploymentRequest, afterFailedDial.
    apply completes_call_intro. unfold printIfDeadline, completes.
    destruct (isDeadlineExceeded err); cbn [app].
    + apply after_call_intro, after_call_intro. apply completes_ret.
    + rewrite bind_ret_l. apply after_call_intro. apply completes_ret.
  - intros tr r Hrun. unfold postDeploymentRequest in Hrun.
    apply completes_call_inv in Hrun as ([err |] & rest & -> & Hrun).
    + left. exists err. unfold printIfDeadline, afterFailedDial in *.
      destruct (isDeadlineExceeded err); cbn [app].
      * apply completes_call_inv in Hrun as ([] & tr1 & -> & Hrun).
        apply completes_call_inv in Hrun as ([] & tr2 & -> & Hrun).
        apply completes_ret_inv in Hrun as [-> <-]. split; reflexivity.
      * rewrite bind_ret_l in Hrun.
        apply completes_call_inv in Hrun as ([] & tr2 & -> & Hrun).
        apply completes_ret_inv in Hrun as [-> <-]. split; reflexivity.
    + right. apply completes_bind_inv in Hrun as (body & a & last & -> & Hs & Hd).
      apply deferred_run in Hd as [-> ->].
      exists body. split; [reflexivity |]. split; [| exact Hs].
      exact (emits_session _ _ _ _ _ _ _ Hs).
Qed.

(** *** The loops that track the progress, turn by turn *)

Lemma trackResources_goes (s : Stream) (total c : Z)
    (msgs : list Pb.DeployResourceSpecificationResponse.t) :
  Forall (fun resp => resourceGoesOn resp = true) msgs ->
  completes (trackResources s total c : itree E _)
    (resourceTurns s total c msgs ++ [Ans (ResourceRecv s) (inr ErrEOF)]) None.
Proof.
  intros Hmsgs. revert c.
  induction Hmsgs as [|resp msgs Hresp _ IH]; intros c;
    unfold trackResources; rewrite unfold_iter; unfold resourceAck at 1;
    rewrite bind_bind; cbn [resourceTurns app].
  - apply completes_call_intro. cbn [isEOF]. rewrite bind_ret_l. apply completes_ret.
  - unfold resourceGoesOn in Hresp.
    destruct (Pb.DeployResourceSpecificationResponse.Ack resp) eqn:Hack; cbn [app].
    + cbn [negb orb] in Hresp.
      apply completes_call_intro. cbn beta iota zeta. rewrite Hack, Hresp.
      cbn [negb]. rewrite bind_bind.
      apply completes_call_intro. rewrite bind_ret_l, tau_eutt. apply IH.
    + apply completes_call_intro. cbn beta iota zeta. rewrite Hack, bind_bind.
      apply completes_call_intro. rewrite bind_ret_l, tau_eutt. apply IH.
Qed.

Lemma trackResources_went (s : Stream) (total : Z) (tr : list event) :
  forall c,
    completes (trackResources s total c : itree E _) tr None ->
    exists msgs,
      Forall (fun resp => resourceGoesOn resp = true) msgs
      /\ tr = (resourceTurns s total c msgs ++ [Ans (ResourceRecv s) (inr ErrEOF)])%list.
Proof.
  induction tr as [tr IH] using (induction_ltof1 _ (@length event)). unfold ltof in IH.
  intros c Hrun. unfold completes, trackResources in Hrun.
  rewrite unfold_iter in Hrun. unfold resourceAck at 1 in Hrun.
  rewrite bind_bind in Hrun.
  apply completes_call_inv in Hrun as (x & rest & -> & Hrest).
  destruct x as [resp | err].
  - destruct (Pb.DeployResourceSpecificationResponse.Ack resp) eqn:Hack;
      [destruct (Pb.DeployResourceSpecificationResponse.Success resp) eqn:Hsuccess;
       cbn [negb] in Hrest |].
    + rewrite bind_bind in Hrest.
      apply completes_call_inv in Hrest as ([] & rest' & -> & Hrest).
      rewrite bind_ret_l, tau_eutt in Hrest.
      destruct (IH rest' ltac:(cbn [length]; lia) _ Hrest) as (msgs & Hmsgs & ->).
      exists (resp :: msgs). split.
      * constructor; [| exact Hmsgs]. unfold resourceGoesOn.
        rewrite Hsuccess. apply orb_true_r.
      * cbn [resourceTurns]. now rewrite Hack.
    + rewrite bind_ret_l in Hrest. now apply completes_ret_inv in Hrest as [_ [=]].
    + rewrite bind_bind in Hrest.
      apply completes_call_inv in Hrest as ([] & rest' & -> & Hrest).
      rewrite bind_ret_l, tau_eutt in Hrest.
      destruct (IH rest' ltac:(cbn [length]; lia) _ Hrest) as (msgs & Hmsgs & ->).
      exists (resp :: msgs). split.
      * constructor; [| exact Hmsgs]. unfold resourceGoesOn. now rewrite Hack.
      * cbn [resourceTurns]. now rewrite Hack.
  - destruct (isEOF err) eqn:Heof; rewrite bind_ret_l in Hrest;
      apply completes_ret_inv in Hrest as [-> Hr]; [| discriminate].
    apply isEOF_eq in Heof as ->. exists []. split; [constructor | reflexivity].
Qed.

Lemma trackJobs_goes (s : Stream) (total c : Z)
    (msgs : list Pb.DeployJobSpecificationResponse.t) :
  Forall (fun resp => jobGoesOn resp = true) msgs ->
  completes (trackJobs s total c : itree E _)
    (jobTurns s total c msgs ++ [Ans (JobRecv s) (inr ErrEOF)]) None.
Proof.
  intros Hmsgs. revert c.
  induction Hmsgs as [|resp msgs Hresp _ IH]; intros c;
    unfold trackJobs; rewrite unfold_iter; unfold jobAck at 1;
    rewrite bind_bind; cbn [jobTurns app].
  - apply completes_call_intro. cbn [isEOF]. rewrite bind_ret_l. apply completes_ret.
  - unfold jobGoesOn in Hresp.
    destruct (Pb.DeployJobSpecificationResponse.Ack resp) eqn:Hack; cbn [app].
    + cbn [negb orb] in Hresp.
      apply completes_call_intro. cbn beta iota zeta. rewrite Hack, Hresp.
      cbn [negb]. rewrite bind_bind.
      apply completes_call_intro. rewrite bind_ret_l, tau_eutt. apply IH.
    + apply completes_call_intro. cbn beta iota zeta. rewrite Hack, bind_bind.
      apply completes_call_intro. rewrite bind_ret_l, tau_eutt. apply IH.
Qed.

Lemma trackJobs_went (s : Stream) (total : Z) (tr : list event) :
  forall c,
    completes (trackJobs s total c : itree E _) tr None ->
    exists msgs,
      Forall (fun resp => jobGoesOn resp = true) msgs
      /\ tr = (jobTurns s total c msgs ++ [Ans (JobRecv s) (inr ErrEOF)])%list.
Proof.
  induction tr as [tr IH] using (induction_ltof1 _ (@length event)). unfold ltof in IH.
  intros c Hrun. unfold completes, trackJobs in Hrun.
  rewrite unfold_iter in Hrun. unfold jobAck at 1 in Hrun.
  rewrite bind_bind in Hrun.
  apply completes_call_inv in Hrun as (x & rest & -> & Hrest).
  destruct x as [resp | err].
  - destruct (Pb.DeployJobSpecificationResponse.Ack resp) eqn:Hack;
      [destruct (Pb.DeployJobSpecificationResponse.Success resp) eqn:Hsuccess;
       cbn [negb] in Hrest |].
    + rewrite bind_bind in Hrest.
      apply completes_call_inv in Hrest as ([] & rest' & -> & Hrest).
      rewrite bind_ret_l, tau_eutt in Hrest.
      destruct (IH rest' ltac:(cbn [length]; lia) _ Hrest) as (msgs & Hmsgs & ->).
      exists (resp :: msgs). split.
      * constructor; [| exact Hmsgs]. unfold jobGoesOn.
        rewrite Hsuccess. apply orb_true_r.
      * cbn [jobTurns]. now rewrite Hack.
    + rewrite bind_ret_l in Hrest. now apply completes_ret_inv in Hrest as [_ [=]].
    + rewrite bind_bind in Hrest.
      apply completes_call_inv in Hrest as ([] & rest' & -> & Hrest).
      rewrite bind_ret_l, tau_eutt in Hrest.
      destruct (IH rest' ltac:(cbn [length]; lia) _ Hrest) as (msgs & Hmsgs & ->).
      exists (resp :: msgs). split.
      * constructor; [| exact Hmsgs]. unfold jobGoesOn. now rewrite Hack.
      * cbn [jobTurns]. now rewrite Hack.
  - destruct (isEOF err) eqn:Heof; rewrite bind_ret_l in Hrest;
      apply completes_ret_inv in Hrest as [-> Hr]; [| discriminate].
    apply isEOF_eq in Heof as ->. exists []. split; [constructor | reflexivity].
Qed.

(** X17.  The runs of the two tracking loops that return without error
    are these: the stream hands over messages of which none acknowledges
    a failure, and then ends.  The loop prints one line for each message,
    with the count raised by one for each acknowledgement, and returns at
    the end of the stream: the count is printed and never compared with
    the number of specifications, so a stream that ends before anything
    was acknowledged is a success as well. *)
Theorem tracking_runs (s : Stream) (total c : Z) :
  (forall tr : list event,
      completes (trackResources s total c : itree E _) tr None
      <-> exists msgs,
          Forall (fun resp => resourceGoesOn resp = true) msgs
          /\ tr = (resourceTurns s total c msgs
                   ++ [Ans (ResourceRecv s) (inr ErrEOF)])%list)
  /\ (forall tr : list event,
        completes (trackJobs s total c : itree E _) tr None
        <-> exists msgs,
            Forall (fun resp => jobGoesOn resp = true) msgs
            /\ tr = (jobTurns s total c msgs ++ [Ans (JobRecv s) (inr ErrEOF)])%list)
  /\ completes (trackResources s total c : itree E _)
       [Ans (ResourceRecv s) (inr ErrEOF)] None.
Proof.
  split; [| split].
  - intros tr. split; [apply trackResources_went |].
    intros (msgs & Hmsgs & ->). now apply trackResources_goes.
  - intros tr. split; [apply trackJobs_went |].
    intros (msgs & Hmsgs & ->). now apply trackJobs_goes.
  - apply (trackResources_goes s total c []). constructor.
Qed.

(** *** The preparation of the specifications *)

(** A loop that converts the elements of a list one by one, appends the
    results, and stops at the first failure with an error made of it. *)
Lemma adaptation_loop {A B : Type} (convert : A -> B + error) (wrap : A -> error -> error)
    (loop : list A -> list B -> list B + error) :
  (forall acc, loop [] acc = inl acc) ->
  (forall x rest acc,
      loop (x :: rest) acc
      = match convert x with
        | inr err => inr (wrap x err)
        | inl y => loop rest (acc ++ [y])%list
        end) ->
  forall xs acc,
    (forall ys, loop xs acc = inl ys
                <-> exists new, ys = (acc ++ new)%list
                                /\ Forall2 (fun x y => convert x = inl y) xs new)
    /\ (forall e, loop xs acc = inr e
                  <-> exists pre x post new err,
                      xs = (pre ++ x :: post)%list
                      /\ Forall2 (fun x y => convert x = inl y) pre new
                      /\ convert x = inr err /\ e = wrap x err).
Proof.
  intros Hnil Hcons xs.
  induction xs as [|x xs IH]; intros acc.
  - rewrite Hnil. split.
    + intros ys. split.
      * intros [= <-]. exists []. rewrite app_nil_r. split; [reflexivity | constructor].
      * intros (new & -> & Hall). inversion Hall. now rewrite app_nil_r.
    + intros e. split; [discriminate |].
      intros (pre & y & post & _ & _ & Heq & _). now destruct pre.
  - rewrite Hcons. destruct (convert x) as [y|err] eqn:Hx.
    + destruct (IH (acc ++ [y])%list) as [IHok IHerr]. split.
      * intros ys. rewrite IHok. split.
        -- intros (new & -> & Hall). exists (y :: new).
           rewrite <- app_assoc. split; [reflexivity | now constructor].
        -- intros (new & -> & Hall). inversion Hall as [|? y' ? new' Hy Hall']; subst.
           assert (y' = y) by congruence. subst y'.
           exists new'. rewrite <- app_assoc. split; [reflexivity | exact Hall'].
      * intros e. rewrite IHerr. split.
        -- intros (pre & z & post & new & err & -> & Hall & Hz & ->).
           exists (x :: pre), z, post, (y :: new), err.
           repeat split; [now constructor | exact Hz].
        -- intros (pre & z & post & new & err & Heq & Hall & Hz & ->).
           destruct pre as [|p pre]; cbn [app] in Heq; injection Heq as <- ->.
           ++ congruence.
           ++ inversion Hall as [|? y' ? new' Hy Hall']; subst.
              exists pre, z, post, new', err. auto.
    + split.
      * intros ys. split; [discriminate |].
        intros (new & _ & Hall). inversion Hall; congruence.
      * intros e. split.
        -- intros [= <-]. exists [], x, xs, [], err.
           repeat split; [constructor | exact Hx].
        -- intros (pre & z & post & new & err' & Heq & Hall & Hz & ->).
           destruct pre as [|p pre]; cbn [app] in Heq; injection Heq as <- ->.
           ++ congruence.
           ++ inversion Hall; congruence.
Qed.

(** X18.  The preparation of the specifications, of the resources of a
    datastore and of the jobs alike, is all or nothing.  It gives the
    wire forms of all specifications, in their order, when every one of
    them can be converted; otherwise it gives the error of the first one
    that cannot, wrapped with the name of that specification. *)
Theorem adaptation_all_or_nothing :
  (forall (specs : list ResourceSpec.t),
      (forall adapted,
          adaptResources ToResourceProto specs [] = inl adapted
          <-> Forall2 (fun spec proto => ToResourceProto spec = inl proto) specs adapted)
      /\ (forall e,
            adaptResources ToResourceProto specs [] = inr e
            <-> exists pre spec post protos err,
                specs = (pre ++ spec :: post)%list
                /\ Forall2 (fun spec proto => ToResourceProto spec = inl proto)
                     pre protos
                /\ ToResourceProto spec = inr err
                /\ e = ErrWrap err ("failed to serialize: " +:+ ResourceSpec.Name spec)))
  /\ (forall (specs : list Models.JobSpec.t),
        (forall adapted,
            adaptJobs ToJobProto specs [] = inl adapted
            <-> Forall2 (fun spec proto => ToJobProto spec = inl proto) specs adapted)
        /\ (forall e,
              adaptJobs ToJobProto specs [] = inr e
              <-> exists pre spec post protos err,
                  specs = (pre ++ spec :: post)%list
                  /\ Forall2 (fun spec proto => ToJobProto spec = inl proto)
                       pre protos
                  /\ ToJobProto spec = inr err
                  /\ e = ErrWrap err
                           ("failed to serialize: " +:+ Models.JobSpec.Name spec))).
Proof.
  split; intros specs.
  - destruct (adaptation_loop ToResourceProto
                (fun spec err =>
                   ErrWrap err ("failed to serialize: " +:+ ResourceSpec.Name spec))
                (adaptResources ToResourceProto)
                ltac:(reflexivity) ltac:(reflexivity) specs []) as [Hok Herr].
    split; [| exact Herr].
    intros adapted. rewrite Hok. cbn [app]. split.
    + now intros (new & -> & Hall).
    + intros Hall. eauto.
  - destruct (adaptation_loop ToJobProto
                (fun spec err =>
                   ErrWrap err ("failed to serialize: " +:+ Models.JobSpec.Name spec))
                (adaptJobs ToJobProto)
                ltac:(reflexivity) ltac:(reflexivity) specs []) as [Hok Herr].
    split; [| exact Herr].
    intros adapted. rewrite Hok. cbn [app]. split.
    + now intros (new & -> & Hall).
    + intros Hall. eauto.
Qed.

(** *** Where the command ends the process *)

Abbreviation exitOf := (@exitFailure FS Datastore ResourceProto JobProto Stream).

Lemma errExit_bind {A R : Type} (err : error) (k : A -> itree E R) :
  ITree.bind (errExit err) k ≈ errExit err.
Proof.
  unfold errExit. rewrite bind_bind. apply eutt_eq_bind. intros [].
Qed.

Lemma quiet_exit_trackResources (s : Stream) (total c : Z) :
  Quiet exitOf (trackResources s total c : itree E _).
Proof.
  unfold Quiet, trackResources. apply emits_iter.
  - intros i. unfold resourceAck. quiet.
  - intros i j. apply resourceAck_turn.
Qed.

Lemma quiet_exit_trackJobs (s : Stream) (total c : Z) :
  Quiet exitOf (trackJobs s total c : itree E _).
Proof.
  unfold Quiet, trackJobs. apply emits_iter.
  - intros i. unfold jobAck. quiet.
  - intros i j. apply jobAck_turn.
Qed.

Lemma quiet_exit_deployJobs (projectName : string) (ignoreJobDeployment : bool) :
  Quiet exitOf
    (deployJobs ToJobProto projectName ignoreJobDeployment : itree E _).
Proof.
  unfold Quiet, deployJobs. destruct ignoreJobDeployment; cbn [negb]; [quiet |].
  apply emits_call; [reflexivity |]. intros _.
  apply emits_call; [reflexivity |].
  intros [specs | err]; [| apply emits_ret].
  destruct (adaptJobs ToJobProto specs []) as [adapted | err]; [| apply emits_ret].
  apply emits_call; [reflexivity |].
  intros [s | err]; [| unfold printIfDeadline; quiet].
  apply emits_bind; [apply quiet_exit_trackJobs |].
  intros [err |]; quiet.
Qed.

Lemma stops_exit_deployStores (projectName : string) (stores : list (string * FS)) :
  Stops exitOf errExit (deployStores ToResourceProto projectName stores).
Proof.
  induction stores as [|[storeName repoFS] rest IH]; cbn [deployStores].
  { apply quiet_stops, emits_ret. }
  apply stops_call.
  { intros [ds | err] v; cbn; [discriminate |]. intros [= <-]. reflexivity. }
  intros [ds | err]; [| apply quiet_stops; unfold Quiet, errExit; quiet].
  apply stops_call.
  { intros [specs | err] v; cbn; [discriminate |]. intros [= <-]. reflexivity. }
  intros [specs | err]; [| apply quiet_stops; unfold Quiet, errExit; quiet].
  destruct (adaptResources ToResourceProto specs []) as [adapted | err];
    [| apply quiet_stops, emits_ret].
  apply stops_call; [intros x v; cbn; discriminate |].
  intros [s | err].
  - apply stops_bind with (tailT := errExit).
    + apply quiet_stops, quiet_exit_trackResources.
    + intros [err |]; [apply quiet_stops, emits_ret | exact IH].
    + intros v. apply errExit_bind.
  - apply quiet_stops. unfold Quiet, printIfDeadline. quiet.
Qed.

Lemma stops_exit_session (projectName : string) (conf : Opctl.t)
    (datastoreSpecFs : gmap string FS) (ignoreJobDeployment ignoreResources : bool) :
  Stops exitOf errExit
    (session ToResourceProto ToJobProto projectName conf datastoreSpecFs
       ignoreJobDeployment ignoreResources).
Proof.
  unfold session. apply stops_call; [intros x v; cbn; discriminate |].
  intros answer.
  destruct (registrationError answer) as [err |]; [apply quiet_stops, emits_ret |].
  apply stops_call; [intros x v; cbn; discriminate |]. intros _.
  unfold deployAll. apply stops_bind with (tailT := errExit).
  - unfold deployResources. destruct ignoreResources; cbn [negb].
    + apply quiet_stops. unfold Quiet. quiet.
    + apply stops_bind with (tailT := errExit).
      * apply stops_exit_deployStores.
      * intros [err |]; apply quiet_stops; unfold Quiet; quiet.
      * intros v. apply errExit_bind.
  - intros [err |]; [apply quiet_stops, emits_ret |].
    apply quiet_stops. unfold Quiet.
    apply emits_bind; [apply quiet_exit_deployJobs |].
    intros [err |]; quiet.
  - intros v. apply errExit_bind.
Qed.

(** X19.  Where the lookup of a datastore fails, or the specifications
    of its resources cannot be read, [postDeploymentRequest] is left with
    the call of [errExit] and nothing else: with an error that names the
    datastore, the error of the lookup being dropped, or with the error
    of the reading.  The call is never answered, so the function does not
    return and none of the deferred calls is made: the connection is left
    as it is when the process ends. *)
Theorem exit_paths (projectName : string) (conf : Opctl.t)
    (datastoreSpecFs : gmap string FS) (ignoreJobDeployment ignoreResources : bool)
    (pre : list event) (ev : event) (err : error) (u : itree E (option error)) :
  after (postDeploymentRequest ToResourceProto ToJobProto projectName conf
           datastoreSpecFs ignoreJobDeployment ignoreResources) (pre ++ [ev]) u ->
  exitOf ev = Some err ->
  u ≈ errExit err
  /\ (forall (tr : list event) u', after u tr u' -> tr = [])
  /\ (forall (tr : list event) r, ~ completes u tr r).
Proof.
  intros Hrun Hev.
  assert (Hu : u ≈ errExit err).
  { revert Hrun Hev. apply (fun Hs => Hs pre ev err u).
    unfold postDeploymentRequest. apply stops_call; [intros x v; cbn; discriminate |].
    intros [e |].
    - apply quiet_stops. unfold Quiet, printIfDeadline. quiet.
    - apply stops_bind with (tailT := errExit).
      + apply stops_exit_session.
      + intros e. apply quiet_stops. unfold Quiet, deferred. quiet.
      + intros v. apply errExit_bind. }
  split; [exact Hu |]. split.
  - intros tr u' Hafter. rewrite Hu in Hafter. unfold errExit in Hafter.
    apply after_call_inv in Hafter as [[-> _] | ([] & _)]. reflexivity.
  - intros tr r Hc. unfold completes in Hc. rewrite Hu in Hc.
    now apply errExit_never in Hc.
Qed.

(** *** Failures of the deployment of the jobs *)




(** *** The line that reports the success *)

Abbreviation completedLine :=
  (@isCompletedLine FS Datastore ResourceProto JobProto Stream).

Lemma inResources_not_completed (ev : event) : inResources ev -> ~ completedLine ev.
Proof. destruct ev as [X [] x]; cbn; try tauto. destruct line; tauto. Qed.

Lemma emits_deployJobs_not_completed (projectName : string)
    (ignoreJobDeployment : bool) :
  Emits (fun ev => ~ completedLine ev)
    (deployJobs ToJobProto projectName ignoreJobDeployment : itree E _).
Proof.
  unfold deployJobs. destruct ignoreJobDeployment; cbn [negb]; [quiet |].
  apply emits_call; [intros ?; cbn; tauto |]. intros _.
  apply emits_call; [intros ?; cbn; tauto |].
  intros [specs | err]; [| apply emits_ret].
  destruct (adaptJobs ToJobProto specs []) as [adapted | err]; [| apply emits_ret].
  apply emits_call; [intros ?; cbn; tauto |].
  intros [s | err]; [| unfold printIfDeadline; quiet].
  apply emits_bind.
  - unfold trackJobs. apply emits_iter.
    + intros i. unfold jobAck. quiet.
    + intros i j. apply jobAck_turn.
  - intros [err |]; quiet.
Qed.

Lemma none_completed (l : list event) :
  Forall (fun ev => ~ completedLine ev) l -> ~ Exists completedLine l.
Proof. intros Hall Hex. apply Exists_exists in Hex as (ev & Hin & Hev).
  rewrite Forall_forall in Hall. exact (Hall ev Hin Hev). Qed.

(** What the session makes of a registration that went through. *)
Lemma deployAll_result (projectName : string) (datastoreSpecFs : gmap string FS)
    (ignoreJobDeployment ignoreResources : bool) (tr : list event)
    (r : option error) :
  completes (deployAll ToResourceProto ToJobProto projectName datastoreSpecFs
               ignoreJobDeployment ignoreResources : itree E _) tr r ->
  (r = None <-> Exists completedLine tr).
Proof.
  unfold deployAll. intros Hrun.
  apply completes_bind_inv in Hrun as (trR & a1 & rest & -> & HR & Hk).
  pose proof (emits_deployResources _ _ _ _ _ _ HR) as HnoR.
  assert (HnR : ~ Exists completedLine trR).
  { apply none_completed. eapply Forall_impl; [exact HnoR |].
    apply inResources_not_completed. }
  destruct a1 as [e |].
  { apply completes_ret_inv in Hk as [-> <-]. rewrite app_nil_r.
    split; [discriminate | intros Hex; now elim HnR]. }
  apply completes_bind_inv in Hk as (trJ & a2 & last & -> & HJ & Hk).
  assert (HnJ : ~ Exists completedLine trJ).
  { apply none_completed. exact (emits_deployJobs_not_completed _ _ _ _ HJ). }
  destruct a2 as [e |].
  - apply completes_ret_inv in Hk as [-> <-]. rewrite app_nil_r.
    split; [discriminate |]. intros Hex.
    apply Exists_app in Hex as [Hex | Hex]; [now elim HnR | now elim HnJ].
  - apply completes_call_inv in Hk as ([] & rest & -> & Hk).
    apply completes_ret_inv in Hk as [-> <-].
    split; [| reflexivity]. intros _.
    apply Exists_app. right. apply Exists_app. right. constructor. exact I.
Qed.

(** X21.  [postDeploymentRequest] returns without error exactly when it
    has printed the line about the deployment that completed
    successfully. *)
Theorem success_is_reported (projectName : string) (conf : Opctl.t)
    (datastoreSpecFs : gmap string FS) (ignoreJobDeployment ignoreResources : bool)
    (tr : list event) (r : option error) :
  completes (postDeploymentRequest ToResourceProto ToJobProto projectName conf
               datastoreSpecFs ignoreJobDeployment ignoreResources : itree E _)
    tr r ->
  (r = None <-> Exists completedLine tr).
Proof.
  unfold postDeploymentRequest. intros Hrun.
  apply completes_call_inv in Hrun as ([err |] & rest & -> & Hrun).
  - assert (Hq : Emits (fun ev => ~ completedLine ev)
                   (run printIfDeadline err LogCantReach then
                    run call DialCancel then Ret (Some err) : itree E _)).
    { unfold printIfDeadline. quiet. }
    pose proof (none_completed _ (Hq _ _ Hrun)) as Hno.
    assert (Hr : r = Some err).
    { unfold printIfDeadline in Hrun. destruct (isDeadlineExceeded err).
      - apply completes_call_inv in Hrun as ([] & tr1 & -> & Hrun).
        apply completes_call_inv in Hrun as ([] & tr2 & -> & Hrun).
        now apply completes_ret_inv in Hrun as [_ <-].
      - rewrite bind_ret_l in Hrun.
        apply completes_call_inv in Hrun as ([] & tr2 & -> & Hrun).
        now apply completes_ret_inv in Hrun as [_ <-]. }
    subst r. split; [discriminate |]. intros Hex.
    apply Exists_cons in Hex as [[] | Hex]. now elim Hno.
  - apply completes_bind_inv in Hrun as (body & a & last & -> & Hs & Hd).
    apply deferred_run in Hd as [-> ->].
    assert (Hbody : a = None <-> Exists completedLine body).
    { unfold session in Hs.
      apply completes_call_inv in Hs as (answer & rest & -> & Hs).
      destruct (registrationError answer) as [e |].
      - apply completes_ret_inv in Hs as [-> <-]. split; [discriminate |].
        intros Hex. apply Exists_cons in Hex as [[] | Hex]. inversion Hex.
      - apply completes_call_inv in Hs as ([] & rest' & -> & Hs).
        apply deployAll_result in Hs. rewrite Hs. split.
        + intros Hex. now do 2 apply Exists_cons_tl.
        + intros Hex. apply Exists_cons in Hex as [[] | Hex].
          now apply Exists_cons in Hex as [[] | Hex]. }
    rewrite Hbody. split.
    + intros Hex. apply Exists_cons_tl. apply Exists_app. now left.
    + intros Hex. apply Exists_cons in Hex as [[] | Hex].
      apply Exists_app in Hex as [Hex | Hex]; [exact Hex |].
      unfold deferredCalls in Hex.
      repeat (apply Exists_cons in Hex as [[] | Hex]). inversion Hex.
Qed.

(** *** The parts that are left out *)

(** X22.  With [ignoreResources] set, [postDeploymentRequest] makes no
    call of the deployment of the resources: no datastore is looked up,
    nothing is read and no request is sent.  With [ignoreJobDeployment]
    set it makes no call of the deployment of the jobs.  With both set a
    run that returns without error has registered the project and
    printed its lines, and that is all it has done. *)
Theorem ignored_parts (projectName : string) (conf : Opctl.t)
    (datastoreSpecFs : gmap string FS) :
  (forall ignoreJobDeployment,
      Emits (fun ev => ~ resourceEvent ev)
        (postDeploymentRequest ToResourceProto ToJobProto projectName conf
           datastoreSpecFs ignoreJobDeployment true : itree E _))
  /\ (forall ignoreResources,
        Emits (fun ev => ~ jobEvent ev)
          (postDeploymentRequest ToResourceProto ToJobProto projectName conf
             datastoreSpecFs true ignoreResources : itree E _))
  /\ (forall tr : list event,
        completes (postDeploymentRequest ToResourceProto ToJobProto projectName conf
                     datastoreSpecFs true true : itree E _) tr None ->
        exists answer,
          registrationError answer = None
          /\ tr = [ Ans (CreateConnection (Opctl.Host conf)) None;
                    Ans (RegisterProject projectName (Opctl.Global conf)) answer;
                    Ans (Println LogUpdatedProject) tt;
                    Ans (Println LogSkippingResources) tt;
                    Ans (Println LogSkippingJobs) tt;
                    Ans (Println LogCompleted) tt;
                    Ans DeployCancel tt; Ans ConnClose tt; Ans DialCancel tt ]).
Proof.
  split; [| split].
  - intros ignoreJobDeployment. unfold postDeploymentRequest.
    apply emits_call; [intros ?; cbn; tauto |].
    intros [err |]; [unfold printIfDeadline; quiet |].
    apply emits_bind; [| intros e; unfold deferred; quiet].
    unfold session. apply emits_call; [intros ?; cbn; tauto |].
    intros answer. destruct (registrationError answer); [apply emits_ret |].
    apply emits_call; [intros ?; cbn; tauto | intros _].
    unfold deployAll, deployResources. cbn [negb].
    apply emits_bind; [quiet |].
    intros [e |]; [apply emits_ret |].
    eapply emits_weaken; [| apply emits_jobs_onwards].
    apply inJobs_not_resource.
  - intros ignoreResources. unfold postDeploymentRequest.
    apply emits_call; [intros ?; cbn; tauto |].
    intros [err |]; [unfold printIfDeadline; quiet |].
    apply emits_bind; [| intros e; unfold deferred; quiet].
    unfold session. apply emits_call; [intros ?; cbn; tauto |].
    intros answer. destruct (registrationError answer); [apply emits_ret |].
    apply emits_call; [intros ?; cbn; tauto | intros _].
    unfold deployAll. apply emits_bind.
    + eapply emits_weaken; [| apply emits_deployResources].
      apply inResources_not_job.
    + intros [e |]; [apply emits_ret |].
      unfold deployJobs. cbn [negb]. quiet.
  - intros tr Hrun. unfold postDeploymentRequest in Hrun.
    apply completes_call_inv in Hrun as ([err |] & rest & -> & Hrun).
    { exfalso. unfold printIfDeadline in Hrun. destruct (isDeadlineExceeded err).
      - apply completes_call_inv in Hrun as ([] & tr1 & -> & Hrun).
        apply completes_call_inv in Hrun as ([] & tr2 & -> & Hrun).
        now apply completes_ret_inv in Hrun as [_ [=]].
      - rewrite bind_ret_l in Hrun.
        apply completes_call_inv in Hrun as ([] & tr2 & -> & Hrun).
        now apply completes_ret_inv in Hrun as [_ [=]]. }
    apply completes_bind_inv in Hrun as (body & a & last & -> & Hs & Hd).
    apply deferred_run in Hd as [-> Ha]. subst a.
    unfold session in Hs.
    apply completes_call_inv in Hs as (answer & rest & -> & Hs).
    exists answer.
    destruct (registrationError answer) as [e |].
    { now apply completes_ret_inv in Hs as [_ [=]]. }
    split; [reflexivity |].
    apply completes_call_inv in Hs as ([] & rest' & -> & Hs).
    unfold deployAll, deployResources, deployJobs in Hs. cbn [negb] in Hs.
    rewrite bind_bind in Hs.
    apply completes_call_inv in Hs as ([] & tr1 & -> & Hs).
    rewrite bind_ret_l, bind_bind in Hs.
    apply completes_call_inv in Hs as ([] & tr2 & -> & Hs).
    rewrite bind_ret_l in Hs.
    apply completes_call_inv in Hs as ([] & tr3 & -> & Hs).
    apply completes_ret_inv in Hs as [-> _]. reflexivity.
Qed.

(** *** One request for every datastore *)

Lemma requestedStores_app (a b : list event) :
  requestedStores (a ++ b) = (requestedStores a ++ requestedStores b)%list.
Proof.
  induction a as [|[X [] x] a IH]; cbn [app requestedStores]; try exact IH.
  - reflexivity.
  - now rewrite IH.
Qed.

Lemma requestedStores_resourceTurns (s : Stream) (total c : Z)
    (msgs : list Pb.DeployResourceSpecificationResponse.t) :
  requestedStores (resourceTurns s total c msgs : list event) = [].
Proof.
  revert c. induction msgs as [|resp msgs IH]; intros c; [reflexivity |].
  cbn [resourceTurns].
  destruct (Pb.DeployResourceSpecificationResponse.Ack resp);
    cbn [requestedStores]; apply IH.
Qed.

Lemma requestedStores_storesRun (projectName : string)
    (stores : list (string * FS)) (tr : list event) :
  storesRun ToResourceProto projectName stores tr ->
  requestedStores tr = stores.*1.
Proof.
  induction 1 as [|storeName repoFS rest ds specs adapted s tracked others
                    Hadapt Htracked _ IH]; [reflexivity |].
  cbn [requestedStores fmap list_fmap fst]. f_equal.
  rewrite requestedStores_app, IH.
  apply trackResources_went in Htracked as (msgs & _ & ->).
  rewrite requestedStores_app, requestedStores_resourceTurns. reflexivity.
Qed.

Lemma requestedStores_none (l : list event) :
  Forall (fun ev => ~ resourceEvent ev) l -> requestedStores l = [].
Proof.
  induction 1 as [|[X e x] l Hev _ IH]; [reflexivity |].
  destruct e; cbn [requestedStores]; try exact IH.
  now elim Hev.
Qed.

(** X23.  A run of [postDeploymentRequest] that returns without error
    has sent, for the resources, one request for every datastore of the
    configuration and no other: each datastore once, in the order in
    which the map was visited; none where the resources are left out. *)
Theorem one_request_per_datastore (projectName : string) (conf : Opctl.t)
    (datastoreSpecFs : gmap string FS) (ignoreJobDeployment ignoreResources : bool)
    (tr : list event) :
  completes (postDeploymentRequest ToResourceProto ToJobProto projectName conf
               datastoreSpecFs ignoreJobDeployment ignoreResources : itree E _)
    tr None ->
  requestedStores tr
  = (if ignoreResources then [] else (mapRange datastoreSpecFs).*1)
  /\ (ignoreResources = false ->
      requestedStores tr ≡ₚ (map_to_list datastoreSpecFs).*1
      /\ NoDup (requestedStores tr)).
Proof.
  intros Hrun.
  assert (Heq : requestedStores tr
                = (if ignoreResources then [] else (mapRange datastoreSpecFs).*1)).
  { unfold postDeploymentRequest in Hrun.
    apply completes_call_inv in Hrun as ([err |] & rest & -> & Hrun).
    { exfalso. unfold printIfDeadline in Hrun. destruct (isDeadlineExceeded err).
      - apply completes_call_inv in Hrun as ([] & tr1 & -> & Hrun).
        apply completes_call_inv in Hrun as ([] & tr2 & -> & Hrun).
        now apply completes_ret_inv in Hrun as [_ [=]].
      - rewrite bind_ret_l in Hrun.
        apply completes_call_inv in Hrun as ([] & tr2 & -> & Hrun).
        now apply completes_ret_inv in Hrun as [_ [=]]. }
    apply completes_bind_inv in Hrun as (body & a & last & -> & Hs & Hd).
    apply deferred_run in Hd as [-> Ha]. subst a.
    unfold session in Hs.
    apply completes_call_inv in Hs as (answer & rest & -> & Hs).
    destruct (registrationError answer) as [e |].
    { now apply completes_ret_inv in Hs as [_ [=]]. }
    apply completes_call_inv in Hs as ([] & rest' & -> & Hs).
    unfold deployAll in Hs.
    apply completes_bind_inv in Hs as (trR & a1 & trK & -> & HR & HK).
    destruct a1 as [e |]; [now apply completes_ret_inv in HK as [_ [=]] |].
    cbn [app requestedStores]. rewrite !requestedStores_app.
    assert (HnoK : requestedStores trK = []).
    { apply requestedStores_none.
      eapply Forall_impl; [exact (emits_jobs_onwards _ _ _ _ _ HK) |].
      apply inJobs_not_resource. }
    rewrite HnoK. cbn [requestedStores deferredCalls]. rewrite !app_nil_r.
    apply deployResources_run in HR as [[-> ->] | (-> & stores & Hstores & ->)].
    - reflexivity.
    - rewrite requestedStores_app. cbn [requestedStores]. rewrite app_nil_r.
      now apply requestedStores_storesRun in Hstores. }
  split; [exact Heq |]. intros ->. rewrite Heq.
  assert (Hperm : (mapRange datastoreSpecFs).*1 ≡ₚ (map_to_list datastoreSpecFs).*1).
  { apply fmap_Permutation, mapRange_perm. }
  split; [exact Hperm |]. rewrite Hperm. apply NoDup_fst_map_to_list.
Qed.

End More.
End SessionMore.

(** ** The example session, again *)

Module SessionMoreExamples.
Import ITree.Core.ITreeDefinition.
Import ITree.Eq.Eqit ITree.Eq.UpToTaus ITree.Eq.Shallow.
Import Deploy DeployNotions DeployEndings DeployKinds DeployFacts SessionFacts.
Import DeployExample DeployExampleFacts DeployMore DeployExampleMore.

Lemma example_ignoring_run :
  completes exampleIgnoringSession exampleIgnoringRun None.
Proof.
  unfold completes, exampleIgnoringSession, exampleIgnoringRun, postDeploymentRequest.
  answered. unfold session. answered.
  change (registrationError (inl exampleRegistered)) with (@None error).
  cbn beta iota. answered.
  unfold deployAll, deployResources, deployJobs. cbn [negb].
  answered. settle. answered. settle. answered. settle.
  unfold deferred. answered. answered. answered.
  cbn [after]. reflexivity.
Qed.

Lemma example_lookup_refused :
  after exampleSession
    (exampleUpToLookup
     ++ [Ans (DatastoreGetByName "bigquery") (inr exampleUnavailable)])
    (errExit (ErrNew ("unsupported datastore: bigquery" +:+ String (ascii_of_N 10) ""))).
Proof.
  unfold exampleSession, exampleUpToLookup, postDeploymentRequest. cbn [app].
  answered. unfold session. answered.
  change (registrationError (inl exampleRegistered)) with (@None error).
  cbn beta iota. answered.
  unfold deployAll, deployResources. cbn [negb].
  rewrite exampleStores_range. cbn [deployStores].
  answered. cbn [after]. rewrite !SessionMore.errExit_bind. reflexivity.
Qed.


Lemma connection_and_cleanup_witness :
  completes exampleSession
    (Ans (CreateConnection "localhost:9100") (Some exampleUnavailable)
     :: afterFailedDial exampleUnavailable)
    (Some exampleUnavailable)
  /\ ((exists err,
          exampleWholeRun
          = Ans (CreateConnection "localhost:9100") (Some err) :: afterFailedDial err
          /\ None = Some err)
      \/ exists body,
          exampleWholeRun
          = Ans (CreateConnection "localhost:9100") None :: (body ++ deferredCalls)%list
          /\ Forall (fun ev => ~ inDeferred ev) body
          /\ completes
               (session (H := exampleRange) exampleToResourceProto exampleToJobProto
                  "project" exampleConf exampleStores false false) body None).
Proof.
  destruct (SessionMore.connection_and_cleanup (Datastore := unit) (Stream := unit)
              (H := exampleRange) exampleToResourceProto exampleToJobProto
              "project" exampleConf exampleStores false false) as [Hfail Hshape].
  split; [apply Hfail |].
  exact (Hshape exampleWholeRun None example_whole_run).
Defined.

Lemma tracking_runs_witness :
  completes (trackResources tt 3 0 : itree E _)
    [ Ans (ResourceRecv tt) (inl exampleProgress);
      Ans (Println (LogInfo "events" "creating")) tt;
      Ans (ResourceRecv tt) (inl exampleAcknowledged);
      Ans (Println (LogDeployed 1 3 "events")) tt;
      Ans (ResourceRecv tt) (inr ErrEOF) ]
    None.
Proof.
  apply (proj1 (SessionMore.tracking_runs (FS := unit) (Datastore := unit)
                  (ResourceProto := unit) (JobProto := unit) tt 3 0)).
  exists [exampleProgress; exampleAcknowledged].
  split; [repeat constructor | reflexivity].
Defined.

Lemma adaptation_all_or_nothing_witness :
  adaptResources examplePickyProto
    [ {| ResourceSpec.Name := "events" |}; {| ResourceSpec.Name := "bad" |};
      {| ResourceSpec.Name := "users" |} ] []
  = inr (ErrWrap (ErrForeign "unknown resource type" false) "failed to serialize: bad").
Proof.
  destruct (SessionMore.adaptation_all_or_nothing examplePickyProto exampleToJobProto)
    as [Hresources _].
  apply (proj2 (Hresources _)).
  exists [{| ResourceSpec.Name := "events" |}], {| ResourceSpec.Name := "bad" |},
    [{| ResourceSpec.Name := "users" |}], [tt], (ErrForeign "unknown resource type" false).
  repeat split. repeat constructor.
Defined.

Lemma exit_paths_witness :
  after exampleSession
    (exampleUpToLookup
     ++ [Ans (DatastoreGetByName "bigquery") (inr exampleUnavailable)])
    (errExit (ErrNew ("unsupported datastore: bigquery" +:+ String (ascii_of_N 10) "")))
  /\ (forall (tr : list event) u',
        after (errExit (ErrNew ("unsupported datastore: bigquery"
                                +:+ String (ascii_of_N 10) ""))
               : itree E (option error)) tr u' ->
        tr = [])
  /\ (forall (tr : list event) (r : option error),
        ~ completes
            (errExit (ErrNew ("unsupported datastore: bigquery"
                              +:+ String (ascii_of_N 10) "")) : itree E (option error))
            tr r).
Proof.
  split; [exact example_lookup_refused |].
  destruct (SessionMore.exit_paths (H := exampleRange) exampleToResourceProto
              exampleToJobProto "project" exampleConf exampleStores false false
              exampleUpToLookup
              (Ans (DatastoreGetByName "bigquery") (inr exampleUnavailable))
              _ _ example_lookup_refused eq_refl) as (_ & Hquiet & Hnever).
  split; [exact Hquiet | exact Hnever].
Defined.


Lemma success_is_reported_witness : Exists isCompletedLine exampleWholeRun.
Proof.
  apply (SessionMore.success_is_reported (H := exampleRange) exampleToResourceProto
           exampleToJobProto "project" exampleConf exampleStores false false
           exampleWholeRun None example_whole_run).
  reflexivity.
Defined.

Lemma ignored_parts_witness :
  exists answer,
    registrationError answer = None
    /\ exampleIgnoringRun
       = [ Ans (CreateConnection (Opctl.Host exampleConf)) None;
           Ans (RegisterProject "project" (Opctl.Global exampleConf)) answer;
           Ans (Println LogUpdatedProject) tt;
           Ans (Println LogSkippingResources) tt;
           Ans (Println LogSkippingJobs) tt;
           Ans (Println LogCompleted) tt;
           Ans DeployCancel tt; Ans ConnClose tt; Ans DialCancel tt ].
Proof.
  apply (proj2 (proj2 (SessionMore.ignored_parts (H := exampleRange)
                         exampleToResourceProto exampleToJobProto "project"
                         exampleConf exampleStores))).
  exact example_ignoring_run.
Defined.

Lemma one_request_per_datastore_witness :
  requestedStores exampleWholeRun = ["bigquery"].
Proof.
  destruct (SessionMore.one_request_per_datastore (H := exampleRange)
              exampleToResourceProto exampleToJobProto "project" exampleConf
              exampleStores false false exampleWholeRun example_whole_run)
    as [Heq _].
  rewrite Heq. cbn [fmap]. now rewrite exampleStores_range.
Defined.

End SessionMoreExamples.

(** ** The questions of a plugin *)

Module SurveyFacts.
Import Survey.

Lemma PluginQuestion_nested_ind (P : PluginQuestion -> Prop) :
  (forall prompt help multiselect default subQuestions,
      Forall (fun s : string * list PluginQuestion => Forall P s.2) subQuestions ->
      P (Question prompt help multiselect default subQuestions)) ->
  forall ques, P ques.
Proof.
  intros Hq. fix IH 1. intros [prompt help multiselect default subQuestions].
  apply Hq.
  induction subQuestions as [|[ifValue questions] rest IHrest];
    constructor; [| exact IHrest].
  cbn [snd]. induction questions as [|q questions IHquestions];
    constructor; [apply IH | exact IHquestions].
Qed.

Section Asking.
Variable AskOne : nat -> Prompt -> string + error.
Variable wrapped : string.

Lemma answeredIn_wider (n1 n2 n n' : nat) (a : PluginAnswer) :
  (n <= n1)%nat -> (n2 <= n')%nat ->
  answeredIn AskOne n1 n2 a -> answeredIn AskOne n n' a.
Proof. intros Hlo Hhi (k & Hk & Ha). exists k. split; [lia | exact Ha]. Qed.

Lemma failedAt_wider (n1 n n' : nat) (e : error) :
  (n <= n1)%nat -> failedAt AskOne wrapped n1 n' e -> failedAt AskOne wrapped n n' e.
Proof. intros Hlo [Hlt Hex]. split; [lia | exact Hex]. Qed.

Lemma went_on (n n1 : nat) (acc sub : list PluginAnswer) (res : asked) :
  n1 = (n + length sub)%nat -> Forall (answeredIn AskOne n n1) sub ->
  went AskOne wrapped n1 (acc ++ sub) res -> went AskOne wrapped n acc res.
Proof.
  intros Hn Hsub. destruct res as [[answers | e] n']; cbn [went].
  - intros (new & -> & -> & Hnew). exists (sub ++ new)%list.
    rewrite app_assoc, length_app. split; [reflexivity |]. split; [lia |].
    apply Forall_app. split.
    + eapply Forall_impl; [exact Hsub |].
      intros a. apply answeredIn_wider; lia.
    + eapply Forall_impl; [exact Hnew |].
      intros a. apply answeredIn_wider; lia.
  - apply failedAt_wider. lia.
Qed.

Lemma askQuestions_went (ask : PluginQuestion -> nat -> asked)
    (questions : list PluginQuestion) :
  Forall (fun q => forall n, went AskOne wrapped n [] (ask q n)) questions ->
  forall acc n, went AskOne wrapped n acc (askQuestions ask questions acc n).
Proof.
  induction 1 as [|q questions Hq _ IH]; intros acc n; cbn [askQuestions].
  - exists []. rewrite app_nil_r. cbn. split; [reflexivity |]. split; [lia | constructor].
  - specialize (Hq n). destruct (ask q n) as [[sub | e] n1]; cbn [went] in Hq.
    + destruct Hq as (new & -> & -> & Hnew). cbn [app] in *.
      eapply went_on; [reflexivity | exact Hnew | apply IH].
    + exact Hq.
Qed.

Lemma askSubQuestions_went (ask : PluginQuestion -> nat -> asked)
    (responseStr : string) (subQuestions : list (string * list PluginQuestion)) :
  Forall (fun s : string * list PluginQuestion =>
            Forall (fun q => forall n, went AskOne wrapped n [] (ask q n)) s.2) subQuestions ->
  forall acc n, went AskOne wrapped n acc (askSubQuestions ask responseStr subQuestions acc n).
Proof.
  induction 1 as [|[ifValue questions] rest Hs _ IH]; intros acc n;
    cbn [askSubQuestions].
  - exists []. rewrite app_nil_r. cbn. split; [reflexivity |]. split; [lia | constructor].
  - destruct (String.eqb responseStr ifValue); [| apply IH].
    pose proof (askQuestions_went ask questions Hs acc n) as Hq.
    destruct (askQuestions ask questions acc n) as [[answers | e] n1];
      cbn [went] in Hq; [| exact Hq].
    destruct Hq as (new & -> & -> & Hnew).
    eapply went_on; [reflexivity | exact Hnew | apply IH].
Qed.

Lemma AskSurveyQuestion_went (ques : PluginQuestion) :
  forall n, went AskOne wrapped n [] (AskSurveyQuestion AskOne wrapped ques n).
Proof.
  induction ques as [prompt help multiselect default subQuestions IH]
    using PluginQuestion_nested_ind.
  intros n. cbn [AskSurveyQuestion].
  set (ques := Question prompt help multiselect default subQuestions) in *.
  destruct (AskOne n (promptOf ques)) as [responseStr | err] eqn:Hask.
  - cbv zeta.
    apply (went_on n (S n) [] [{| Question_ := ques; Value := responseStr |}]).
    + cbn. lia.
    + constructor; [| constructor]. exists n. split; [lia | exact Hask].
    + cbn [app]. now apply askSubQuestions_went.
  - cbn [went]. split; [lia |]. exists (promptOf ques), err. auto.
Qed.

Lemma askSubQuestions_none (ask : PluginQuestion -> nat -> asked)
    (responseStr : string) (subQuestions : list (string * list PluginQuestion))
    (acc : list PluginAnswer) (n : nat) :
  Forall (fun s : string * list PluginQuestion => s.1 <> responseStr) subQuestions ->
  askSubQuestions ask responseStr subQuestions acc n = (inl acc, n).
Proof.
  induction 1 as [|[ifValue questions] rest Hs _ IH]; cbn [askSubQuestions];
    [reflexivity |].
  cbn [fst] in Hs. destruct (String.eqb_spec responseStr ifValue) as [-> | _];
    [now elim Hs | exact IH].
Qed.

(** What a questioning that wraps its errors with [wrapped] comes to. *)
Lemma AskSurveyQuestion_answers (ques : PluginQuestion) (n : nat) :
  (forall answers n',
      AskSurveyQuestion AskOne wrapped ques n = (inl answers, n') ->
      n' = (n + length answers)%nat
      /\ (exists responseStr rest,
            AskOne n (promptOf ques) = inl responseStr
            /\ answers = {| Question_ := ques; Value := responseStr |} :: rest)
      /\ Forall (answeredIn AskOne n n') answers)
  /\ (forall e n',
        AskSurveyQuestion AskOne wrapped ques n = (inr e, n') ->
        failedAt AskOne wrapped n n' e)
  /\ (forall prompt help multiselect default subQuestions responseStr,
        ques = Question prompt help multiselect default subQuestions ->
        AskOne n (promptOf ques) = inl responseStr ->
        Forall (fun s : string * list PluginQuestion => s.1 <> responseStr)
          subQuestions ->
        AskSurveyQuestion AskOne wrapped ques n
        = (inl [{| Question_ := ques; Value := responseStr |}], S n)).
Proof.
  split; [| split].
  - intros answers n' Hres.
    pose proof (AskSurveyQuestion_went ques n) as Hw.
    rewrite Hres in Hw. cbn [went] in Hw.
    destruct Hw as (new & Heq & -> & Hnew). cbn [app] in Heq. subst new.
    split; [reflexivity |]. split; [| exact Hnew].
    destruct ques as [prompt help multiselect default subQuestions].
    cbn [AskSurveyQuestion] in Hres.
    set (q := Question prompt help multiselect default subQuestions) in *.
    destruct (AskOne n (promptOf q)) as [responseStr | err]; [| discriminate].
    cbv zeta in Hres.
    pose proof (askSubQuestions_went
                  (AskSurveyQuestion AskOne wrapped) responseStr
                  subQuestions) as Hsub.
    specialize (Hsub ltac:(apply Forall_forall; intros s _; apply Forall_forall;
                           intros q' _; apply AskSurveyQuestion_went)
                  [{| Question_ := q; Value := responseStr |}] (S n)).
    rewrite Hres in Hsub. cbn [went] in Hsub.
    destruct Hsub as (more & -> & _). exists responseStr, more. auto.
  - intros e n' Hres.
    pose proof (AskSurveyQuestion_went ques n) as Hw.
    now rewrite Hres in Hw.
  - intros prompt help multiselect default subQuestions responseStr -> Hask Hnone.
    cbn [AskSurveyQuestion]. rewrite Hask. cbv zeta.
    now apply askSubQuestions_none.
Qed.

End Asking.

(** X24.  The questions of a plugin, for a task and for a hook alike.
    When the questioning returns answers, the first is the answer to the
    question itself, there is one answer for every prompt that was made,
    and each answer is what one of these prompts, made for the question
    of the answer, was answered with.  When it returns an error, that is
    the error of the last prompt made, wrapped once, however deep the
    question was: with ["AskSurveyQuestion"] for a task, with
    ["AskHookSurveyQuestion"] for a hook.  Where the answer to a question
    equals none of the values that its sub-questions wait for, none of
    them is asked. *)
Theorem survey_answers (AskOne : nat -> Prompt -> string + error)
    (ques : PluginQuestion) (n : nat) :
  ((forall answers n',
       AskTaskSurveyQuestion AskOne ques n = (inl answers, n') ->
       n' = (n + length answers)%nat
       /\ (exists responseStr rest,
             AskOne n (promptOf ques) = inl responseStr
             /\ answers = {| Question_ := ques; Value := responseStr |} :: rest)
       /\ Forall (answeredIn AskOne n n') answers)
   /\ (forall e n',
         AskTaskSurveyQuestion AskOne ques n = (inr e, n') ->
         failedAt AskOne "AskSurveyQuestion" n n' e)
   /\ (forall prompt help multiselect default subQuestions responseStr,
         ques = Question prompt help multiselect default subQuestions ->
         AskOne n (promptOf ques) = inl responseStr ->
         Forall (fun s : string * list PluginQuestion => s.1 <> responseStr)
           subQuestions ->
         AskTaskSurveyQuestion AskOne ques n
         = (inl [{| Question_ := ques; Value := responseStr |}], S n)))
  /\ ((forall answers n',
         AskHookSurveyQuestion AskOne ques n = (inl answers, n') ->
         n' = (n + length answers)%nat
         /\ (exists responseStr rest,
               AskOne n (promptOf ques) = inl responseStr
               /\ answers = {| Question_ := ques; Value := responseStr |} :: rest)
         /\ Forall (answeredIn AskOne n n') answers)
      /\ (forall e n',
            AskHookSurveyQuestion AskOne ques n = (inr e, n') ->
            failedAt AskOne "AskHookSurveyQuestion" n n' e)
      /\ (forall prompt help multiselect default subQuestions responseStr,
            ques = Question prompt help multiselect default subQuestions ->
            AskOne n (promptOf ques) = inl responseStr ->
            Forall (fun s : string * list PluginQuestion => s.1 <> responseStr)
              subQuestions ->
            AskHookSurveyQuestion AskOne ques n
            = (inl [{| Question_ := ques; Value := responseStr |}], S n))).
Proof.
  split.
  - exact (AskSurveyQuestion_answers AskOne "AskSurveyQuestion" ques n).
  - exact (AskSurveyQuestion_answers AskOne "AskHookSurveyQuestion" ques n).
Qed.

Lemma survey_answers_witness :
  (AskTaskSurveyQuestion exampleUser examplePartitionQuestion 0
   = (inl [ {| Question_ := examplePartitionQuestion; Value := "yes" |};
            {| Question_ := exampleColumnQuestion; Value := "created_at" |} ], 2%nat)
   /\ Forall (answeredIn exampleUser 0 2)
        [ {| Question_ := examplePartitionQuestion; Value := "yes" |};
          {| Question_ := exampleColumnQuestion; Value := "created_at" |} ])
  /\ (AskHookSurveyQuestion exampleUser examplePartitionQuestion 0
      = (inl [ {| Question_ := examplePartitionQuestion; Value := "yes" |};
               {| Question_ := exampleColumnQuestion; Value := "created_at" |} ],
         2%nat)
      /\ Forall (answeredIn exampleUser 0 2)
           [ {| Question_ := examplePartitionQuestion; Value := "yes" |};
             {| Question_ := exampleColumnQuestion; Value := "created_at" |} ]).
Proof.
  assert (Htask : AskTaskSurveyQuestion exampleUser examplePartitionQuestion 0
                  = (inl [ {| Question_ := examplePartitionQuestion; Value := "yes" |};
                           {| Question_ := exampleColumnQuestion;
                              Value := "created_at" |} ], 2%nat))
    by reflexivity.
  assert (Hhook : AskHookSurveyQuestion exampleUser examplePartitionQuestion 0
                  = (inl [ {| Question_ := examplePartitionQuestion; Value := "yes" |};
                           {| Question_ := exampleColumnQuestion;
                              Value := "created_at" |} ], 2%nat))
    by reflexivity.
  destruct (survey_answers exampleUser examplePartitionQuestion 0)
    as ((Hok & _) & (Hok' & _)).
  split; (split; [assumption |]).
  - exact (proj2 (proj2 (Hok _ _ Htask))).
  - exact (proj2 (proj2 (Hok' _ _ Hhook))).
Defined.

End SurveyFacts.
